(** * Solana Rent Collector: wallet store and rent-collection engine

    A shallow embedding of [src/wallet-manager.ts] (class [WalletManager]),
    of the [load-wallets] handler of the Electron main process and of
    [src/rent-collector.ts] (class [RentCollector]), followed by the
    properties of the specification that were checked against them.

    Conventions.
    - JavaScript numbers that hold lamports, token amounts, counters and
      indices are integers in the source; they are modelled as [Z].
    - JavaScript strings are modelled as [string]; a character stands for one
      code unit in the Latin-1 range, so [String.length] is [.length].
    - A thrown value is a [JsError] carrying its [message].
    - Everything behind [fs], [Keypair]/[bs58], [JSON] and the RPC
      [Connection] is outside the repository: it is taken as a record of
      functions ([Host], [Connection]) and the theorems hold for every
      such record.
    - Console output is left out. The remote calls, the delays and the
      progress reports of a run are written, in order, to a trace that no
      method reads; the properties about what is submitted, and when, are
      stated on it. *)

From Stdlib Require Import ZArith Ascii.
From Stdlib.Strings Require Import Byte.
From stdpp Require Import base list strings pretty.

Local Open Scope Z_scope.

(** ** JavaScript values used by the code *)

Record JsError := Error { message : string }.

Inductive Result (A : Type) :=
| Ok (a : A)
| Throw (e : JsError).
Arguments Ok {A} a.
Arguments Throw {A} e.

(** [`${error}`] for an [Error] object. *)
Definition error_toString (e : JsError) : string := "Error: " +:+ message e.

(** [error instanceof Error ? error.message : 'Unknown error']; every thrown
    value of the model is an [Error]. *)
Definition error_message (e : JsError) : string := message e.

Module Js.

(** [hay.includes(needle)] *)
Fixpoint includes (needle hay : string) : bool :=
  String.prefix needle hay ||
  match hay with
  | EmptyString => false
  | String _ rest => includes needle rest
  end.

(** [s.split(sep)] for a one-character separator. *)
Fixpoint split (sep : ascii) (s : string) : list string :=
  match s with
  | EmptyString => [EmptyString]
  | String c rest =>
      if Ascii.eqb c sep then EmptyString :: split sep rest
      else match split sep rest with
           | piece :: pieces => String c piece :: pieces
           | [] => [String c EmptyString]
           end
  end.

(** White space and line terminators of ECMAScript below U+0100:
    TAB, LF, VT, FF, CR, SP and NBSP. *)
Definition isWhiteSpace (c : ascii) : bool :=
  let n := nat_of_ascii c in
  bool_decide (n = 9%nat) || bool_decide (n = 10%nat) ||
  bool_decide (n = 11%nat) || bool_decide (n = 12%nat) ||
  bool_decide (n = 13%nat) || bool_decide (n = 32%nat) ||
  bool_decide (n = 160%nat).

Fixpoint trimStart_list (l : list ascii) : list ascii :=
  match l with
  | c :: rest => if isWhiteSpace c then trimStart_list rest else l
  | [] => []
  end.

(** [s.trim()] *)
Definition trim (s : string) : string :=
  String.string_of_list_ascii
    (rev (trimStart_list (rev (trimStart_list (String.list_ascii_of_string s))))).

(** [s.length] *)
Definition length (s : string) : Z := Z.of_nat (String.length s).

(** A [Map<string, V>]: keys in insertion order; [set] on a key that is
    present replaces the value and keeps the key's position. *)
Definition Map (V : Type) := list (string * V).

Fixpoint map_get {V} (k : string) (m : Map V) : option V :=
  match m with
  | [] => None
  | (k', v) :: rest => if String.eqb k' k then Some v else map_get k rest
  end.

Definition map_has {V} (k : string) (m : Map V) : bool :=
  match map_get k m with Some _ => true | None => false end.

Fixpoint map_set {V} (k : string) (v : V) (m : Map V) : Map V :=
  match m with
  | [] => [(k, v)]
  | (k', v') :: rest =>
      if String.eqb k' k then (k', v) :: rest else (k', v') :: map_set k v rest
  end.

Definition map_values {V} (m : Map V) : list V := m.*2.
Definition map_keys {V} (m : Map V) : list string := m.*1.

End Js.

(** ** [src/types.ts] *)

Record WalletInfo := {
  privateKey : string;
  publicKey : string;
  balance : Z;
  rentExemptBalance : Z;
  rentAmount : Z;
  canClose : bool
}.

Record RentCollectionResult := {
  rcr_wallet : string;
  rcr_success : bool;
  rcr_rentCollected : Z;
  rcr_error : option string;
  rcr_transactionSignature : option string
}.

Record RentCollectionSummary := {
  totalWallets : Z;
  successfulCollections : Z;
  totalRentCollected : Z;
  failedCollections : Z;
  results : list RentCollectionResult
}.

(** ** What the wallet store needs from its host *)

Record Host := {
  (** [path.resolve] *)
  resolve : string -> string;
  (** [fs.existsSync] *)
  existsSync : string -> bool;
  (** [fs.readFileSync(p, 'utf-8')] *)
  readFileSync : string -> Result string;
  (** [Keypair.fromSecretKey(bs58.decode(k)).publicKey.toString()];
      throws on a string that is not a valid secret key. *)
  fromSecretKey : string -> Result string
}.

(** ** [src/wallet-manager.ts] *)

Module WalletManager.

(** The private field [wallets]; a new manager holds []. *)
Abbreviation t := (list WalletInfo) (only parsing).
Definition new : t := [].

Definition looksLikePrivateKey (line : string) : bool :=
  (80 <=? Js.length line) && (Js.length line <=? 90).
Definition looksLikeAddress (line : string) : bool :=
  (40 <=? Js.length line) && (Js.length line <=? 50).

Definition isSectionHeader (line : string) : bool :=
  String.eqb line "PRIVATE KEYS:" || String.eqb line "WALLET ADDRESSES:" ||
  String.eqb line "PRIVATE KEYS / ADDRESS:".

(** The locals of the structured-format loop. *)
Record ParseState := {
  currentSection : string;
  privateKeys : list string;
  walletAddresses : list string
}.

(** One iteration of [for (const line of lines)] (structured format). *)
Definition parseLine (st : ParseState) (line : string) : ParseState :=
  if isSectionHeader line then
    {| currentSection := line;
       privateKeys := privateKeys st; walletAddresses := walletAddresses st |}
  else if String.eqb (currentSection st) "PRIVATE KEYS:" then
    if looksLikePrivateKey line then
      {| currentSection := currentSection st;
         privateKeys := privateKeys st ++ [line];
         walletAddresses := walletAddresses st |}
    else st
  else if String.eqb (currentSection st) "WALLET ADDRESSES:" then
    if looksLikeAddress line then
      {| currentSection := currentSection st;
         privateKeys := privateKeys st;
         walletAddresses := walletAddresses st ++ [line] |}
    else st
  else if String.eqb (currentSection st) "PRIVATE KEYS / ADDRESS:" then
    if looksLikePrivateKey line then
      {| currentSection := currentSection st;
         privateKeys := privateKeys st ++ [line];
         walletAddresses := walletAddresses st |}
    else if looksLikeAddress line && (0 <? Z.of_nat (length (privateKeys st))) then
      {| currentSection := currentSection st;
         privateKeys := privateKeys st;
         walletAddresses := walletAddresses st ++ [line] |}
    else st
  else st.

(** Lines 27-75: from the file content to the candidate private keys and
    the addresses given with them. *)
Definition parseContent (content : string) : list string * list string :=
  let lines :=
    filter (fun line => 0 < Js.length line)
           (Js.trim <$> Js.split "010"%char content) in
  let hasPrivateKeysSection := Js.includes "PRIVATE KEYS:" content in
  let hasWalletAddressesSection := Js.includes "WALLET ADDRESSES:" content in
  let hasPrivateKeysAddressSection := Js.includes "PRIVATE KEYS / ADDRESS:" content in
  if hasPrivateKeysSection || hasWalletAddressesSection || hasPrivateKeysAddressSection
  then
    let st := foldl parseLine
                {| currentSection := ""; privateKeys := []; walletAddresses := [] |}
                lines in
    (privateKeys st, walletAddresses st)
  else
    (filter (fun line => looksLikePrivateKey line = true) lines, []).

(** The values of [uniqueWallets]. *)
Record KeyPairStrings := { kp_privateKey : string; kp_publicKey : string }.

(** Lines 91-93: the wallets already in the store enter the map first. *)
Definition seedUnique (wallets : t) : Js.Map KeyPairStrings :=
  foldl (fun m wallet =>
           Js.map_set (publicKey wallet)
             {| kp_privateKey := privateKey wallet; kp_publicKey := publicKey wallet |} m)
        [] wallets.

(** Lines 95-123: the loop over the candidate keys. The two [continue]
    branches drop a duplicate; a key that does not decode aborts the load. *)
Fixpoint dedupKeys (h : Host) (keys : list string)
         (uniqueWallets : Js.Map KeyPairStrings) : Result (Js.Map KeyPairStrings) :=
  match keys with
  | [] => Ok uniqueWallets
  | key :: rest =>
      match fromSecretKey h key with
      | Throw error => Throw (Error ("Invalid private key: " +:+ error_toString error))
      | Ok pub =>
          if Js.map_has pub uniqueWallets then dedupKeys h rest uniqueWallets
          else if existsb (fun w => String.eqb (kp_privateKey w) key)
                          (Js.map_values uniqueWallets)
          then dedupKeys h rest uniqueWallets
          else dedupKeys h rest
                 (Js.map_set pub {| kp_privateKey := key; kp_publicKey := pub |}
                             uniqueWallets)
      end
  end.

(** Lines 129-147: every value of the map becomes a fresh [WalletInfo]. *)
Definition freshWallet (w : KeyPairStrings) : WalletInfo :=
  {| privateKey := kp_privateKey w; publicKey := kp_publicKey w;
     balance := 0; rentExemptBalance := 0; rentAmount := 0; canClose := false |}.

(** Lines 21-79: the candidate private keys of the file, or the error
    thrown before the store is touched. The addresses only feed the
    console warnings of lines 131-137. *)
Definition readPrivateKeys (h : Host) (filePath : string) : Result (list string) :=
  let absolutePath := resolve h filePath in
  if negb (existsSync h absolutePath) then
    Throw (Error ("Wallet file not found: " +:+ absolutePath))
  else
    match readFileSync h absolutePath with
    | Throw e => Throw e
    | Ok content =>
        let '(keys, _addresses) := parseContent content in
        if Z.of_nat (length keys) =? 0 then
          Throw (Error "No valid private keys found in file")
        else Ok keys
    end.

(** [loadWalletsFromFile(filePath, clearExisting)]: the returned array (or
    the error thrown) and the store afterwards. *)
Definition loadWalletsFromFile (h : Host) (filePath : string) (clearExisting : bool)
           (wallets : t) : Result (list WalletInfo) * t :=
  match readPrivateKeys h filePath with
  | Throw e => (Throw e, wallets)
  | Ok keys =>
      let wallets := if clearExisting then [] else wallets in
      match dedupKeys h keys (seedUnique wallets) with
      | Throw e => (Throw e, wallets)
      | Ok uniqueWallets =>
          let wallets' := freshWallet <$> Js.map_values uniqueWallets in
          (Ok wallets', wallets')
      end
  end.

(** [getWallets()] *)
Definition getWallets (wallets : t) : list WalletInfo := wallets.

(** [updateWalletInfo(index, balance, rentExemptBalance, rentAmount, canClose)] *)
Definition updateWalletInfo (index : Z) (balance' rentExemptBalance' rentAmount' : Z)
           (canClose' : bool) (wallets : t) : t :=
  if (0 <=? index) && (index <? Z.of_nat (length wallets)) then
    match wallets !! Z.to_nat index with
    | Some w =>
        <[Z.to_nat index :=
            {| privateKey := privateKey w; publicKey := publicKey w;
               balance := balance'; rentExemptBalance := rentExemptBalance';
               rentAmount := rentAmount'; canClose := canClose' |}]> wallets
    | None => wallets
    end
  else wallets.

(** [getWallet(index)]; [None] is [null]. *)
Definition getWallet (index : Z) (wallets : t) : option WalletInfo :=
  if (0 <=? index) && (index <? Z.of_nat (length wallets))
  then wallets !! Z.to_nat index
  else None.

(** [getWalletCount()] *)
Definition getWalletCount (wallets : t) : Z := Z.of_nat (length wallets).

End WalletManager.

(** ** The [load-wallets] handler of the main process

    [for (const filePath of filePaths) { try { await
    walletManager.loadWalletsFromFile(filePath) ... } catch { ... } }]:
    the files are loaded one after the other with [clearExisting] left at
    its default, and a file that fails is skipped. *)
Definition loadWallets (h : Host) (filePaths : list string)
           (wallets : WalletManager.t) : WalletManager.t :=
  foldl (fun ws filePath => (WalletManager.loadWalletsFromFile h filePath false ws).2)
        wallets filePaths.

(** ** [@solana/web3.js] and [@solana/spl-token] as the collector sees them *)

(** A public key is identified with its base58 text ([toString()],
    [toBase58()]); [equals] is equality of that text. *)
Definition PublicKey := string.

Definition TOKEN_PROGRAM_ID : PublicKey := "TokenkegQfeZyiNwAJbNbGKPFXCWuBvf9Ss623VQ5DA".
Definition TOKEN_2022_PROGRAM_ID : PublicKey := "TokenzQdBNbLqP5VEhdkAS6EPFLC1PHnBqCXEpPxuEb".
Definition LAMPORTS_PER_SOL : Z := 1000000000.

Record Keypair := { secretKey : string; kp_publicKey : PublicKey }.

(** [AccountInfo<Buffer>] *)
Record AccountInfo := {
  lamports : Z;
  data : list byte;
  owner : PublicKey;
  executable : bool;
  rentEpoch : Z
}.

(** An element of the arrays the collector passes around. *)
Record TokenAccount := { pubkey : PublicKey; account : AccountInfo }.

(** [ParsedAccountData]: of the [parsed] member the code reads
    [parsed.info.owner] only; [None] when [parsed], [parsed.info] or the
    owner is missing. *)
Record ParsedAccountData := {
  program : string;
  parsed_info_owner : option string;
  space : Z
}.

(** [Buffer | ParsedAccountData] *)
Inductive AccountData :=
| BufferData (b : list byte)
| ParsedData (p : ParsedAccountData).

Record ParsedAccountInfo := {
  p_lamports : Z;
  p_data : AccountData;
  p_owner : PublicKey;
  p_executable : bool;
  p_rentEpoch : Z
}.

Record ParsedTokenAccount := { p_pubkey : PublicKey; p_account : ParsedAccountInfo }.

Inductive Instruction :=
| Burn (tokenAccount : PublicKey) (mint : list byte) (authority : PublicKey)
       (amount : Z) (programId : PublicKey)
| CloseAccount (tokenAccount destination authority programId : PublicKey)
| Transfer (fromPubkey toPubkey : PublicKey) (transferLamports : Z).

Record Transaction := {
  instructions : list Instruction;
  feePayer : PublicKey;
  recentBlockhash : string
}.

(** The remote calls made on [this.connection] (and
    [sendAndConfirmTransaction]), with their arguments. *)
Inductive Call :=
| GetBalance (pk : PublicKey)
| GetMinimumBalanceForRentExemption (dataSize : Z)
| GetTokenAccountsByOwner (walletPublicKey programId : PublicKey)
| GetParsedProgramAccounts (programId : PublicKey) (dataSize offset : Z) (bytes : string)
| GetParsedTokenAccountsByOwner (walletPublicKey programId : PublicKey)
| GetAccountInfo (pk : PublicKey)
| GetLatestBlockhash
| SendAndConfirmTransaction (transaction : Transaction) (signers : list Keypair).

(** The ledger behind the connection: a state [W] and, for every call, its
    outcome and the state after it. [elapse] is the passing of time during a
    [sleep]. *)
Record Connection (W : Type) := {
  getBalance : PublicKey -> W -> Result Z * W;
  getMinimumBalanceForRentExemption : Z -> W -> Result Z * W;
  getTokenAccountsByOwner : PublicKey -> PublicKey -> W -> Result (list TokenAccount) * W;
  getParsedProgramAccounts :
    PublicKey -> Z -> Z -> string -> W -> Result (list ParsedTokenAccount) * W;
  getParsedTokenAccountsByOwner :
    PublicKey -> PublicKey -> W -> Result (list ParsedTokenAccount) * W;
  getAccountInfo : PublicKey -> W -> Result (option AccountInfo) * W;
  getLatestBlockhash : W -> Result string * W;
  sendAndConfirmTransaction : Transaction -> list Keypair -> W -> Result string * W;
  elapse : Z -> W -> W;
  (** [Buffer.from(JSON.stringify(d))] *)
  jsonBuffer : ParsedAccountData -> list byte
}.
Arguments getBalance {W}.
Arguments getMinimumBalanceForRentExemption {W}.
Arguments getTokenAccountsByOwner {W}.
Arguments getParsedProgramAccounts {W}.
Arguments getParsedTokenAccountsByOwner {W}.
Arguments getAccountInfo {W}.
Arguments getLatestBlockhash {W}.
Arguments sendAndConfirmTransaction {W}.
Arguments elapse {W}.
Arguments jsonBuffer {W}.

(** The [status] of a progress event. [Collected sol] stands for the text
    [`Collected ${sol} SOL`], where [sol] is the text the program has made
    of the amount, [(n / LAMPORTS_PER_SOL).toFixed(4)]. *)
Inductive Status :=
| ProcessingWallet
| Collected (sol : string)
| FailedToProcess.

Record Progress := {
  current : Z;
  total : Z;
  wallet : string;
  status : Status
}.

(** What a run does to the outside, in the order it does it. *)
Inductive Event :=
| Called (c : Call)
| Slept (ms : Z)
| Reported (p : Progress).

(** The [status] of a progress event of [analyzeWallets]. [FoundRent n]
    stands for the text [`Found ${(n || 0) / LAMPORTS_PER_SOL} SOL rent`]. *)
Inductive AnalysisStatus :=
| CheckingBalance
| FoundRent (rentAmount : Z)
| NoRentFound.

Record AnalysisProgress := {
  ap_current : Z;
  ap_total : Z;
  ap_wallet : string;
  ap_status : AnalysisStatus
}.

(** [xs.slice(start, stop)] for [0 <= start <= stop]. *)
Definition slice {A} (xs : list A) (start stop : Z) : list A :=
  take (Z.to_nat (stop - start)) (drop (Z.to_nat start) xs).

(** ** [Number(x)] for an unsigned 64-bit [bigint] and [readBigUInt64LE] *)

(** Round to the nearest double (53 significant bits, ties to even). *)
Definition Number_of_bigint (n : Z) : Z :=
  if n <? 2 ^ 53 then n
  else
    let e := Z.log2 n - 52 in
    let q := n / 2 ^ e in
    let r := n mod 2 ^ e in
    let half := 2 ^ (e - 1) in
    if r <? half then q * 2 ^ e
    else if half <? r then (q + 1) * 2 ^ e
    else if Z.even q then q * 2 ^ e else (q + 1) * 2 ^ e.

Fixpoint littleEndian (bs : list byte) : Z :=
  match bs with
  | [] => 0
  | b :: rest => Z.of_N (Byte.to_N b) + 256 * littleEndian rest
  end.

(** [buf.readBigUInt64LE(offset)]; the code calls it on buffers of at least
    165 bytes only. *)
Definition readBigUInt64LE (offset : nat) (buf : list byte) : Z :=
  littleEndian (take 8 (drop offset buf)).

(** ** [n / LAMPORTS_PER_SOL] and [x.toFixed(4)]

    A number that holds an integer is that integer; the quotient of two
    of them is a double. *)

(** [a / b] for two numbers that hold the integers [a > 0] and [b > 0]:
    the double nearest to the quotient, ties to even, given as [(m, e)]
    for [m * 2 ^ e] with [2 ^ 52 <= m <= 2 ^ 53]. For quotients in the
    range of the normal doubles. *)
Definition Number_div (a b : Z) : Z * Z :=
  let e0 := Z.log2 a - Z.log2 b - 53 in
  let scale e := if 0 <=? e then (a, b * 2 ^ e) else (a * 2 ^ (- e), b) in
  let e := if 2 ^ 53 <=? (scale e0).1 / (scale e0).2 then e0 + 1 else e0 in
  let num := (scale e).1 in
  let den := (scale e).2 in
  let q := num / den in
  let r := num mod den in
  let m := if 2 * r <? den then q
           else if den <? 2 * r then q + 1
           else if Z.even q then q else q + 1 in
  (m, e).

Definition digit (d : Z) : string := String (ascii_of_nat (48 + Z.to_nat d)) EmptyString.

(** [x.toFixed(4)] for the double [x = m * 2 ^ e], [0 <= x < 10 ^ 21]: the
    integer [k] for which [k / 10 ^ 4] is nearest to [x], the larger one
    when there are two, written with four decimals. *)
Definition Number_toFixed4 (x : Z * Z) : string :=
  let m := x.1 in
  let e := x.2 in
  let k := if 0 <=? e then m * 2 ^ e * 10000
           else (2 * m * 10000 + 2 ^ (- e)) / (2 * 2 ^ (- e)) in
  pretty (k / 10000) +:+ "." +:+
  digit (k / 1000 mod 10) +:+ digit (k / 100 mod 10) +:+ digit (k / 10 mod 10) +:+
  digit (k mod 10).

(** [(lamports / LAMPORTS_PER_SOL).toFixed(4)]; [toFixed] writes the sign
    of a negative number and then its absolute value. *)
Definition solText (lamports : Z) : string :=
  if lamports =? 0 then "0.0000"
  else (if lamports <? 0 then "-" else "") +:+
       Number_toFixed4 (Number_div (Z.abs lamports) LAMPORTS_PER_SOL).

(** ** Asynchronous methods: a state and exception monad

    An [async] method is a function of the object's state that returns a
    value or throws, together with the state it leaves. [await] is [bind]. *)

Definition M (S A : Type) : Type := S -> Result A * S.

Definition ret {S A} (a : A) : M S A := fun s => (Ok a, s).

Definition bind {S A B} (m : M S A) (k : A -> M S B) : M S B :=
  fun s => match m s with
           | (Ok a, s') => k a s'
           | (Throw e, s') => (Throw e, s')
           end.

Definition throw {S A} (e : JsError) : M S A := fun s => (Throw e, s).

(** [try { body } catch (error) { handler }] *)
Definition try_catch {S A} (body : M S A) (handler : JsError -> M S A) : M S A :=
  fun s => match body s with
           | (Ok a, s') => (Ok a, s')
           | (Throw e, s') => handler e s'
           end.

(** A [try] block whose outcome is inspected by the code after it. *)
Definition attempt {S A} (body : M S A) : M S (Result A) :=
  fun s => let '(r, s') := body s in (Ok r, s').

Definition gets {S A} (f : S -> A) : M S A := fun s => (Ok (f s), s).

Definition liftResult {S A} (r : Result A) : M S A := fun s => (r, s).

Declare Scope js_scope.
Delimit Scope js_scope with js.
Notation "x <- m ;; k" := (bind m (fun x => k))
  (at level 100, m at next level, right associativity) : js_scope.
Notation "m ;;; k" := (bind m (fun _ => k))
  (at level 100, right associativity) : js_scope.
Local Open Scope js_scope.

(** [for (const x of xs) { acc = f(acc, x) }] *)
Fixpoint foldM {S A B} (f : B -> A -> M S B) (xs : list A) (acc : B) : M S B :=
  match xs with
  | [] => ret acc
  | x :: rest => acc' <- f acc x ;; foldM f rest acc'
  end.

(** ** [src/rent-collector.ts] *)

Module RentCollector.

(** The fields of a [RentCollector], the ledger behind its connection, and
    the record of what it has done to the outside so far. *)
Record t (W : Type) := {
  world : W;
  walletManager : WalletManager.t;
  feePayerKeypair : option Keypair;
  trace : list Event
}.
Arguments world {W}.
Arguments walletManager {W}.
Arguments feePayerKeypair {W}.
Arguments trace {W}.

Definition BATCH_SIZE : Z := 10.

(** Results of the private helpers. *)
Record CloseResult := {
  cr_success : bool;
  cr_rentRecovered : Z;
  cr_error : option string
}.

Record TransferResult := {
  tr_success : bool;
  tr_amountTransferred : Z;
  tr_error : option string
}.

Record BurnResult := { tokensBurned : Z; totalTokensBurned : Z }.

(** The value [processWalletCompletely] resolves to. *)
Record WalletResult := {
  tokenAccountsClosed : Z;
  rentRecovered : Z;
  solTransferred : Z;
  totalRecovered : Z
}.

(** The running totals of [processAllWallets]. *)
Record Totals := {
  totalTokenAccountsClosed : Z;
  totalRentRecovered : Z;
  totalSolTransferred : Z;
  totalRecoveredSoFar : Z;
  successfulWallets : Z;
  failedWallets : Z
}.

(** [error.message && (error.message.includes('429') ||
    error.message.includes('Too Many Requests'))] *)
Definition isRateLimit (error : JsError) : bool :=
  negb (String.eqb (message error) "") &&
  (Js.includes "429" (message error) || Js.includes "Too Many Requests" (message error)).

(** [canCloseAccount(balance, _rentExemptBalance)] *)
Definition canCloseAccount (balance _rentExemptBalance : Z) : bool := 0 <? balance.

(** [calculateRentAmount(balance, _rentExemptBalance)] *)
Definition calculateRentAmount (balance _rentExemptBalance : Z) : Z := balance.

(** [if (accountInfo.data)]: a [Buffer] is an object, hence truthy. *)
Definition truthyBuffer (_ : list byte) : bool := true.

(** The threshold of [transferSolBalances], [0.00001 * LAMPORTS_PER_SOL];
    the product lies in [10000, 10001), so on integer balances
    [balance > 0.00001 * LAMPORTS_PER_SOL] is [balance > 10000]. *)
Definition MIN_TRANSFER_LAMPORTS : Z := 10000.

Section Methods.
Context {W : Type} (h : Host) (c : Connection W).

Definition initial (w : W) (wm : WalletManager.t) : t W :=
  {| world := w; walletManager := wm; feePayerKeypair := None; trace := [] |}.

(** A remote call: recorded, then answered by the ledger. *)
Definition remote {A} (call : Call) (f : W -> Result A * W) : M (t W) A :=
  fun s =>
    let '(r, w') := f (world s) in
    (r, {| world := w'; walletManager := walletManager s;
           feePayerKeypair := feePayerKeypair s;
           trace := trace s ++ [Called call] |}).

(** [sleep(ms)] *)
Definition sleep (ms : Z) : M (t W) unit :=
  fun s =>
    (Ok tt, {| world := elapse c ms (world s); walletManager := walletManager s;
               feePayerKeypair := feePayerKeypair s;
               trace := trace s ++ [Slept ms] |}).

(** [if (progressCallback) { progressCallback(p) }]; the callback is the
    caller's code: it sees the progress event, may act on the outside
    and may throw. *)
Definition report (progressCallback : option (Progress -> W -> Result unit * W))
           (p : Progress) : M (t W) unit :=
  match progressCallback with
  | None => ret tt
  | Some callback =>
      fun s =>
        let '(r, w') := callback p (world s) in
        (r, {| world := w'; walletManager := walletManager s;
               feePayerKeypair := feePayerKeypair s;
               trace := trace s ++ [Reported p] |})
  end.

(** [Keypair.fromSecretKey(bs58.decode(privateKey))] *)
Definition keypairFromSecretKey (privateKey : string) : M (t W) Keypair :=
  match fromSecretKey h privateKey with
  | Ok pub => ret {| secretKey := privateKey; kp_publicKey := pub |}
  | Throw e => throw e
  end.

(** [setFeePayer(feePayerPrivateKey)] *)
Definition setFeePayer (feePayerPrivateKey : string) : M (t W) unit :=
  keypair <- keypairFromSecretKey feePayerPrivateKey ;;
  fun s => (Ok tt, {| world := world s; walletManager := walletManager s;
                      feePayerKeypair := Some keypair; trace := trace s |}).

(** [this.feePayerKeypair.publicKey]; a [TypeError] when the field is null. *)
Definition feePayerPublicKey : M (t W) PublicKey :=
  fp <- gets feePayerKeypair ;;
  match fp with
  | Some keypair => ret (kp_publicKey keypair)
  | None => throw (Error "Cannot read properties of null (reading 'publicKey')")
  end.

(** The body of the [for] loop of [retryWithBackoff], from iteration
    [attempt] on, with [iterations] iterations left. *)
Fixpoint retryLoop {A} (fn : M (t W) A) (maxRetries baseDelay : Z)
         (iterations : nat) (attempt : Z) : M (t W) A :=
  match iterations with
  | O => throw (Error "Max retries exceeded")
  | S iterations' =>
      try_catch fn (fun error =>
        if attempt =? maxRetries then throw error
        else if isRateLimit error then
          let delay := baseDelay * 2 ^ attempt in
          sleep delay ;;;
          retryLoop fn maxRetries baseDelay iterations' (attempt + 1)
        else throw error)
  end.

(** [retryWithBackoff(fn, maxRetries, baseDelay)]: the loop runs for
    [attempt = 0 .. maxRetries]. *)
Definition retryWithBackoff {A} (fn : M (t W) A) (maxRetries baseDelay : Z)
  : M (t W) A :=
  retryLoop fn maxRetries baseDelay (Z.to_nat (maxRetries + 1)) 0.

(** [retryWithBackoff(fn)] with the default [maxRetries = 3] and
    [baseDelay = 1000]. *)
Definition retryWithBackoff_default {A} (fn : M (t W) A) : M (t W) A :=
  retryWithBackoff fn 3 1000.

(** [calculateRentExemptBalance(accountInfo)] *)
Definition calculateRentExemptBalance (accountInfo : AccountInfo) : M (t W) Z :=
  let dataSize := Z.of_nat (length (data accountInfo)) in
  remote (GetMinimumBalanceForRentExemption dataSize)
         (getMinimumBalanceForRentExemption c dataSize).

(** Methods 2 and 3 of [getTokenAccounts]: a parsed item is kept when its
    data is parsed and its parsed owner is the wallet; its data becomes
    the bytes of the JSON text. *)
Definition convertParsed (walletPublicKey : PublicKey) (item : ParsedTokenAccount)
  : list TokenAccount :=
  match p_data (p_account item) with
  | ParsedData parsedData =>
      match parsed_info_owner parsedData with
      | Some o =>
          if String.eqb o walletPublicKey then
            [ {| pubkey := p_pubkey item;
                 account := {| lamports := p_lamports (p_account item);
                               data := jsonBuffer c parsedData;
                               owner := p_owner (p_account item);
                               executable := p_executable (p_account item);
                               rentEpoch := p_rentEpoch (p_account item) |} |} ]
          else []
      | None => []
      end
  | BufferData _ => []
  end.

(** Method 1: [getTokenAccountsByOwner] for both programs inside one
    [try]; what was pushed before a failure stays pushed. *)
Definition method1 (walletPublicKey : PublicKey) (allTokenAccounts : list TokenAccount)
  : M (t W) (list TokenAccount) :=
  r1 <- attempt (retryWithBackoff_default
                   (remote (GetTokenAccountsByOwner walletPublicKey TOKEN_PROGRAM_ID)
                           (getTokenAccountsByOwner c walletPublicKey TOKEN_PROGRAM_ID))) ;;
  match r1 with
  | Throw _ => ret allTokenAccounts
  | Ok tokenAccounts =>
      let allTokenAccounts := allTokenAccounts ++ tokenAccounts in
      r2 <- attempt (retryWithBackoff_default
                       (remote (GetTokenAccountsByOwner walletPublicKey TOKEN_2022_PROGRAM_ID)
                               (getTokenAccountsByOwner c walletPublicKey
                                  TOKEN_2022_PROGRAM_ID))) ;;
      match r2 with
      | Throw _ => ret allTokenAccounts
      | Ok token2022Accounts => ret (allTokenAccounts ++ token2022Accounts)
      end
  end.

(** Method 2: [getParsedProgramAccounts] on the Token program with the
    filters [dataSize: 165] and [memcmp] of the owner at offset 32. *)
Definition method2 (walletPublicKey : PublicKey) (allTokenAccounts : list TokenAccount)
  : M (t W) (list TokenAccount) :=
  r <- attempt (retryWithBackoff_default
                  (remote (GetParsedProgramAccounts TOKEN_PROGRAM_ID 165 32 walletPublicKey)
                          (getParsedProgramAccounts c TOKEN_PROGRAM_ID 165 32
                             walletPublicKey))) ;;
  match r with
  | Throw _ => ret allTokenAccounts
  | Ok parsedAccounts =>
      ret (allTokenAccounts ++ concat (convertParsed walletPublicKey <$> parsedAccounts))
  end.

(** Method 3: [getParsedTokenAccountsByOwner] for both programs inside
    one [try]. *)
Definition method3 (walletPublicKey : PublicKey) (allTokenAccounts : list TokenAccount)
  : M (t W) (list TokenAccount) :=
  r1 <- attempt (retryWithBackoff_default
                   (remote (GetParsedTokenAccountsByOwner walletPublicKey TOKEN_PROGRAM_ID)
                           (getParsedTokenAccountsByOwner c walletPublicKey
                              TOKEN_PROGRAM_ID))) ;;
  match r1 with
  | Throw _ => ret allTokenAccounts
  | Ok tokenAccounts =>
      let allTokenAccounts :=
        allTokenAccounts ++ concat (convertParsed walletPublicKey <$> tokenAccounts) in
      r2 <- attempt (retryWithBackoff_default
                       (remote (GetParsedTokenAccountsByOwner walletPublicKey
                                  TOKEN_2022_PROGRAM_ID)
                               (getParsedTokenAccountsByOwner c walletPublicKey
                                  TOKEN_2022_PROGRAM_ID))) ;;
      match r2 with
      | Throw _ => ret allTokenAccounts
      | Ok token2022Accounts =>
          ret (allTokenAccounts ++
               concat (convertParsed walletPublicKey <$> token2022Accounts))
      end
  end.

(** Lines 755-761: [uniqueAccounts.set(account.pubkey.toString(), account)]
    for every account, then the values of the map. *)
Definition removeDuplicates (allTokenAccounts : list TokenAccount) : list TokenAccount :=
  Js.map_values
    (foldl (fun uniqueAccounts account => Js.map_set (pubkey account) account uniqueAccounts)
           [] allTokenAccounts).

(** [getTokenAccounts(walletPublicKey)] *)
Definition getTokenAccounts (walletPublicKey : PublicKey) : M (t W) (list TokenAccount) :=
  try_catch
    (all1 <- method1 walletPublicKey [] ;;
     all2 <- method2 walletPublicKey all1 ;;
     all3 <- method3 walletPublicKey all2 ;;
     ret (removeDuplicates all3))
    (fun _ => ret []).

(** The instructions [closeTokenAccount] puts in its transaction. *)
Definition closeInstructions (tokenAccountPubkey : PublicKey) (ownerKeypair : Keypair)
           (destinationPubkey : PublicKey) (accountInfo : option AccountInfo)
  : list Instruction :=
  let isToken2022 :=
    match accountInfo with
    | Some info => String.eqb (owner info) TOKEN_2022_PROGRAM_ID
    | None => false
    end in
  let programId := if isToken2022 then TOKEN_2022_PROGRAM_ID else TOKEN_PROGRAM_ID in
  let burn :=
    match accountInfo with
    | Some info =>
        let tokenAmount :=
          if 165 <=? Z.of_nat (length (data info))
          then Number_of_bigint (readBigUInt64LE 64 (data info)) else 0 in
        if 0 <? tokenAmount then
          [Burn tokenAccountPubkey (take 32 (data info)) (kp_publicKey ownerKeypair)
                tokenAmount programId]
        else []
    | None => []
    end in
  burn ++ [CloseAccount tokenAccountPubkey destinationPubkey
                        (kp_publicKey ownerKeypair) programId].

(** [closeTokenAccount(tokenAccountPubkey, ownerKeypair, destinationPubkey)] *)
Definition closeTokenAccount (tokenAccountPubkey : PublicKey) (ownerKeypair : Keypair)
           (destinationPubkey : PublicKey) : M (t W) CloseResult :=
  try_catch
    (fp <- gets feePayerKeypair ;;
     match fp with
     | None =>
         ret {| cr_success := false; cr_rentRecovered := 0;
                cr_error := Some "Fee payer not set" |}
     | Some feePayer =>
         accountInfo <- remote (GetAccountInfo tokenAccountPubkey)
                               (getAccountInfo c tokenAccountPubkey) ;;
         let rentRecovered :=
           match accountInfo with Some info => lamports info | None => 0 end in
         blockhash <- remote GetLatestBlockhash (getLatestBlockhash c) ;;
         let transaction :=
           {| instructions :=
                closeInstructions tokenAccountPubkey ownerKeypair destinationPubkey
                                  accountInfo;
              feePayer := kp_publicKey feePayer;
              recentBlockhash := blockhash |} in
         _signature <-
           retryWithBackoff_default
             (remote (SendAndConfirmTransaction transaction [ownerKeypair; feePayer])
                     (sendAndConfirmTransaction c transaction [ownerKeypair; feePayer])) ;;
         ret {| cr_success := true; cr_rentRecovered := rentRecovered; cr_error := None |}
     end)
    (fun error =>
       ret {| cr_success := false; cr_rentRecovered := 0;
              cr_error := Some (error_message error) |}).

(** [transferSolToFeePayer(fromKeypair, amount)] *)
Definition transferSolToFeePayer (fromKeypair : Keypair) (amount : Z)
  : M (t W) TransferResult :=
  try_catch
    (fp <- gets feePayerKeypair ;;
     match fp with
     | None =>
         ret {| tr_success := false; tr_amountTransferred := 0;
                tr_error := Some "Fee payer not set" |}
     | Some feePayer =>
         let transferAmount := amount in
         if transferAmount <=? 0 then
           ret {| tr_success := false; tr_amountTransferred := 0;
                  tr_error := Some "No SOL to transfer" |}
         else
           blockhash <- remote GetLatestBlockhash (getLatestBlockhash c) ;;
           let transaction :=
             {| instructions :=
                  [Transfer (kp_publicKey fromKeypair) (kp_publicKey feePayer)
                            transferAmount];
                feePayer := kp_publicKey feePayer;
                recentBlockhash := blockhash |} in
           _signature <-
             retryWithBackoff_default
               (remote (SendAndConfirmTransaction transaction [fromKeypair; feePayer])
                       (sendAndConfirmTransaction c transaction [fromKeypair; feePayer])) ;;
           ret {| tr_success := true; tr_amountTransferred := transferAmount;
                  tr_error := None |}
     end)
    (fun error =>
       ret {| tr_success := false; tr_amountTransferred := 0;
              tr_error := Some (error_message error) |}).

(** One iteration of the loop of [burnAllTokens]; [acc] holds
    [tokensBurned] and [totalTokensBurned]. Whatever is thrown inside
    the iteration is caught by it. *)
Definition burnStep (walletKeypair feePayer : Keypair) (acc : BurnResult)
           (tokenAccount : TokenAccount) : M (t W) BurnResult :=
  try_catch
    (let isToken2022 := String.eqb (owner (account tokenAccount)) TOKEN_2022_PROGRAM_ID in
     let programId := if isToken2022 then TOKEN_2022_PROGRAM_ID else TOKEN_PROGRAM_ID in
     accountInfo <- remote (GetAccountInfo (pubkey tokenAccount))
                           (getAccountInfo c (pubkey tokenAccount)) ;;
     match accountInfo with
     | None => ret acc
     | Some info =>
         let data := data info in
         if Z.of_nat (length data) <? 165 then ret acc
         else
           let mint := take 32 data in
           let amount := readBigUInt64LE 64 data in
           if 0 <? amount then
             blockhash <- remote GetLatestBlockhash (getLatestBlockhash c) ;;
             let transaction :=
               {| instructions :=
                    [Burn (pubkey tokenAccount) mint (kp_publicKey walletKeypair)
                          amount programId];
                  feePayer := kp_publicKey feePayer;
                  recentBlockhash := blockhash |} in
             _signature <-
               retryWithBackoff_default
                 (remote (SendAndConfirmTransaction transaction [walletKeypair; feePayer])
                         (sendAndConfirmTransaction c transaction
                            [walletKeypair; feePayer])) ;;
             let acc' :=
               {| tokensBurned := tokensBurned acc + 1;
                  totalTokensBurned := totalTokensBurned acc + Number_of_bigint amount |} in
             sleep 500 ;;;
             ret acc'
           else ret acc
     end)
    (fun _ => ret acc).

(** [burnAllTokens(walletKeypair)]. The outer [catch] can only be
    entered before the loop has run, with both counters at 0. *)
Definition burnAllTokens (walletKeypair : Keypair) : M (t W) BurnResult :=
  fp <- gets feePayerKeypair ;;
  match fp with
  | None => ret {| tokensBurned := 0; totalTokensBurned := 0 |}
  | Some feePayer =>
      try_catch
        (tokenAccounts <- getTokenAccounts (kp_publicKey walletKeypair) ;;
         foldM (burnStep walletKeypair feePayer) tokenAccounts
               {| tokensBurned := 0; totalTokensBurned := 0 |})
        (fun _ => ret {| tokensBurned := 0; totalTokensBurned := 0 |})
  end.

(** One iteration of the loop of [processSingleWallet]; [acc] holds
    [totalRentToCollect] and [tokenAccountsWithRent]. *)
Definition scanStep (acc : Z * Z) (tokenAccount : TokenAccount) : M (t W) (Z * Z) :=
  let accountInfo := account tokenAccount in
  let balance := lamports accountInfo in
  if truthyBuffer (data accountInfo) then
    rentExemptBalance <- calculateRentExemptBalance accountInfo ;;
    let rentAmount := calculateRentAmount balance rentExemptBalance in
    if canCloseAccount balance rentExemptBalance
    then ret (acc.1 + rentAmount, acc.2 + 1)
    else ret acc
  else ret acc.

Definition updateWalletInfo (index balance rentExemptBalance rentAmount : Z)
           (canClose : bool) : M (t W) unit :=
  fun s =>
    (Ok tt, {| world := world s;
               walletManager :=
                 WalletManager.updateWalletInfo index balance rentExemptBalance
                   rentAmount canClose (walletManager s);
               feePayerKeypair := feePayerKeypair s; trace := trace s |}).

(** [processSingleWallet(wallet, walletIndex)]: the discovery of one
    wallet. *)
Definition processSingleWallet (wallet : WalletInfo) (walletIndex : Z)
  : M (t W) WalletInfo :=
  keypair <- keypairFromSecretKey (privateKey wallet) ;;
  let publicKey' := kp_publicKey keypair in
  sleep 250 ;;;
  try_catch
    (walletBalance <- retryWithBackoff_default
                        (remote (GetBalance publicKey') (getBalance c publicKey')) ;;
     tokenAccounts <- getTokenAccounts publicKey' ;;
     totals <- foldM scanStep tokenAccounts (0, 0) ;;
     let totalRentToCollect := totals.1 in
     let processedWallet :=
       {| privateKey := privateKey wallet; publicKey := publicKey wallet;
          balance := walletBalance; rentExemptBalance := 0;
          rentAmount := totalRentToCollect;
          canClose := 0 <? totalRentToCollect |} in
     updateWalletInfo walletIndex walletBalance 0 totalRentToCollect
                      (0 <? totalRentToCollect) ;;;
     ret processedWallet)
    (fun _ => ret wallet).

(** One iteration of the loop over the token accounts in
    [processWalletCompletely]; [acc] holds [tokenAccountsClosed] and
    [rentRecovered]. *)
Definition closeStep (keypair : Keypair) (acc : Z * Z) (tokenAccount : TokenAccount)
  : M (t W) (Z * Z) :=
  let accountInfo := account tokenAccount in
  let balance := lamports accountInfo in
  if truthyBuffer (data accountInfo) then
    rentExemptBalance <- calculateRentExemptBalance accountInfo ;;
    let _rentAmount := calculateRentAmount balance rentExemptBalance in
    if canCloseAccount balance rentExemptBalance then
      destination <- feePayerPublicKey ;;
      closeResult <- closeTokenAccount (pubkey tokenAccount) keypair destination ;;
      let acc' :=
        if cr_success closeResult
        then (acc.1 + 1, acc.2 + cr_rentRecovered closeResult)
        else acc in
      sleep 1000 ;;;
      ret acc'
    else ret acc
  else ret acc.

(** Lines 1243-1288: discovery and closing. *)
Definition closePhase (keypair : Keypair) : M (t W) (Z * Z) :=
  tokenAccounts <- getTokenAccounts (kp_publicKey keypair) ;;
  if 0 <? Z.of_nat (length tokenAccounts)
  then foldM (closeStep keypair) tokenAccounts (0, 0)
  else ret (0, 0).

(** Lines 1294-1316: the refreshed balance and the transfer of what is
    left; the value is [solTransferred]. *)
Definition sweepPhase (keypair : Keypair) : M (t W) Z :=
  updatedBalance <- retryWithBackoff_default
                      (remote (GetBalance (kp_publicKey keypair))
                              (getBalance c (kp_publicKey keypair))) ;;
  if 0 <? updatedBalance then
    transferResult <- transferSolToFeePayer keypair updatedBalance ;;
    if tr_success transferResult
    then ret (tr_amountTransferred transferResult)
    else ret 0
  else ret 0.

(** [wallets[walletIndex]] *)
Definition walletAt (walletIndex : Z) (wallets : list WalletInfo) : option WalletInfo :=
  if 0 <=? walletIndex then wallets !! Z.to_nat walletIndex else None.

(** [processWalletCompletely(walletIndex)] *)
Definition processWalletCompletely (walletIndex : Z) : M (t W) WalletResult :=
  fp <- gets feePayerKeypair ;;
  match fp with
  | None => throw (Error "Fee payer not set. Call setFeePayer() first.")
  | Some _ =>
      wallets <- gets (fun s => WalletManager.getWallets (walletManager s)) ;;
      match walletAt walletIndex wallets with
      | None => throw (Error ("Wallet " +:+ pretty walletIndex +:+ " not found"))
      | Some wallet =>
          keypair <- keypairFromSecretKey (privateKey wallet) ;;
          closed <- closePhase keypair ;;
          let tokenAccountsClosed := closed.1 in
          let rentRecovered := closed.2 in
          _burnResult <- burnAllTokens keypair ;;
          solTransferred <- sweepPhase keypair ;;
          let totalRecovered := rentRecovered + solTransferred in
          ret {| tokenAccountsClosed := tokenAccountsClosed;
                 rentRecovered := rentRecovered;
                 solTransferred := solTransferred;
                 totalRecovered := totalRecovered |}
      end
  end.

Definition countFailure (acc : Totals) : Totals :=
  {| totalTokenAccountsClosed := totalTokenAccountsClosed acc;
     totalRentRecovered := totalRentRecovered acc;
     totalSolTransferred := totalSolTransferred acc;
     totalRecoveredSoFar := totalRecoveredSoFar acc;
     successfulWallets := successfulWallets acc;
     failedWallets := failedWallets acc + 1 |}.

Definition countSuccess (acc : Totals) (walletResult : WalletResult) : Totals :=
  {| totalTokenAccountsClosed :=
       totalTokenAccountsClosed acc + tokenAccountsClosed walletResult;
     totalRentRecovered := totalRentRecovered acc + rentRecovered walletResult;
     totalSolTransferred := totalSolTransferred acc + solTransferred walletResult;
     totalRecoveredSoFar := totalRecoveredSoFar acc + totalRecovered walletResult;
     successfulWallets := successfulWallets acc + 1;
     failedWallets := failedWallets acc |}.

Section ProcessAll.
Variable progressCallback : option (Progress -> W -> Result unit * W).
(** [wallets.length] *)
Variable walletCount : Z.

(** The [catch] block of the loop of [processAllWallets]. *)
Definition onWalletError (acc : Totals) (i : Z) (walletAddress : string)
  : M (t W) Totals :=
  let acc' := countFailure acc in
  report progressCallback
         {| current := i + 1; total := walletCount; wallet := walletAddress;
            status := FailedToProcess |} ;;;
  ret acc'.

(** One iteration of the loop of [processAllWallets]. The [try] block
    is cut where the totals are updated: an exception before that
    point finds the old totals, one after it finds the new ones. *)
Definition processAllStep (acc : Totals) (i : Z) (wallet : WalletInfo)
  : M (t W) Totals :=
  let walletAddress := publicKey wallet in
  r1 <- attempt
          (report progressCallback
                  {| current := i + 1; total := walletCount; wallet := walletAddress;
                     status := ProcessingWallet |} ;;;
           processWalletCompletely i) ;;
  match r1 with
  | Throw _ => onWalletError acc i walletAddress
  | Ok walletResult =>
      let acc' := countSuccess acc walletResult in
      r2 <- attempt
              (report progressCallback
                      {| current := i + 1; total := walletCount;
                         wallet := walletAddress;
                         status := Collected (solText (totalRecovered walletResult)) |} ;;;
               if i <? walletCount - 1 then sleep 1500 else ret tt) ;;
      match r2 with
      | Throw _ => onWalletError acc' i walletAddress
      | Ok _ => ret acc'
      end
  end.

(** [for (let i = ...; i < wallets.length; i++)] over the wallets from
    index [i] on. *)
Fixpoint processAllLoop (i : Z) (wallets : list WalletInfo) (acc : Totals)
  : M (t W) Totals :=
  match wallets with
  | [] => ret acc
  | wallet :: rest =>
      acc' <- processAllStep acc i wallet ;;
      processAllLoop (i + 1) rest acc'
  end.
End ProcessAll.

(** [processAllWallets(progressCallback)] *)
Definition processAllWallets
           (progressCallback : option (Progress -> W -> Result unit * W))
  : M (t W) RentCollectionSummary :=
  fp <- gets feePayerKeypair ;;
  match fp with
  | None => throw (Error "Fee payer not set. Call setFeePayer() first.")
  | Some _ =>
      wallets <- gets (fun s => WalletManager.getWallets (walletManager s)) ;;
      let results := [] in
      acc <- processAllLoop progressCallback (Z.of_nat (length wallets)) 0 wallets
               {| totalTokenAccountsClosed := 0; totalRentRecovered := 0;
                  totalSolTransferred := 0; totalRecoveredSoFar := 0;
                  successfulWallets := 0; failedWallets := 0 |} ;;
      ret {| totalWallets := Z.of_nat (length wallets);
             successfulCollections := successfulWallets acc;
             totalRentCollected := totalRecoveredSoFar acc;
             failedCollections := failedWallets acc;
             results := results |}
  end.

(** One iteration of the loop of [transferSolBalances]; [acc] holds
    [totalSolTransferred], [successfulTransfers] and [failedTransfers]. *)
Definition transferStep (acc : Z * Z * Z) (wallet : WalletInfo) : M (t W) (Z * Z * Z) :=
  if (MIN_TRANSFER_LAMPORTS <? balance wallet) &&
     (negb (canClose wallet) || (rentAmount wallet =? 0))
  then
    keypair <- keypairFromSecretKey (privateKey wallet) ;;
    transferResult <- transferSolToFeePayer keypair (balance wallet) ;;
    let acc' :=
      if tr_success transferResult
      then (acc.1.1 + tr_amountTransferred transferResult, acc.1.2 + 1, acc.2)
      else (acc.1.1, acc.1.2, acc.2 + 1) in
    sleep 1000 ;;;
    ret acc'
  else ret acc.

(** [transferSolBalances()] *)
Definition transferSolBalances : M (t W) RentCollectionSummary :=
  fp <- gets feePayerKeypair ;;
  match fp with
  | None => throw (Error "Fee payer not set. Call setFeePayer() first.")
  | Some _ =>
      wallets <- gets (fun s => WalletManager.getWallets (walletManager s)) ;;
      acc <- foldM transferStep wallets (0, 0, 0) ;;
      ret {| totalWallets := Z.of_nat (length wallets);
             successfulCollections := acc.1.2;
             totalRentCollected := acc.1.1;
             failedCollections := acc.2;
             results := [] |}
  end.

(** [if (progressCallback) { progressCallback(p) }] in [analyzeWallets].
    The trace keeps the remote calls, the delays and the progress events
    of a batch; what an analysis reports is seen by its callback only. *)
Definition reportAnalysis
           (progressCallback : option (AnalysisProgress -> W -> Result unit * W))
           (p : AnalysisProgress) : M (t W) unit :=
  match progressCallback with
  | None => ret tt
  | Some callback =>
      fun s =>
        let '(r, w') := callback p (world s) in
        (r, {| world := w'; walletManager := walletManager s;
               feePayerKeypair := feePayerKeypair s; trace := trace s |})
  end.

Section Analyze.
Variable progressCallback : option (AnalysisProgress -> W -> Result unit * W).

(** [for (let j = ...; j < batch.length; j++)] over the wallets of the
    batch from the one with index [walletIndex = i + j] on. [wallets] is
    the array of the store itself, so [wallets.length] is read from the
    store. *)
Fixpoint analyzeBatch (walletIndex : Z) (batch : list WalletInfo)
         (analyzedWallets : list WalletInfo) : M (t W) (list WalletInfo) :=
  match batch with
  | [] => ret analyzedWallets
  | wallet :: rest =>
      walletCount <- gets (fun s => Z.of_nat (length (walletManager s))) ;;
      reportAnalysis progressCallback
        {| ap_current := walletIndex + 1; ap_total := walletCount;
           ap_wallet := publicKey wallet; ap_status := CheckingBalance |} ;;;
      result <- processSingleWallet wallet walletIndex ;;
      let analyzedWallets := analyzedWallets ++ [result] in
      walletCount <- gets (fun s => Z.of_nat (length (walletManager s))) ;;
      reportAnalysis progressCallback
        {| ap_current := walletIndex + 1; ap_total := walletCount;
           ap_wallet := publicKey wallet;
           ap_status := if canClose result then FoundRent (rentAmount result)
                        else NoRentFound |} ;;;
      analyzeBatch (walletIndex + 1) rest analyzedWallets
  end.

(** [for (let i = ...; i < wallets.length; i += this.BATCH_SIZE)], for at
    most [fuel] batches; [None] when the loop is not over after [fuel]
    batches. The batch is sliced from the array of the store as it is
    when the batch starts. *)
Fixpoint analyzeLoop (fuel : nat) (i : Z) (analyzedWallets : list WalletInfo)
  : M (t W) (option (list WalletInfo)) :=
  match fuel with
  | O => ret None
  | S fuel' =>
      wallets <- gets (fun s => WalletManager.getWallets (walletManager s)) ;;
      if i <? Z.of_nat (length wallets) then
        let batch := slice wallets i (i + BATCH_SIZE) in
        analyzedWallets <- analyzeBatch i batch analyzedWallets ;;
        walletCount <- gets (fun s => Z.of_nat (length (walletManager s))) ;;
        (if i + BATCH_SIZE <? walletCount then sleep 1500 else ret tt) ;;;
        analyzeLoop fuel' (i + BATCH_SIZE) analyzedWallets
      else ret (Some analyzedWallets)
  end.

(** [analyzeWallets(progressCallback)], for at most [fuel] batches. *)
Definition analyzeWalletsWithin (fuel : nat) : M (t W) (option (list WalletInfo)) :=
  analyzeLoop fuel 0 [].
End Analyze.

(** One iteration of the loop over the token accounts in
    [closeAllTokenAccounts]; [acc] holds [totalRentRecovered],
    [successfulClosures] and [failedClosures]. *)
Definition closeAllStep (keypair : Keypair) (acc : Z * Z * Z) (tokenAccount : TokenAccount)
  : M (t W) (Z * Z * Z) :=
  let accountInfo := account tokenAccount in
  let balance := lamports accountInfo in
  if truthyBuffer (data accountInfo) then
    rentExemptBalance <- calculateRentExemptBalance accountInfo ;;
    let _rentAmount := calculateRentAmount balance rentExemptBalance in
    if canCloseAccount balance rentExemptBalance then
      destination <- feePayerPublicKey ;;
      closeResult <- closeTokenAccount (pubkey tokenAccount) keypair destination ;;
      let acc' :=
        if cr_success closeResult
        then (acc.1.1 + cr_rentRecovered closeResult, acc.1.2 + 1, acc.2)
        else (acc.1.1, acc.1.2, acc.2 + 1) in
      sleep 2000 ;;;
      ret acc'
    else ret acc
  else ret acc.

(** One iteration of the loop over the wallets in
    [closeAllTokenAccounts]. *)
Definition closeAllWallet (acc : Z * Z * Z) (wallet : WalletInfo) : M (t W) (Z * Z * Z) :=
  if canClose wallet && (0 <? rentAmount wallet) then
    keypair <- keypairFromSecretKey (privateKey wallet) ;;
    tokenAccounts <- getTokenAccounts (kp_publicKey keypair) ;;
    foldM (closeAllStep keypair) tokenAccounts acc
  else ret acc.

(** [closeAllTokenAccounts()] *)
Definition closeAllTokenAccounts : M (t W) RentCollectionSummary :=
  fp <- gets feePayerKeypair ;;
  match fp with
  | None => throw (Error "Fee payer not set. Call setFeePayer() first.")
  | Some _ =>
      wallets <- gets (fun s => WalletManager.getWallets (walletManager s)) ;;
      acc <- foldM closeAllWallet wallets (0, 0, 0) ;;
      ret {| totalWallets := Z.of_nat (length wallets);
             successfulCollections := acc.1.2;
             totalRentCollected := acc.1.1;
             failedCollections := acc.2;
             results := [] |}
  end.
End Methods.
End RentCollector.

(** ** Vocabulary of the properties *)

Definition isOk {A} (r : Result A) : bool :=
  match r with Ok _ => true | Throw _ => false end.

(** The public identities of the records of a store, in order. *)
Definition identities (wallets : WalletManager.t) : list string := publicKey <$> wallets.

(** Every record of the store carries the identity derived from its secret. *)
Definition storeDerived (h : Host) (wallets : WalletManager.t) : Prop :=
  Forall (fun w => fromSecretKey h (privateKey w) = Ok (publicKey w)) wallets.

(** The identities derived from a list of secrets, or the error of the first
    one that does not decode. *)
Fixpoint derived (h : Host) (keys : list string) : Result (list string) :=
  match keys with
  | [] => Ok []
  | key :: rest =>
      match fromSecretKey h key with
      | Throw error => Throw (Error ("Invalid private key: " +:+ error_toString error))
      | Ok pub =>
          match derived h rest with
          | Ok pubs => Ok (pub :: pubs)
          | Throw e => Throw e
          end
      end
  end.

(** What the loop over the keys keeps true of the entries of
    [uniqueWallets]: the key is the identity of the value, and that
    identity is the one derived from the secret. *)
Definition entryOk (kv : string * WalletManager.KeyPairStrings) : Prop :=
  kv.1 = WalletManager.kp_publicKey kv.2.
Definition entryDerived (h : Host) (kv : string * WalletManager.KeyPairStrings) : Prop :=
  fromSecretKey h (WalletManager.kp_privateKey kv.2) = Ok kv.1.

(** The identities a file brings when it loads, [] when it does not load. *)
Definition identitiesOf (h : Host) (filePath : string) : list string :=
  match WalletManager.readPrivateKeys h filePath with
  | Ok keys => match derived h keys with Ok pubs => pubs | Throw _ => [] end
  | Throw _ => []
  end.

(** ** A small host and two wallet files, for the examples

    Secrets are 88 characters long; the identity of a secret is its first 44
    characters. *)

Definition newline : string := String "010"%char EmptyString.

Definition demoKey (c : ascii) : string := String.string_of_list_ascii (replicate 88 c).

Definition demoFiles : list (string * string) :=
  [ ("a.txt", demoKey "A" +:+ newline +:+ demoKey "B" +:+ newline);
    ("b.txt", "PRIVATE KEYS:" +:+ newline +:+ demoKey "B" +:+ newline +:+
              "  " +:+ demoKey "C" +:+ newline);
    ("empty.txt", "no keys here" +:+ newline) ].

Definition demoRead (path : string) : option string :=
  snd <$> find (fun entry => String.eqb (fst entry) path) demoFiles.

Definition demoHost : Host :=
  {| resolve := fun path => path;
     existsSync := fun path => match demoRead path with Some _ => true | None => false end;
     readFileSync := fun path =>
       match demoRead path with
       | Some content => Ok content
       | None => Throw (Error "ENOENT: no such file or directory")
       end;
     fromSecretKey := fun key =>
       if WalletManager.looksLikePrivateKey key
       then Ok (String.substring 0 44 key)
       else Throw (Error "bad secret key size") |}.

(** The store after [a.txt] was loaded and the discovery of wallet 0 was
    written back. *)
Definition demoStore : WalletManager.t :=
  WalletManager.updateWalletInfo 0 7 0 3 true (loadWallets demoHost ["a.txt"] WalletManager.new).

(** [balance], [rentExemptBalance], [rentAmount] and [canClose] as the
    record is created. *)
Definition undiscovered (w : WalletInfo) : Prop :=
  balance w = 0 /\ rentExemptBalance w = 0 /\ rentAmount w = 0 /\ canClose w = false.


(** *** Runs of the collector *)

(** A method never throws. *)
Definition returns {S A} (m : M S A) : Prop := forall s, isOk (m s).1 = true.

(** A method leaves the wallet store and the fee payer alone, and what it
    does to the outside is a sequence of events that all satisfy [P]. *)
Definition respects {W A} (P : Event -> Prop) (m : M (RentCollector.t W) A) : Prop :=
  forall s,
    RentCollector.walletManager (m s).2 = RentCollector.walletManager s /\
    RentCollector.feePayerKeypair (m s).2 = RentCollector.feePayerKeypair s /\
    exists tr, RentCollector.trace (m s).2 = RentCollector.trace s ++ tr /\ Forall P tr.

(** The kinds of transaction the collector builds. *)
Inductive TxKind := CloseTx | BurnTx | TransferTx | OtherTx.

Definition txKind (transaction : Transaction) : TxKind :=
  match instructions transaction with
  | [CloseAccount _ _ _ _] => CloseTx
  | [Burn _ _ _ _ _; CloseAccount _ _ _ _] => CloseTx
  | [Burn _ _ _ _ _] => BurnTx
  | [Transfer _ _ _] => TransferTx
  | _ => OtherTx
  end.

(** The transactions submitted in a trace, in order. *)
Definition submitted (tr : list Event) : list Transaction :=
  omap (fun e => match e with
                 | Called (SendAndConfirmTransaction transaction _) => Some transaction
                 | _ => None
                 end) tr.

Definition submissions (tr : list Event) : list TxKind := txKind <$> submitted tr.

(** The delays slept in a trace, in order. *)
Definition delays (tr : list Event) : list Z :=
  omap (fun e => match e with Slept ms => Some ms | _ => None end) tr.

(** Events of one phase of the per-wallet pipeline: every transaction
    submitted is of the kind [k]. *)
Definition inPhase (k : TxKind) (e : Event) : Prop :=
  match e with
  | Called (SendAndConfirmTransaction transaction _) => txKind transaction = k
  | _ => True
  end.

(** No transaction is submitted. *)
Definition noSubmission (e : Event) : Prop :=
  match e with
  | Called (SendAndConfirmTransaction _ _) => False
  | _ => True
  end.

(** The rent a list of token accounts adds up to: the lamports of those that
    hold any. *)
Definition eligibleRent (tokenAccounts : list TokenAccount) : Z :=
  foldr (fun tokenAccount sum =>
           if 0 <? lamports (account tokenAccount)
           then lamports (account tokenAccount) + sum else sum)
        0 tokenAccounts.

(** A progress callback, when there is one, never throws. *)
Definition quiet {W} (progressCallback : option (Progress -> W -> Result unit * W)) : Prop :=
  match progressCallback with
  | None => True
  | Some callback => forall p w, (callback p w).1 = Ok tt
  end.

(** ** A scripted ledger, for the examples

    The answers are fixed in advance; the state of the ledger is the number
    of transactions submitted so far, and the outcome of a submission may
    depend on it. *)

Record Script := {
  balances : PublicKey -> Z;
  byOwner : PublicKey -> PublicKey -> Result (list TokenAccount);
  programAccounts : PublicKey -> string -> Result (list ParsedTokenAccount);
  parsedByOwner : PublicKey -> PublicKey -> Result (list ParsedTokenAccount);
  accountInfos : PublicKey -> option AccountInfo;
  submit : Transaction -> nat -> Result string
}.

Definition scripted (sc : Script) : Connection nat :=
  {| getBalance := fun pk n => (Ok (balances sc pk), n);
     getMinimumBalanceForRentExemption := fun _ n => (Ok 2039280, n);
     getTokenAccountsByOwner := fun walletPublicKey programId n =>
       (byOwner sc walletPublicKey programId, n);
     getParsedProgramAccounts := fun programId _ _ bytes n =>
       (programAccounts sc programId bytes, n);
     getParsedTokenAccountsByOwner := fun walletPublicKey programId n =>
       (parsedByOwner sc walletPublicKey programId, n);
     getAccountInfo := fun pk n => (Ok (accountInfos sc pk), n);
     getLatestBlockhash := fun n => (Ok "blockhash", n);
     sendAndConfirmTransaction := fun transaction _ n => (submit sc transaction n, S n);
     elapse := fun _ n => n;
     jsonBuffer := fun _ => [] |}.

(** A collector on a scripted ledger, with its fee payer set. *)
Definition feePayerDemo : Keypair :=
  {| secretKey := demoKey "F"; kp_publicKey := String.substring 0 44 (demoKey "F") |}.

Definition collectorDemo (wallets : WalletManager.t) : RentCollector.t nat :=
  {| RentCollector.world := 0%nat;
     RentCollector.walletManager := wallets;
     RentCollector.feePayerKeypair := Some feePayerDemo;
     RentCollector.trace := [] |}.

(** A ledger that knows no token account and holds no lamports. *)
Definition emptyScript : Script :=
  {| balances := fun _ => 0;
     byOwner := fun _ _ => Ok [];
     programAccounts := fun _ _ => Ok [];
     parsedByOwner := fun _ _ => Ok [];
     accountInfos := fun _ => None;
     submit := fun _ _ => Ok "signature" |}.

(** The first two submissions are rate limited, the third goes through. *)
Definition rateLimitedTwice : Script :=
  {| balances := balances emptyScript; byOwner := byOwner emptyScript;
     programAccounts := programAccounts emptyScript;
     parsedByOwner := parsedByOwner emptyScript;
     accountInfos := accountInfos emptyScript;
     submit := fun _ n =>
       if (n <? 2)%nat then Throw (Error "429 Too Many Requests") else Ok "signature" |}.

(** Every submission is turned down for a reason other than rate limiting. *)
Definition rejecting : Script :=
  {| balances := balances emptyScript; byOwner := byOwner emptyScript;
     programAccounts := programAccounts emptyScript;
     parsedByOwner := parsedByOwner emptyScript;
     accountInfos := accountInfos emptyScript;
     submit := fun _ _ => Throw (Error "Transaction simulation failed") |}.

Definition demoTransfer : Transaction :=
  {| instructions := [Transfer "from" "to" 5];
     feePayer := kp_publicKey feePayerDemo; recentBlockhash := "blockhash" |}.

(** *** Token accounts for the examples *)

(** The 165 bytes of a token account: mint, owner, amount (little endian),
    and the rest of the layout, all zero but the amount. *)
Definition tokenData (amountBytes : list byte) : list byte :=
  replicate 64 x00 ++ amountBytes ++ replicate 93 x00.

(** 1000 raw token units. *)
Definition thousandUnits : list byte := [xe8; x03; x00; x00; x00; x00; x00; x00].
Definition noUnits : list byte := replicate 8 x00.

Definition walletA : PublicKey := String.substring 0 44 (demoKey "A").
Definition walletB : PublicKey := String.substring 0 44 (demoKey "B").

Definition tokenAccountOf (address : PublicKey) (lamports' : Z) (amountBytes : list byte)
  : TokenAccount :=
  {| pubkey := address;
     account := {| lamports := lamports'; data := tokenData amountBytes;
                   owner := TOKEN_PROGRAM_ID; executable := false; rentEpoch := 0 |} |}.

(** Wallet A owns the given token accounts, found by the owner-indexed
    lookup on the Token program only; every wallet holds [native] lamports;
    [submit'] decides the submissions. *)
Definition walletAOwns (tokenAccounts : list TokenAccount) (native : PublicKey -> Z)
           (submit' : Transaction -> nat -> Result string) : Script :=
  {| balances := native;
     byOwner := fun walletPublicKey programId =>
       if String.eqb walletPublicKey walletA && String.eqb programId TOKEN_PROGRAM_ID
       then Ok tokenAccounts else Ok [];
     programAccounts := fun _ _ => Ok [];
     parsedByOwner := fun _ _ => Ok [];
     accountInfos := fun pk =>
       account <$> find (fun tokenAccount => String.eqb (pubkey tokenAccount) pk) tokenAccounts;
     submit := submit' |}.

(** A token account with 1000 units whose close is turned down. *)
Definition frozenAccount : Script :=
  walletAOwns [tokenAccountOf "TokenAccountT" 2039280 thousandUnits] (fun _ => 0)
    (fun transaction _ =>
       match txKind transaction with
       | CloseTx => Throw (Error "Transaction simulation failed: custom program error: 0x11")
       | _ => Ok "signature"
       end).

(** The reading of the specification under which no burn is submitted on
    its own once a close has been submitted. *)
Definition no_burn_after_close : Prop :=
  forall (W : Type) (h : Host) (c : Connection W) (walletIndex : Z) (s : RentCollector.t W)
         (before after : list TxKind),
    submissions (RentCollector.trace (RentCollector.processWalletCompletely h c walletIndex s).2)
    = before ++ CloseTx :: after ->
    BurnTx ∉ after.

(** Wallet A holds 700000 lamports and wallet B 500000, neither owns a
    token account, and the transfer out of wallet B is turned down. *)
Definition sweepFailsForB : Script :=
  walletAOwns []
    (fun pk => if String.eqb pk walletA then 700000
               else if String.eqb pk walletB then 500000 else 0)
    (fun transaction _ =>
       match instructions transaction with
       | [Transfer fromPubkey _ _] =>
           if String.eqb fromPubkey walletB
           then Throw (Error "Transaction simulation failed: Attempt to debit an account")
           else Ok "signature"
       | _ => Ok "signature"
       end).

Definition sweepOfB : Transaction :=
  {| instructions := [Transfer walletB (kp_publicKey feePayerDemo) 500000];
     feePayer := kp_publicKey feePayerDemo; recentBlockhash := "blockhash" |}.

(** The reading of the specification under which every wallet is counted
    once and nothing is thrown out of the batch, whatever the caller
    passes as progress callback. *)
Definition every_wallet_counted_once : Prop :=
  forall (W : Type) (h : Host) (c : Connection W)
         (progressCallback : option (Progress -> W -> Result unit * W))
         (s : RentCollector.t W) (feePayer' : Keypair),
    RentCollector.feePayerKeypair s = Some feePayer' ->
    exists summary s',
      RentCollector.processAllWallets h c progressCallback s = (Ok summary, s') /\
      successfulCollections summary + failedCollections summary = totalWallets summary /\
      totalWallets summary = WalletManager.getWalletCount (RentCollector.walletManager s).

(** A progress callback that throws whatever it is told: the window it
    would send to is gone. *)
Definition brokenCallback : Progress -> nat -> Result unit * nat :=
  fun _ n => (Throw (Error "Object has been destroyed"), n).

(** A progress callback that throws when it is told of a success. *)
Definition touchyCallback : Progress -> nat -> Result unit * nat :=
  fun p n =>
    match status p with
    | Collected _ => (Throw (Error "Object has been destroyed"), n)
    | _ => (Ok tt, n)
    end.

(** Wallet A holds 5000 lamports and owns a token account that holds
    5000 lamports and no tokens; every submission goes through. *)
Definition dust : Script :=
  walletAOwns [tokenAccountOf "TokenAccountD" 5000 noUnits]
    (fun pk => if String.eqb pk walletA then 5000 else 0)
    (fun _ _ => Ok "signature").



(** *** Discovery *)

(** The three queries behind the strategies of [getTokenAccounts], each
    wrapped by the retry policy as the code wraps it. *)
Definition queryByOwner {W} (c : Connection W) (walletPublicKey programId : PublicKey)
  : M (RentCollector.t W) (list TokenAccount) :=
  RentCollector.retryWithBackoff_default c
    (RentCollector.remote (GetTokenAccountsByOwner walletPublicKey programId)
                          (getTokenAccountsByOwner c walletPublicKey programId)).

Definition queryProgramAccounts {W} (c : Connection W) (walletPublicKey : PublicKey)
  : M (RentCollector.t W) (list ParsedTokenAccount) :=
  RentCollector.retryWithBackoff_default c
    (RentCollector.remote (GetParsedProgramAccounts TOKEN_PROGRAM_ID 165 32 walletPublicKey)
                          (getParsedProgramAccounts c TOKEN_PROGRAM_ID 165 32 walletPublicKey)).

Definition queryParsedByOwner {W} (c : Connection W) (walletPublicKey programId : PublicKey)
  : M (RentCollector.t W) (list ParsedTokenAccount) :=
  RentCollector.retryWithBackoff_default c
    (RentCollector.remote (GetParsedTokenAccountsByOwner walletPublicKey programId)
                          (getParsedTokenAccountsByOwner c walletPublicKey programId)).

(** The records a strategy keeps of a parsed answer. *)
Definition kept {W} (c : Connection W) (walletPublicKey : PublicKey)
           (answer : list ParsedTokenAccount) : list TokenAccount :=
  concat (RentCollector.convertParsed c walletPublicKey <$> answer).

(** [allTokenAccounts] when the three strategies are through. *)
Definition pushed {W} (c : Connection W) (walletPublicKey : PublicKey)
  : M (RentCollector.t W) (list TokenAccount) :=
  all1 <- RentCollector.method1 c walletPublicKey [] ;;
  all2 <- RentCollector.method2 c walletPublicKey all1 ;;
  RentCollector.method3 c walletPublicKey all2.

(** The reading of the specification under which a strategy that runs into
    an error adds no record at all, stated for the first strategy. *)
Definition failed_strategy_contributes_nothing : Prop :=
  forall (W : Type) (c : Connection W) (walletPublicKey : PublicKey)
         (allTokenAccounts : list TokenAccount) (s : RentCollector.t W),
    let standard := queryByOwner c walletPublicKey TOKEN_PROGRAM_ID s in
    let extended := queryByOwner c walletPublicKey TOKEN_2022_PROGRAM_ID standard.2 in
    isOk standard.1 && isOk extended.1 = false ->
    (RentCollector.method1 c walletPublicKey allTokenAccounts s).1 = Ok allTokenAccounts.

(** The same reading with a strategy taken to be one query on one token
    program: what the owner-indexed lookup on the Token-2022 program
    answers is found, whatever happens to the other queries. *)
Definition failed_query_hides_nothing : Prop :=
  forall (W : Type) (c : Connection W) (walletPublicKey : PublicKey) (s : RentCollector.t W)
         (answer found : list TokenAccount) (tokenAccount : TokenAccount),
    (queryByOwner c walletPublicKey TOKEN_2022_PROGRAM_ID s).1 = Ok answer ->
    tokenAccount ∈ answer ->
    (RentCollector.getTokenAccounts c walletPublicKey s).1 = Ok found ->
    pubkey tokenAccount ∈ pubkey <$> found.

(** The answer of a parsed query for a token account of wallet A. *)
Definition parsedAccountOf (address : PublicKey) : ParsedTokenAccount :=
  {| p_pubkey := address;
     p_account := {| p_lamports := 2039280;
                     p_data := ParsedData {| program := "spl-token";
                                             parsed_info_owner := Some walletA;
                                             space := 165 |};
                     p_owner := TOKEN_PROGRAM_ID; p_executable := false;
                     p_rentEpoch := 0 |} |}.

(** Strategy 1 finds A and B, strategy 2 finds B and C, strategy 3 fails. *)
Definition threeStrategies : Script :=
  {| balances := fun _ => 0;
     byOwner := fun walletPublicKey programId =>
       if String.eqb walletPublicKey walletA && String.eqb programId TOKEN_PROGRAM_ID
       then Ok [tokenAccountOf "A" 2039280 noUnits; tokenAccountOf "B" 2039280 noUnits]
       else Ok [];
     programAccounts := fun _ bytes =>
       if String.eqb bytes walletA then Ok [parsedAccountOf "B"; parsedAccountOf "C"]
       else Ok [];
     parsedByOwner := fun _ _ => Throw (Error "failed to get token accounts owned by account");
     accountInfos := fun _ => None;
     submit := fun _ _ => Ok "signature" |}.

(** The queries on the Token program fail; those on the Token-2022 program
    would find X. *)
Definition tokenQueriesFail : Script :=
  {| balances := fun _ => 0;
     byOwner := fun walletPublicKey programId =>
       if String.eqb programId TOKEN_PROGRAM_ID
       then Throw (Error "fetch failed")
       else Ok [tokenAccountOf "X" 2039280 noUnits];
     programAccounts := fun _ _ => Ok [];
     parsedByOwner := fun walletPublicKey programId =>
       if String.eqb programId TOKEN_PROGRAM_ID
       then Throw (Error "fetch failed")
       else Ok [parsedAccountOf "X"];
     accountInfos := fun _ => None;
     submit := fun _ _ => Ok "signature" |}.

(** Strategy 1 finds A on the Token program and fails on the Token-2022
    program; the other strategies find nothing. *)
Definition secondQueryFails : Script :=
  {| balances := fun _ => 0;
     byOwner := fun walletPublicKey programId =>
       if String.eqb programId TOKEN_PROGRAM_ID
       then Ok [tokenAccountOf "A" 2039280 noUnits]
       else Throw (Error "fetch failed");
     programAccounts := fun _ _ => Ok [];
     parsedByOwner := fun _ _ => Ok [];
     accountInfos := fun _ => None;
     submit := fun _ _ => Ok "signature" |}.

(** ** Further vocabulary *)

(** A record as a load files it: the secret and its identity, and the
    discovery fields of lines 140-146. *)
Definition filed (key pub : string) : WalletInfo :=
  {| privateKey := key; publicKey := pub;
     balance := 0; rentExemptBalance := 0; rentAmount := 0; canClose := false |}.

(** A record of the store after a load that kept it. *)
Definition refiled (w : WalletInfo) : WalletInfo := filed (privateKey w) (publicKey w).


(** The progress events of a trace, in order. *)
Definition reports (tr : list Event) : list Progress :=
  omap (fun e => match e with Reported p => Some p | _ => None end) tr.




(** The wallets [transferSolBalances] takes up: more than the floor of
    lamports, and no rent found by the analysis. *)
Definition hasSolAndNoRent (w : WalletInfo) : bool :=
  (RentCollector.MIN_TRANSFER_LAMPORTS <? balance w) &&
  (negb (canClose w) || (rentAmount w =? 0)).

(** The wallets [closeAllTokenAccounts] takes up. *)
Definition hasRent (w : WalletInfo) : bool := canClose w && (0 <? rentAmount w).

(** A progress callback of the analysis, when there is one, never throws. *)
Definition quietAnalysis {W}
           (progressCallback : option (AnalysisProgress -> W -> Result unit * W)) : Prop :=
  match progressCallback with
  | None => True
  | Some callback => forall p w, (callback p w).1 = Ok tt
  end.

(** A record after the analysis, against the record before: the same
    secret and identity, and either nothing changed (the discovery
    failed) or what the discovery found was written. *)
Definition analysed (after before : WalletInfo) : Prop :=
  privateKey after = privateKey before /\ publicKey after = publicKey before /\
  (after = before \/
   (rentExemptBalance after = 0 /\ canClose after = (0 <? rentAmount after))).

(** ** Further fixtures *)

(** A host like [demoHost] whose key decoder turns down the secret made of
    the letter C. *)
Definition pickyHost : Host :=
  {| resolve := resolve demoHost;
     existsSync := existsSync demoHost;
     readFileSync := readFileSync demoHost;
     fromSecretKey := fun key =>
       if String.eqb key (demoKey "C") then Throw (Error "bad secret key size")
       else fromSecretKey demoHost key |}.

(** A host like [demoHost] with one more file, of two secrets that no
    other file holds. *)
Definition widerHost : Host :=
  {| resolve := resolve demoHost;
     existsSync := fun path => String.eqb path "c.txt" || existsSync demoHost path;
     readFileSync := fun path =>
       if String.eqb path "c.txt"
       then Ok (demoKey "C" +:+ newline +:+ demoKey "D" +:+ newline)
       else readFileSync demoHost path;
     fromSecretKey := fromSecretKey demoHost |}.

(** The store after [a.txt] was loaded and an analysis found 700000
    lamports and no rent in wallet A, 500000 lamports and no rent in
    wallet B. *)
Definition analysedStore : WalletManager.t :=
  WalletManager.updateWalletInfo 1 500000 0 0 false
    (WalletManager.updateWalletInfo 0 700000 0 0 false
       (loadWallets demoHost ["a.txt"] WalletManager.new)).

(** A progress callback that takes the event and does nothing. *)
Definition idleCallback (_ : Progress) (n : nat) : Result unit * nat := (Ok tt, n).


(** * Properties *)

(** ** The insertion-ordered map *)

Section MapFacts.
Context {V : Type}.
Implicit Types (k : string) (v : V) (m : Js.Map V).

Lemma map_has_elem k m : Js.map_has k m = true <-> k ∈ Js.map_keys m.
Proof.
  unfold Js.map_has, Js.map_keys.
  induction m as [|[k' v'] m IH]; simpl.
  - split; [discriminate | intros H; inversion H].
  - destruct (String.eqb_spec k' k) as [->|Hne].
    + split; [intros _; left | reflexivity].
    + rewrite IH. split; [right; assumption|].
      intros H. apply elem_of_cons in H as [H | H]; [congruence | assumption].
Qed.

Lemma map_has_not_elem k m : Js.map_has k m = false <-> k ∉ Js.map_keys m.
Proof.
  rewrite <- map_has_elem. destruct (Js.map_has k m); split; congruence.
Qed.

Lemma map_keys_set k v m :
  Js.map_keys (Js.map_set k v m) =
  if Js.map_has k m then Js.map_keys m else Js.map_keys m ++ [k].
Proof.
  unfold Js.map_has, Js.map_keys.
  induction m as [|[k' v'] m IH]; cbn [Js.map_set Js.map_get]; [reflexivity|].
  destruct (String.eqb_spec k' k) as [->|Hne]; [reflexivity|].
  rewrite fmap_cons, IH. destruct (Js.map_get k m); reflexivity.
Qed.

Lemma map_set_absent k v m : k ∉ Js.map_keys m -> Js.map_set k v m = m ++ [(k, v)].
Proof.
  unfold Js.map_keys.
  induction m as [|[k' v'] m IH]; cbn [Js.map_set]; intros Hk; [reflexivity|].
  rewrite fmap_cons in Hk. apply not_elem_of_cons in Hk as [Hne Hk].
  destruct (String.eqb_spec k' k) as [->|_]; [done|].
  rewrite IH by assumption. reflexivity.
Qed.

Lemma map_set_keys_NoDup k v m :
  NoDup (Js.map_keys m) -> NoDup (Js.map_keys (Js.map_set k v m)).
Proof.
  intros Hnd. rewrite map_keys_set.
  destruct (Js.map_has k m) eqn:Hhas; [assumption|].
  apply map_has_not_elem in Hhas.
  apply NoDup_app. split; [assumption|]. split.
  - intros x Hx Hin. apply list_elem_of_singleton in Hin. congruence.
  - apply NoDup_singleton.
Qed.

(** Every entry satisfies [P]. *)
Lemma map_set_Forall (P : string * V -> Prop) k v m :
  P (k, v) -> Forall P m -> Forall P (Js.map_set k v m).
Proof.
  intros Hkv Hm.
  induction Hm as [|[k' v'] m Hx Hm IH]; simpl.
  - repeat constructor. assumption.
  - destruct (String.eqb_spec k' k) as [->|_]; constructor; auto.
Qed.
(** A map filled by [set] from a list of items. *)
Section Filled.
Context {X : Type} (key : X -> string) (val : X -> V).

Lemma filled_NoDup (xs : list X) m :
  NoDup (Js.map_keys m) ->
  NoDup (Js.map_keys (foldl (fun m x => Js.map_set (key x) (val x) m) m xs)).
Proof.
  revert m. induction xs as [|x xs IH]; intros m Hm; simpl; [assumption|].
  apply IH, map_set_keys_NoDup, Hm.
Qed.

Lemma filled_Forall (P : string * V -> Prop) (xs : list X) m :
  Forall (fun x => P (key x, val x)) xs -> Forall P m ->
  Forall P (foldl (fun m x => Js.map_set (key x) (val x) m) m xs).
Proof.
  intros Hxs. revert m. induction Hxs as [|x xs Hx Hxs IH]; intros m Hm; simpl.
  - assumption.
  - apply IH, map_set_Forall; assumption.
Qed.

Lemma filled_keys (xs : list X) m k :
  k ∈ Js.map_keys (foldl (fun m x => Js.map_set (key x) (val x) m) m xs)
  <-> k ∈ Js.map_keys m \/ k ∈ key <$> xs.
Proof.
  revert m. induction xs as [|x xs IH]; intros m; cbn [foldl].
  - split; [left; assumption | intros [H | H]; [assumption | inversion H]].
  - rewrite IH, map_keys_set, fmap_cons.
    destruct (Js.map_has (key x) m) eqn:Hhas.
    + apply map_has_elem in Hhas. rewrite elem_of_cons.
      split; [intros [H | H]; auto | intros [H | [-> | H]]; auto].
    + rewrite elem_of_app, list_elem_of_singleton, elem_of_cons.
      split; [intros [[H | H] | H]; auto | intros [H | [H | H]]; auto].
Qed.
End Filled.
End MapFacts.

(** ** The wallet store *)

Section StoreFacts.
Variable h : Host.
Import WalletManager.

Lemma seedUnique_NoDup (ws : t) : NoDup (Js.map_keys (seedUnique ws)).
Proof.
  apply (filled_NoDup publicKey
           (fun w => {| kp_privateKey := privateKey w; kp_publicKey := publicKey w |})).
  constructor.
Qed.

Lemma seedUnique_entryOk (ws : t) : Forall entryOk (seedUnique ws).
Proof.
  apply (filled_Forall publicKey
           (fun w => {| kp_privateKey := privateKey w; kp_publicKey := publicKey w |}));
    [|constructor].
  apply Forall_forall. intros w _. reflexivity.
Qed.

Lemma seedUnique_entryDerived (ws : t) :
  storeDerived h ws -> Forall (entryDerived h) (seedUnique ws).
Proof.
  intros Hws.
  apply (filled_Forall publicKey
           (fun w => {| kp_privateKey := privateKey w; kp_publicKey := publicKey w |}));
    [exact Hws | constructor].
Qed.

Lemma seedUnique_keys (ws : t) x : x ∈ Js.map_keys (seedUnique ws) <-> x ∈ identities ws.
Proof.
  unfold seedUnique.
  rewrite (filled_keys publicKey
             (fun w => {| kp_privateKey := privateKey w; kp_publicKey := publicKey w |})).
  split; [|right; assumption].
  intros [H | H]; [inversion H | assumption].
Qed.

(** A store without repeated identities goes through [seedUnique] and back
    unchanged in identity and order. *)
Lemma fresh_identities (m : Js.Map KeyPairStrings) :
  Forall entryOk m -> identities (freshWallet <$> Js.map_values m) = Js.map_keys m.
Proof.
  unfold identities, Js.map_values, Js.map_keys.
  induction 1 as [|[k v] m Hkv Hm IH]; [reflexivity|].
  rewrite !fmap_cons, IH. unfold entryOk in Hkv. simpl in *. congruence.
Qed.

(** The loop fails exactly when a key does not decode, whatever the map. *)
Lemma dedupKeys_outcome keys m :
  match derived h keys with
  | Throw e => dedupKeys h keys m = Throw e
  | Ok _ => exists m', dedupKeys h keys m = Ok m'
  end.
Proof.
  revert m. induction keys as [|key keys IH]; intros m; simpl; [eauto|].
  destruct (fromSecretKey h key) as [pub|e]; [|reflexivity].
  destruct (Js.map_has pub m);
    [|destruct (existsb _ _)];
    match goal with |- context [dedupKeys h keys ?m0] => specialize (IH m0) end;
    destruct (derived h keys); assumption.
Qed.

Lemma dedupKeys_NoDup keys m m' :
  dedupKeys h keys m = Ok m' -> NoDup (Js.map_keys m) -> NoDup (Js.map_keys m').
Proof.
  revert m. induction keys as [|key keys IH]; intros m; simpl.
  - intros [= <-]. auto.
  - destruct (fromSecretKey h key) as [pub|e]; [|discriminate].
    destruct (Js.map_has pub m); [apply IH|].
    destruct (existsb _ _); [apply IH|].
    intros Hrun Hm. eapply IH; [exact Hrun|]. apply map_set_keys_NoDup, Hm.
Qed.

Lemma dedupKeys_entryOk keys m m' :
  dedupKeys h keys m = Ok m' -> Forall entryOk m -> Forall entryOk m'.
Proof.
  revert m. induction keys as [|key keys IH]; intros m; simpl.
  - intros [= <-]. auto.
  - destruct (fromSecretKey h key) as [pub|e]; [|discriminate].
    destruct (Js.map_has pub m); [apply IH|].
    destruct (existsb _ _); [apply IH|].
    intros Hrun Hm. eapply IH; [exact Hrun|]. apply map_set_Forall; [reflexivity | assumption].
Qed.

Lemma dedupKeys_entryDerived keys m m' :
  dedupKeys h keys m = Ok m' -> Forall (entryDerived h) m -> Forall (entryDerived h) m'.
Proof.
  revert m. induction keys as [|key keys IH]; intros m; simpl.
  - intros [= <-]. auto.
  - destruct (fromSecretKey h key) as [pub|e] eqn:Hkey; [|discriminate].
    destruct (Js.map_has pub m); [apply IH|].
    destruct (existsb _ _); [apply IH|].
    intros Hrun Hm. eapply IH; [exact Hrun|]. apply map_set_Forall; [exact Hkey | assumption].
Qed.

(** The entries already in the map stay where they are. *)
Lemma dedupKeys_prefix keys m m' :
  dedupKeys h keys m = Ok m' -> m `prefix_of` m'.
Proof.
  revert m. induction keys as [|key keys IH]; intros m; simpl.
  - intros [= <-]. reflexivity.
  - destruct (fromSecretKey h key) as [pub|e]; [|discriminate].
    destruct (Js.map_has pub m) eqn:Hhas; [apply IH|].
    destruct (existsb _ _); [apply IH|].
    intros Hrun. apply IH in Hrun.
    rewrite map_set_absent in Hrun by (apply map_has_not_elem, Hhas).
    etransitivity; [|exact Hrun]. apply prefix_app_r. reflexivity.
Qed.

(** On a map whose entries carry derived identities, the keys after the
    loop are the keys before it and the identities of the new secrets. *)
Lemma dedupKeys_keys keys m m' pubs :
  Forall (entryDerived h) m ->
  dedupKeys h keys m = Ok m' -> derived h keys = Ok pubs ->
  forall x, x ∈ Js.map_keys m' <-> x ∈ Js.map_keys m \/ x ∈ pubs.
Proof.
  revert m pubs. induction keys as [|key keys IH]; intros m pubs Hm; simpl.
  - intros [= <-] [= <-] x. split; [left; assumption|].
    intros [H | H]; [assumption | inversion H].
  - destruct (fromSecretKey h key) as [pub|e] eqn:Hkey; [|discriminate].
    destruct (derived h keys) as [pubs'|e] eqn:Hder; [|discriminate].
    intros Hrun [= <-] x. rewrite elem_of_cons.
    destruct (Js.map_has pub m) eqn:Hhas.
    { apply map_has_elem in Hhas. rewrite (IH m pubs' Hm Hrun eq_refl x).
      split; [intros [H | H]; auto | intros [H | [-> | H]]; auto]. }
    destruct (existsb _ _) eqn:Hpriv.
    { exfalso. apply existsb_exists in Hpriv as [v [Hv Heq]].
      apply String.eqb_eq in Heq. apply list_elem_of_In in Hv.
      unfold Js.map_values in Hv. apply list_elem_of_fmap in Hv as [[k v'] [-> Hkv]].
      rewrite Forall_forall in Hm. specialize (Hm _ Hkv). unfold entryDerived in Hm.
      simpl in *. rewrite Heq, Hkey in Hm. injection Hm as ->.
      apply map_has_not_elem in Hhas. apply Hhas.
      unfold Js.map_keys. apply list_elem_of_fmap. exists (k, v'). auto. }
    assert (Hm' : Forall (entryDerived h)
                    (Js.map_set pub {| kp_privateKey := key; kp_publicKey := pub |} m))
      by (apply map_set_Forall; [exact Hkey | assumption]).
    rewrite (IH _ pubs' Hm' Hrun eq_refl x), map_keys_set, Hhas.
    rewrite elem_of_app, list_elem_of_singleton.
    split; [intros [[H | H] | H]; auto | intros [H | [H | H]]; auto].
Qed.
End StoreFacts.

Example demo_load_both :
  identities (loadWallets demoHost ["a.txt"; "b.txt"] WalletManager.new)
  = [String.substring 0 44 (demoKey "A"); String.substring 0 44 (demoKey "B");
     String.substring 0 44 (demoKey "C")].
Proof. vm_compute. reflexivity. Qed.

Example demo_load_both_reversed :
  identities (loadWallets demoHost ["b.txt"; "a.txt"] WalletManager.new)
  = [String.substring 0 44 (demoKey "B"); String.substring 0 44 (demoKey "C");
     String.substring 0 44 (demoKey "A")].
Proof. vm_compute. reflexivity. Qed.

Example demo_load_empty_fails :
  WalletManager.loadWalletsFromFile demoHost "empty.txt" false demoStore
  = (Throw (Error "No valid private keys found in file"), demoStore).
Proof. vm_compute. reflexivity. Qed.

Section LoadFacts.
Variable h : Host.
Import WalletManager.

Lemma load_failure_keeps_store filePath wallets e :
  (loadWalletsFromFile h filePath false wallets).1 = Throw e ->
  (loadWalletsFromFile h filePath false wallets).2 = wallets.
Proof.
  unfold loadWalletsFromFile.
  destruct (readPrivateKeys h filePath) as [keys|e']; [|reflexivity].
  destruct (dedupKeys h keys (seedUnique wallets)); [discriminate | reflexivity].
Qed.

Lemma load_success filePath clearExisting wallets ws :
  (loadWalletsFromFile h filePath clearExisting wallets).1 = Ok ws ->
  exists keys m,
    readPrivateKeys h filePath = Ok keys /\
    dedupKeys h keys (seedUnique (if clearExisting then [] else wallets)) = Ok m /\
    ws = freshWallet <$> Js.map_values m /\
    (loadWalletsFromFile h filePath clearExisting wallets).2 = ws.
Proof.
  unfold loadWalletsFromFile.
  destruct (readPrivateKeys h filePath) as [keys|e']; [|discriminate].
  destruct (dedupKeys h keys _) as [m|e'] eqn:Hrun; [|discriminate].
  intros [= <-]. exists keys, m. auto.
Qed.

Lemma load_success_NoDup filePath clearExisting wallets ws :
  (loadWalletsFromFile h filePath clearExisting wallets).1 = Ok ws ->
  NoDup (identities ws).
Proof.
  intros Hload. apply load_success in Hload as (keys & m & _ & Hrun & -> & _).
  rewrite fresh_identities by (eapply dedupKeys_entryOk; [exact Hrun | apply seedUnique_entryOk]).
  eapply dedupKeys_NoDup; [exact Hrun | apply seedUnique_NoDup].
Qed.

Lemma load_NoDup filePath wallets :
  NoDup (identities wallets) ->
  NoDup (identities (loadWalletsFromFile h filePath false wallets).2).
Proof.
  intros Hnd.
  destruct (loadWalletsFromFile h filePath false wallets).1 as [ws|e] eqn:Hload.
  - pose proof (load_success_NoDup _ _ _ _ Hload) as Hws.
    apply load_success in Hload as (_ & _ & _ & _ & _ & ->). exact Hws.
  - rewrite (load_failure_keeps_store _ _ _ Hload). exact Hnd.
Qed.

Lemma loadWallets_NoDup filePaths wallets :
  NoDup (identities wallets) -> NoDup (identities (loadWallets h filePaths wallets)).
Proof.
  unfold loadWallets. revert wallets.
  induction filePaths as [|filePath filePaths IH]; intros wallets Hnd; simpl; [assumption|].
  apply IH, load_NoDup, Hnd.
Qed.

Lemma fresh_storeDerived (m : Js.Map KeyPairStrings) :
  Forall (entryDerived h) m -> Forall entryOk m ->
  storeDerived h (freshWallet <$> Js.map_values m).
Proof.
  unfold storeDerived, Js.map_values. intros Hd Hok.
  rewrite !Forall_fmap. apply Forall_forall. intros [k v] Hkv.
  rewrite Forall_forall in Hd, Hok. specialize (Hd _ Hkv). specialize (Hok _ Hkv).
  unfold entryDerived, entryOk in *. simpl in *. congruence.
Qed.

(** What a load does to a store whose records carry derived identities. *)
Lemma load_identities filePath wallets :
  storeDerived h wallets ->
  storeDerived h (loadWalletsFromFile h filePath false wallets).2 /\
  forall x, x ∈ identities (loadWalletsFromFile h filePath false wallets).2
            <-> x ∈ identities wallets \/ x ∈ identitiesOf h filePath.
Proof.
  intros Hst. unfold loadWalletsFromFile, identitiesOf.
  destruct (readPrivateKeys h filePath) as [keys|e]; simpl.
  2:{ split; [assumption|]. intros x. split; [auto|]. intros [H|H]; [assumption|inversion H]. }
  pose proof (dedupKeys_outcome h keys (seedUnique wallets)) as Hout.
  destruct (derived h keys) as [pubs|e] eqn:Hder.
  - destruct Hout as [m Hrun]. rewrite Hrun. simpl.
    assert (Hd : Forall (entryDerived h) m)
      by (eapply dedupKeys_entryDerived; [exact Hrun | apply seedUnique_entryDerived, Hst]).
    assert (Hok : Forall entryOk m)
      by (eapply dedupKeys_entryOk; [exact Hrun | apply seedUnique_entryOk]).
    split; [apply fresh_storeDerived; assumption|].
    intros x. rewrite fresh_identities by assumption.
    rewrite (dedupKeys_keys h keys _ m pubs (seedUnique_entryDerived h _ Hst) Hrun Hder x).
    rewrite seedUnique_keys. reflexivity.
  - rewrite Hout. simpl. split; [assumption|].
    intros x. split; [auto|]. intros [H|H]; [assumption|inversion H].
Qed.

Lemma loadWallets_identities filePaths wallets :
  storeDerived h wallets ->
  forall x, x ∈ identities (loadWallets h filePaths wallets)
            <-> x ∈ identities wallets \/
                exists filePath, filePath ∈ filePaths /\ x ∈ identitiesOf h filePath.
Proof.
  unfold loadWallets. revert wallets.
  induction filePaths as [|filePath filePaths IH]; intros wallets Hst x; simpl.
  - split; [auto|]. intros [H | (f & Hf & _)]; [assumption | inversion Hf].
  - destruct (load_identities filePath wallets Hst) as [Hst' Hmem].
    rewrite (IH _ Hst' x), Hmem. split.
    + intros [[H | H] | (f & Hf & H)]; auto.
      * right. exists filePath. split; [left | assumption].
      * right. exists f. split; [right; assumption | assumption].
    + intros [H | (f & Hf & H)]; auto.
      apply elem_of_cons in Hf as [-> | Hf]; [auto|]. right. eauto.
Qed.

Lemma loadWallets_storeDerived filePaths wallets :
  storeDerived h wallets -> storeDerived h (loadWallets h filePaths wallets).
Proof.
  unfold loadWallets. revert wallets.
  induction filePaths as [|filePath filePaths IH]; intros wallets Hst; simpl; [assumption|].
  apply IH. apply (load_identities filePath wallets Hst).
Qed.

Lemma load_outcome_independent filePath wallets1 wallets2 :
  isOk (loadWalletsFromFile h filePath false wallets1).1
  = isOk (loadWalletsFromFile h filePath false wallets2).1.
Proof.
  unfold loadWalletsFromFile.
  destruct (readPrivateKeys h filePath) as [keys|e]; [|reflexivity].
  pose proof (dedupKeys_outcome h keys (seedUnique wallets1)) as H1.
  pose proof (dedupKeys_outcome h keys (seedUnique wallets2)) as H2.
  destruct (derived h keys).
  - destruct H1 as [m1 ->], H2 as [m2 ->]. reflexivity.
  - rewrite H1, H2. reflexivity.
Qed.

Lemma dedupKeys_drop key pub rest (m : Js.Map KeyPairStrings) :
  fromSecretKey h key = Ok pub -> pub ∈ Js.map_keys m ->
  dedupKeys h (key :: rest) m = dedupKeys h rest m.
Proof.
  intros Hkey Hin. simpl. rewrite Hkey.
  apply map_has_elem in Hin. rewrite Hin. reflexivity.
Qed.
End LoadFacts.

(** C2. Whatever files are loaded one after the other into a new store, the
    store holds at most one record per identity, each the identity derived
    from the record's secret; a secret whose identity is already in the map
    of known wallets (seeded from the store, grown by the keys of the file
    read so far) is skipped, and whether a load fails does not depend on
    what the store holds; the identities in the final store are the same
    for every order of the files. *)
Theorem load_deduplicates_across_files (h : Host) :
  (forall filePaths,
      NoDup (identities (loadWallets h filePaths WalletManager.new)) /\
      storeDerived h (loadWallets h filePaths WalletManager.new)) /\
  (forall key pub rest m,
      fromSecretKey h key = Ok pub -> pub ∈ Js.map_keys m ->
      WalletManager.dedupKeys h (key :: rest) m = WalletManager.dedupKeys h rest m) /\
  (forall filePath wallets1 wallets2,
      isOk (WalletManager.loadWalletsFromFile h filePath false wallets1).1
      = isOk (WalletManager.loadWalletsFromFile h filePath false wallets2).1) /\
  (forall filePaths1 filePaths2,
      filePaths1 ≡ₚ filePaths2 ->
      identities (loadWallets h filePaths1 WalletManager.new)
      ≡ₚ identities (loadWallets h filePaths2 WalletManager.new)).
Proof.
  split; [|split; [|split]].
  - intros filePaths. split.
    + apply loadWallets_NoDup. constructor.
    + apply loadWallets_storeDerived. constructor.
  - apply dedupKeys_drop.
  - apply load_outcome_independent.
  - intros filePaths1 filePaths2 Hperm.
    apply NoDup_Permutation; try (apply loadWallets_NoDup; constructor).
    intros x. rewrite !loadWallets_identities by constructor.
    split; intros [H | (f & Hf & H)]; auto; right; exists f; split; auto.
    + rewrite <- Hperm. assumption.
    + rewrite Hperm. assumption.
Qed.

Lemma load_deduplicates_across_files_witness :
  identities (loadWallets demoHost ["a.txt"; "b.txt"] WalletManager.new)
  ≡ₚ identities (loadWallets demoHost ["b.txt"; "a.txt"] WalletManager.new).
Proof.
  apply (load_deduplicates_across_files demoHost).
  apply Permutation_swap.
Defined.

(** ** Indexing the store *)




Lemma updateWalletInfo_identities i b r a cc (wallets : WalletManager.t) :
  identities (WalletManager.updateWalletInfo i b r a cc wallets) = identities wallets.
Proof.
  unfold WalletManager.updateWalletInfo, identities.
  destruct (_ && _); [|reflexivity].
  destruct (wallets !! Z.to_nat i) as [w|] eqn:Hw; [|reflexivity].
  rewrite list_fmap_insert. simpl. apply list_insert_id.
  rewrite list_lookup_fmap, Hw. reflexivity.
Qed.

(** C10. Outside the bounds of the store [getWallet] answers null and
    [updateWalletInfo] leaves the store as it is. *)
Theorem out_of_bounds_index_is_harmless
        (wallets : WalletManager.t) (i b r a : Z) (cc : bool) :
  i < 0 \/ WalletManager.getWalletCount wallets <= i ->
  WalletManager.getWallet i wallets = None /\
  WalletManager.updateWalletInfo i b r a cc wallets = wallets.
Proof.
  unfold WalletManager.getWalletCount, WalletManager.getWallet,
    WalletManager.updateWalletInfo.
  intros Hout.
  assert (Hcond : (0 <=? i) && (i <? Z.of_nat (length wallets)) = false).
  { apply andb_false_iff. destruct Hout; [left | right]; lia. }
  rewrite Hcond. split; reflexivity.
Qed.

Lemma out_of_bounds_index_is_harmless_witness :
  WalletManager.getWallet 2 demoStore = None /\
  WalletManager.updateWalletInfo 2 9 9 9 true demoStore = demoStore.
Proof.
  apply (out_of_bounds_index_is_harmless demoStore 2 9 9 9 true).
  right. vm_compute. discriminate.
Defined.

(** ** Loading against the discovery fields *)

Example demoStore_discovered :
  (fun w => (balance w, rentAmount w, canClose w)) <$> demoStore !! 0%nat = Some (7, 3, true).
Proof. vm_compute. reflexivity. Qed.


Lemma fresh_undiscovered (m : Js.Map WalletManager.KeyPairStrings) :
  Forall undiscovered (WalletManager.freshWallet <$> Js.map_values m).
Proof.
  apply Forall_fmap, Forall_forall. intros v _. repeat split.
Qed.

Lemma seed_from_NoDup_store (ws : WalletManager.t) (m : Js.Map WalletManager.KeyPairStrings) :
  NoDup (Js.map_keys m ++ identities ws) ->
  foldl (fun m wallet =>
           Js.map_set (publicKey wallet)
             {| WalletManager.kp_privateKey := privateKey wallet;
                WalletManager.kp_publicKey := publicKey wallet |} m) m ws
  = m ++ ((fun w => (publicKey w, {| WalletManager.kp_privateKey := privateKey w;
                                     WalletManager.kp_publicKey := publicKey w |})) <$> ws).
Proof.
  revert m. induction ws as [|w ws IH]; intros m Hnd; cbn [foldl].
  - rewrite fmap_nil, app_nil_r. reflexivity.
  - unfold identities in Hnd. rewrite fmap_cons in Hnd.
    assert (Hw : publicKey w ∉ Js.map_keys m).
    { apply NoDup_app in Hnd as (_ & Hdisj & _). intros Hin.
      apply (Hdisj _ Hin). left. }
    rewrite map_set_absent by exact Hw. rewrite IH.
    + rewrite fmap_cons, <- app_assoc. reflexivity.
    + unfold Js.map_keys. rewrite fmap_app, <- app_assoc. exact Hnd.
Qed.




(** ** Reasoning about runs *)

Section Returns.
Context {S : Type}.

Lemma returns_ret {A} (a : A) : returns (ret (S:=S) a).
Proof. intros s. reflexivity. Qed.

Lemma returns_try_catch {A} (body : M S A) handler :
  (forall e, returns (handler e)) -> returns (try_catch body handler).
Proof.
  intros Hh s. unfold try_catch.
  destruct (body s) as [[a|e] s']; [reflexivity | apply Hh].
Qed.

Lemma returns_bind {A B} (m : M S A) (k : A -> M S B) :
  returns m -> (forall a, returns (k a)) -> returns (bind m k).
Proof.
  intros Hm Hk s. unfold bind. specialize (Hm s).
  destruct (m s) as [[a|e] s']; [apply Hk | discriminate].
Qed.

Lemma returns_attempt {A} (m : M S A) : returns (attempt m).
Proof. intros s. unfold attempt. destruct (m s). reflexivity. Qed.


Lemma returns_foldM {A B} (f : B -> A -> M S B) xs acc :
  (forall acc x, returns (f acc x)) -> returns (foldM f xs acc).
Proof.
  intros Hf. revert acc. induction xs as [|x xs IH]; intros acc; simpl.
  - apply returns_ret.
  - apply returns_bind; [apply Hf | intros acc'; apply IH].
Qed.

Lemma returns_value {A} (m : M S A) s :
  returns m -> exists a, (m s).1 = Ok a.
Proof. intros Hm. specialize (Hm s). destruct (m s).1; [eauto | discriminate]. Qed.
End Returns.

Section Respects.
Context {W : Type} (c : Connection W).
Import RentCollector.
Implicit Types (P : Event -> Prop).

Lemma respects_ret P {A} (a : A) : respects (W:=W) P (ret a).
Proof. intros s. simpl. repeat split. exists []. rewrite app_nil_r. auto. Qed.

Lemma respects_throw P {A} e : respects (W:=W) (A:=A) P (throw e).
Proof. intros s. simpl. repeat split. exists []. rewrite app_nil_r. auto. Qed.

Lemma respects_gets P {A} (f : t W -> A) : respects P (gets f).
Proof. intros s. simpl. repeat split. exists []. rewrite app_nil_r. auto. Qed.

Lemma respects_then P {A B} (m : M (t W) A) (next : Result A -> M (t W) B) :
  respects P m -> (forall r, respects P (next r)) ->
  respects P (fun s => next (m s).1 (m s).2).
Proof.
  intros Hm Hn s. simpl.
  destruct (Hm s) as (Hw & Hf & tr1 & Ht1 & HP1).
  destruct (Hn (m s).1 (m s).2) as (Hw' & Hf' & tr2 & Ht2 & HP2).
  split; [congruence|]. split; [congruence|].
  exists (tr1 ++ tr2). split; [rewrite Ht2, Ht1, app_assoc; reflexivity|].
  apply Forall_app; auto.
Qed.

Lemma respects_ext P {A} (m m' : M (t W) A) :
  (forall s, m s = m' s) -> respects P m' -> respects P m.
Proof. intros Heq Hm s. rewrite Heq. apply Hm. Qed.

Lemma respects_bind P {A B} (m : M (t W) A) (k : A -> M (t W) B) :
  respects P m -> (forall a, respects P (k a)) -> respects P (bind m k).
Proof.
  intros Hm Hk.
  apply (respects_ext P _
           (fun s => (fun r => match r with Ok a => k a | Throw e => throw e end)
                       (m s).1 (m s).2)).
  - intros s. unfold bind. destruct (m s) as [[a|e] s']; reflexivity.
  - apply (respects_then P m (fun r => match r with Ok a => k a | Throw e => throw e end));
      [assumption|]. intros [a|e]; [apply Hk | apply respects_throw].
Qed.

Lemma respects_try_catch P {A} (body : M (t W) A) handler :
  respects P body -> (forall e, respects P (handler e)) ->
  respects P (try_catch body handler).
Proof.
  intros Hm Hh.
  apply (respects_ext P _
           (fun s => (fun r => match r with Ok a => ret a | Throw e => handler e end)
                       (body s).1 (body s).2)).
  - intros s. unfold try_catch. destruct (body s) as [[a|e] s']; reflexivity.
  - apply (respects_then P body
             (fun r => match r with Ok a => ret a | Throw e => handler e end));
      [assumption|]. intros [a|e]; [apply respects_ret | apply Hh].
Qed.

Lemma respects_attempt P {A} (m : M (t W) A) : respects P m -> respects P (attempt m).
Proof.
  intros Hm.
  apply (respects_ext P _ (fun s => (fun r => ret r) (m s).1 (m s).2)).
  - intros s. unfold attempt. destruct (m s); reflexivity.
  - apply (respects_then P m (fun r => ret r)); [assumption|].
    intros r. apply respects_ret.
Qed.

Lemma respects_remote P {A} call (f : W -> Result A * W) :
  P (Called call) -> respects P (remote call f).
Proof.
  intros HP s. unfold remote. destruct (f (world s)) as [r w']. simpl.
  repeat split. exists [Called call]. auto.
Qed.

Lemma respects_sleep P ms : P (Slept ms) -> respects P (sleep c ms).
Proof. intros HP s. simpl. repeat split. exists [Slept ms]. auto. Qed.

Lemma respects_report P (callback : option (Progress -> W -> Result unit * W)) p :
  P (Reported p) -> respects P (report callback p).
Proof.
  intros HP. destruct callback as [f|]; simpl; [|apply respects_ret].
  intros s. destruct (f p (world s)) as [r w']. simpl.
  repeat split. exists [Reported p]. auto.
Qed.

Lemma respects_foldM P {A B} (f : B -> A -> M (t W) B) xs acc :
  (forall acc x, respects P (f acc x)) -> respects P (foldM f xs acc).
Proof.
  intros Hf. revert acc. induction xs as [|x xs IH]; intros acc; simpl.
  - apply respects_ret.
  - apply respects_bind; [apply Hf | intros acc'; apply IH].
Qed.

Lemma respects_retryLoop P {A} (fn : M (t W) A) maxRetries baseDelay n attempt :
  respects P fn -> (forall ms, P (Slept ms)) ->
  respects P (retryLoop c fn maxRetries baseDelay n attempt).
Proof.
  intros Hfn Hs. revert attempt. induction n as [|n IH]; intros attempt; simpl.
  - apply respects_throw.
  - apply respects_try_catch; [assumption|]. intros e.
    destruct (attempt =? maxRetries); [apply respects_throw|].
    destruct (isRateLimit e); [|apply respects_throw].
    apply respects_bind; [apply respects_sleep, Hs | intros _; apply IH].
Qed.

Lemma respects_retry P {A} (fn : M (t W) A) :
  respects P fn -> (forall ms, P (Slept ms)) ->
  respects P (retryWithBackoff_default c fn).
Proof. intros. apply respects_retryLoop; assumption. Qed.

Lemma respects_mono P Q {A} (m : M (t W) A) :
  (forall e, P e -> Q e) -> respects P m -> respects Q m.
Proof.
  intros HPQ Hm s. destruct (Hm s) as (Hw & Hf & tr & Ht & HP).
  repeat split; try assumption. exists tr. split; [assumption|].
  eapply Forall_impl; eauto.
Qed.
End Respects.

(** One step of a proof that a method [respects] a class of events. *)
Ltac respects_step :=
  lazymatch goal with
  | |- respects _ (bind _ _) => apply respects_bind; [|intros ?]
  | |- respects _ (ret _) => apply respects_ret
  | |- respects _ (throw _) => apply respects_throw
  | |- respects _ (gets _) => apply respects_gets
  | |- respects _ (try_catch _ _) => apply respects_try_catch; [|intros ?]
  | |- respects _ (attempt _) => apply respects_attempt
  | |- respects _ (RentCollector.remote _ _) => apply respects_remote
  | |- respects _ (RentCollector.sleep _ _) => apply respects_sleep
  | |- respects _ (RentCollector.report _ _) => apply respects_report
  | |- respects _ (RentCollector.retryWithBackoff_default _ _) => apply respects_retry
  | |- respects _ (foldM _ _ _) => apply respects_foldM; intros ? ?
  | |- respects _ (match ?x with _ => _ end) => destruct x
  | |- forall _, _ => intros ?
  | |- _ => exact I
  end.

(** ** The retry policy *)

Example isRateLimit_429 : RentCollector.isRateLimit (Error "429 Too Many Requests") = true.
Proof. reflexivity. Qed.

Example isRateLimit_status_text :
  RentCollector.isRateLimit (Error "Server responded with Too Many Requests") = true.
Proof. reflexivity. Qed.

Example isRateLimit_other :
  RentCollector.isRateLimit (Error "Transaction simulation failed") = false.
Proof. reflexivity. Qed.

Example isRateLimit_no_message : RentCollector.isRateLimit (Error "") = false.
Proof. reflexivity. Qed.

(** C7. A remote call that is rate limited twice and then answers is made
    three times, with a delay of [baseDelay] and then of twice [baseDelay]
    in between, and its answer is returned; a remote call that fails for
    another reason is made once, without any delay, and its error is
    thrown on. *)
Theorem retry_backs_off_on_rate_limit_only
        {W A : Type} (c : Connection W) (call : Call) (f g : W -> Result A * W)
        (maxRetries baseDelay : Z) (s : RentCollector.t W)
        (e1 e2 e : JsError) (v : A) (w1 w2 w3 w' : W) :
  2 <= maxRetries -> 0 < baseDelay ->
  f (RentCollector.world s) = (Throw e1, w1) -> RentCollector.isRateLimit e1 = true ->
  f (elapse c baseDelay w1) = (Throw e2, w2) -> RentCollector.isRateLimit e2 = true ->
  f (elapse c (2 * baseDelay) w2) = (Ok v, w3) ->
  g (RentCollector.world s) = (Throw e, w') -> RentCollector.isRateLimit e = false ->
  RentCollector.retryWithBackoff c (RentCollector.remote call f) maxRetries baseDelay s
  = (Ok v,
     {| RentCollector.world := w3;
        RentCollector.walletManager := RentCollector.walletManager s;
        RentCollector.feePayerKeypair := RentCollector.feePayerKeypair s;
        RentCollector.trace :=
          RentCollector.trace s ++
          [Called call; Slept baseDelay; Called call; Slept (2 * baseDelay); Called call] |}) /\
  baseDelay < 2 * baseDelay /\
  RentCollector.retryWithBackoff c (RentCollector.remote call g) maxRetries baseDelay s
  = (Throw e,
     {| RentCollector.world := w';
        RentCollector.walletManager := RentCollector.walletManager s;
        RentCollector.feePayerKeypair := RentCollector.feePayerKeypair s;
        RentCollector.trace := RentCollector.trace s ++ [Called call] |}).
Proof.
  intros Hmax Hbase Hf1 He1 Hf2 He2 Hf3 Hg He.
  unfold RentCollector.retryWithBackoff.
  destruct (Z.to_nat (maxRetries + 1)) as [|[|[|n]]] eqn:Hn; try lia.
  assert (H0 : (0 =? maxRetries) = false) by lia.
  assert (H1 : (0 + 1 =? maxRetries) = false) by lia.
  split; [|split; [lia|]].
  - assert (Hd0 : baseDelay * 2 ^ 0 = baseDelay) by lia.
    assert (Hd1 : baseDelay * 2 ^ (0 + 1) = 2 * baseDelay) by lia.
    cbn [RentCollector.retryLoop]. rewrite Hd0, Hd1.
    unfold try_catch, bind, RentCollector.sleep, RentCollector.remote.
    cbn [RentCollector.world RentCollector.trace RentCollector.walletManager
         RentCollector.feePayerKeypair].
    rewrite Hf1, H0, He1.
    cbn [RentCollector.world RentCollector.trace RentCollector.walletManager
         RentCollector.feePayerKeypair].
    rewrite Hf2, H1, He2.
    cbn [RentCollector.world RentCollector.trace RentCollector.walletManager
         RentCollector.feePayerKeypair].
    rewrite Hf3. rewrite <- !app_assoc. reflexivity.
  - cbn [RentCollector.retryLoop]. unfold try_catch.
    unfold RentCollector.remote at 1. rewrite Hg, H0, He. reflexivity.
Qed.

Lemma retry_backs_off_on_rate_limit_only_witness :
  (RentCollector.retryWithBackoff_default (scripted rateLimitedTwice)
     (RentCollector.remote (SendAndConfirmTransaction demoTransfer [feePayerDemo])
        (sendAndConfirmTransaction (scripted rateLimitedTwice) demoTransfer [feePayerDemo]))
     (collectorDemo [])).1 = Ok "signature" /\
  (RentCollector.retryWithBackoff_default (scripted rateLimitedTwice)
     (RentCollector.remote (SendAndConfirmTransaction demoTransfer [feePayerDemo])
        (sendAndConfirmTransaction (scripted rejecting) demoTransfer [feePayerDemo]))
     (collectorDemo [])).1 = Throw (Error "Transaction simulation failed").
Proof.
  destruct (retry_backs_off_on_rate_limit_only (scripted rateLimitedTwice)
              (SendAndConfirmTransaction demoTransfer [feePayerDemo])
              (sendAndConfirmTransaction (scripted rateLimitedTwice) demoTransfer [feePayerDemo])
              (sendAndConfirmTransaction (scripted rejecting) demoTransfer [feePayerDemo])
              3 1000 (collectorDemo [])
              (Error "429 Too Many Requests") (Error "429 Too Many Requests")
              (Error "Transaction simulation failed") "signature" 1%nat 2%nat 3%nat 1%nat)
    as (Hok & _ & Hfail);
    try reflexivity; try lia.
  unfold RentCollector.retryWithBackoff_default. rewrite Hok, Hfail. split; reflexivity.
Defined.

Example retry_delays_example :
  delays (RentCollector.trace
            (RentCollector.retryWithBackoff_default (scripted rateLimitedTwice)
               (RentCollector.remote (SendAndConfirmTransaction demoTransfer [feePayerDemo])
                  (sendAndConfirmTransaction (scripted rateLimitedTwice) demoTransfer
                     [feePayerDemo]))
               (collectorDemo [])).2)
  = [1000; 2000].
Proof. vm_compute. reflexivity. Qed.

(** ** What each method does to the outside *)

Lemma noSubmission_inPhase k e : noSubmission e -> inPhase k e.
Proof. destruct e as [[]| |]; simpl; tauto. Qed.

Lemma txKind_closeInstructions tokenAccountPubkey ownerKeypair destinationPubkey accountInfo
      payer blockhash :
  txKind {| instructions :=
              RentCollector.closeInstructions tokenAccountPubkey ownerKeypair
                destinationPubkey accountInfo;
            feePayer := payer; recentBlockhash := blockhash |} = CloseTx.
Proof.
  unfold txKind, RentCollector.closeInstructions. simpl.
  destruct accountInfo as [info|]; [|reflexivity].
  destruct (0 <? _); reflexivity.
Qed.

(** In a close transaction the burn, when there is one, is of the account
    being closed and comes before the close. *)
Lemma closeInstructions_shape tokenAccountPubkey ownerKeypair destinationPubkey accountInfo :
  exists programId,
    RentCollector.closeInstructions tokenAccountPubkey ownerKeypair destinationPubkey accountInfo
    = [CloseAccount tokenAccountPubkey destinationPubkey (kp_publicKey ownerKeypair) programId]
    \/ exists mint amount,
        0 < amount /\
        RentCollector.closeInstructions tokenAccountPubkey ownerKeypair destinationPubkey
          accountInfo
        = [Burn tokenAccountPubkey mint (kp_publicKey ownerKeypair) amount programId;
           CloseAccount tokenAccountPubkey destinationPubkey (kp_publicKey ownerKeypair)
                        programId].
Proof.
  unfold RentCollector.closeInstructions.
  destruct accountInfo as [info|]; [|eexists; left; reflexivity].
  destruct (0 <? _) eqn:Hpos; eexists; [right | left; reflexivity].
  do 2 eexists. split; [|reflexivity]. lia.
Qed.

Section MethodFacts.
Context {W : Type} (h : Host) (c : Connection W).
Import RentCollector.

Lemma respects_keypairFromSecretKey P key : respects (W:=W) P (keypairFromSecretKey h key).
Proof.
  unfold keypairFromSecretKey. destruct (fromSecretKey h key); repeat respects_step.
Qed.

Lemma respects_feePayerPublicKey P : respects (W:=W) P feePayerPublicKey.
Proof. unfold feePayerPublicKey. repeat respects_step. Qed.

Lemma respects_calculateRentExemptBalance accountInfo :
  respects noSubmission (calculateRentExemptBalance c accountInfo).
Proof. unfold calculateRentExemptBalance. repeat respects_step. Qed.

Lemma respects_getTokenAccounts walletPublicKey :
  respects noSubmission (getTokenAccounts c walletPublicKey).
Proof.
  unfold getTokenAccounts, method1, method2, method3. repeat respects_step.
Qed.

Lemma returns_getTokenAccounts walletPublicKey : returns (getTokenAccounts c walletPublicKey).
Proof. apply returns_try_catch. intros e. apply returns_ret. Qed.

Lemma respects_closeTokenAccount tokenAccountPubkey ownerKeypair destinationPubkey :
  respects (inPhase CloseTx)
           (closeTokenAccount c tokenAccountPubkey ownerKeypair destinationPubkey).
Proof.
  unfold closeTokenAccount. repeat respects_step.
  simpl. apply txKind_closeInstructions.
Qed.

Lemma returns_closeTokenAccount tokenAccountPubkey ownerKeypair destinationPubkey :
  returns (closeTokenAccount c tokenAccountPubkey ownerKeypair destinationPubkey).
Proof. apply returns_try_catch. intros e. apply returns_ret. Qed.

Lemma respects_transferSolToFeePayer fromKeypair amount :
  respects (inPhase TransferTx) (transferSolToFeePayer c fromKeypair amount).
Proof. unfold transferSolToFeePayer. repeat respects_step. reflexivity. Qed.


Lemma respects_burnStep walletKeypair feePayer acc tokenAccount :
  respects (inPhase BurnTx) (burnStep c walletKeypair feePayer acc tokenAccount).
Proof. unfold burnStep. repeat respects_step. reflexivity. Qed.

Lemma respects_burnAllTokens walletKeypair :
  respects (inPhase BurnTx) (burnAllTokens c walletKeypair).
Proof.
  unfold burnAllTokens. repeat respects_step.
  - apply (respects_mono noSubmission); [apply noSubmission_inPhase|].
    apply respects_getTokenAccounts.
  - apply respects_burnStep.
Qed.


Lemma respects_closeStep keypair acc tokenAccount :
  respects (inPhase CloseTx) (closeStep c keypair acc tokenAccount).
Proof.
  unfold closeStep. repeat respects_step.
  - apply (respects_mono noSubmission); [apply noSubmission_inPhase|].
    apply respects_calculateRentExemptBalance.
  - apply respects_feePayerPublicKey.
  - apply respects_closeTokenAccount.
Qed.

Lemma respects_closePhase keypair : respects (inPhase CloseTx) (closePhase c keypair).
Proof.
  unfold closePhase. repeat respects_step.
  - apply (respects_mono noSubmission); [apply noSubmission_inPhase|].
    apply respects_getTokenAccounts.
  - apply respects_closeStep.
Qed.

Lemma respects_sweepPhase keypair : respects (inPhase TransferTx) (sweepPhase c keypair).
Proof.
  unfold sweepPhase. repeat respects_step.
  apply respects_transferSolToFeePayer.
Qed.
End MethodFacts.

(** ** The order of the phases of the per-wallet pipeline *)

Lemma submissions_app tr1 tr2 : submissions (tr1 ++ tr2) = submissions tr1 ++ submissions tr2.
Proof. unfold submissions, submitted. rewrite omap_app, fmap_app. reflexivity. Qed.

Lemma inPhase_submissions k tr :
  Forall (inPhase k) tr -> submissions tr = replicate (length (submitted tr)) k.
Proof.
  unfold submissions, submitted.
  induction 1 as [|e tr He Htr IH]; [reflexivity|].
  destruct e as [[]| |]; simpl in *; try exact IH.
  rewrite He. f_equal. exact IH.
Qed.

(** ** The batch *)

Section BatchFacts.
Context {W : Type} (h : Host) (c : Connection W).
Variable progressCallback : option (Progress -> W -> Result unit * W).
Variable walletCount : Z.
Import RentCollector.

Lemma respects_processWalletCompletely walletIndex :
  respects (fun _ => True) (processWalletCompletely h c walletIndex).
Proof.
  unfold processWalletCompletely. repeat respects_step.
  - apply respects_keypairFromSecretKey.
  - eapply respects_mono; [|apply respects_closePhase]. auto.
  - eapply respects_mono; [|apply respects_burnAllTokens]. auto.
  - eapply respects_mono; [|apply respects_sweepPhase]. auto.
Qed.

Lemma respects_processAllStep acc i wallet :
  respects (fun _ => True) (processAllStep h c progressCallback walletCount acc i wallet).
Proof.
  unfold processAllStep, onWalletError. repeat respects_step.
  apply respects_processWalletCompletely.
Qed.

Lemma respects_processAllLoop i wallets acc :
  respects (fun _ => True) (processAllLoop h c progressCallback walletCount i wallets acc).
Proof.
  revert i acc. induction wallets as [|wallet wallets IH]; intros i acc; simpl.
  - apply respects_ret.
  - apply respects_bind; [apply respects_processAllStep | intros acc'; apply IH].
Qed.

Hypothesis Hquiet : quiet progressCallback.

Lemma report_quiet p s : (report progressCallback p s).1 = Ok tt.
Proof.
  unfold report. destruct progressCallback as [callback|]; [|reflexivity].
  specialize (Hquiet p (world s)). destruct (callback p (world s)) as [r w'].
  simpl in *. exact Hquiet.
Qed.

(** One iteration: the wallet is counted as a success when
    [processWalletCompletely] returns and as a failure when it throws. *)
Lemma processAllStep_outcome acc i wallet s :
  (processAllStep h c progressCallback walletCount acc i wallet s).1
  = Ok match (processWalletCompletely h c i
                (report progressCallback
                        {| current := i + 1; total := walletCount;
                           wallet := publicKey wallet; status := ProcessingWallet |} s).2).1
       with
       | Ok walletResult => countSuccess acc walletResult
       | Throw _ => countFailure acc
       end.
Proof.
  unfold processAllStep, onWalletError, bind, attempt.
  pose proof (report_quiet {| current := i + 1; total := walletCount;
                              wallet := publicKey wallet; status := ProcessingWallet |} s)
    as Hr.
  destruct (report progressCallback _ s) as [r s1]. simpl in Hr. subst r. simpl.
  destruct (processWalletCompletely h c i s1) as [[walletResult|e] s2]; simpl.
  - pose proof (report_quiet {| current := i + 1; total := walletCount;
                                wallet := publicKey wallet;
                                status :=
                                  Collected (solText (totalRecovered walletResult)) |} s2)
      as Hr.
    destruct (report progressCallback _ s2) as [r s3]. simpl in Hr. subst r.
    destruct (i <? walletCount - 1); reflexivity.
  - pose proof (report_quiet {| current := i + 1; total := walletCount;
                                wallet := publicKey wallet; status := FailedToProcess |} s2)
      as Hr.
    destruct (report progressCallback _ s2) as [r s3]. simpl in Hr. subst r. reflexivity.
Qed.

Lemma processAllStep_counts acc i wallet s :
  exists acc',
    (processAllStep h c progressCallback walletCount acc i wallet s).1 = Ok acc' /\
    successfulWallets acc' + failedWallets acc' = successfulWallets acc + failedWallets acc + 1 /\
    successfulWallets acc <= successfulWallets acc' /\
    failedWallets acc <= failedWallets acc'.
Proof.
  eexists. split; [apply processAllStep_outcome|].
  destruct (processWalletCompletely h c i _).1; simpl; lia.
Qed.

Lemma processAllLoop_counts wallets i acc s :
  exists acc',
    (processAllLoop h c progressCallback walletCount i wallets acc s).1 = Ok acc' /\
    successfulWallets acc' + failedWallets acc'
    = successfulWallets acc + failedWallets acc + Z.of_nat (length wallets) /\
    successfulWallets acc <= successfulWallets acc' /\
    failedWallets acc <= failedWallets acc'.
Proof.
  revert i acc s. induction wallets as [|wallet wallets IH]; intros i acc s.
  - exists acc. simpl. repeat split; lia.
  - destruct (processAllStep_counts acc i wallet s) as (acc1 & Hstep & Hsum & Hs & Hf).
    cbn [processAllLoop]. unfold bind.
    destruct (processAllStep h c progressCallback walletCount acc i wallet s) as [r s1].
    simpl in Hstep. subst r.
    destruct (IH (i + 1) acc1 s1) as (acc' & Hloop & Hsum' & Hs' & Hf').
    exists acc'. split; [exact Hloop|].
    rewrite length_cons, Nat2Z.inj_succ. repeat split; lia.
Qed.
End BatchFacts.

(** A progress callback that throws takes the batch with it: the event
    that announces the failure of a wallet is sent from the [catch] block,
    and what the callback throws there leaves [processAllWallets]. *)
Lemma throwing_callback_counterexample : ~ every_wallet_counted_once.
Proof.
  intros Hclaim.
  destruct (Hclaim nat demoHost (scripted emptyScript) (Some brokenCallback)
              (collectorDemo (loadWallets demoHost ["a.txt"] WalletManager.new))
              feePayerDemo eq_refl) as (summary & s' & Hrun & _).
  vm_compute in Hrun. discriminate Hrun.
Qed.

(** C1, amended. With a fee payer set, and with no progress callback or
    one that does not throw, [processAllWallets] returns a summary,
    whatever the ledger answers and whichever wallets fail: every wallet
    of the store is counted once, as a success or as a failure, and the
    store is left as it was. *)
Theorem processAllWallets_counts_every_wallet
        {W : Type} (h : Host) (c : Connection W)
        (progressCallback : option (Progress -> W -> Result unit * W))
        (s : RentCollector.t W) (feePayer' : Keypair) :
  RentCollector.feePayerKeypair s = Some feePayer' ->
  quiet progressCallback ->
  exists summary s',
    RentCollector.processAllWallets h c progressCallback s = (Ok summary, s') /\
    successfulCollections summary + failedCollections summary = totalWallets summary /\
    totalWallets summary = WalletManager.getWalletCount (RentCollector.walletManager s) /\
    0 <= successfulCollections summary /\ 0 <= failedCollections summary /\
    RentCollector.walletManager s' = RentCollector.walletManager s.
Proof.
  intros Hfp Hquiet.
  unfold RentCollector.processAllWallets, bind, gets. simpl. rewrite Hfp.
  unfold WalletManager.getWallets, WalletManager.getWalletCount.
  set (wallets := RentCollector.walletManager s).
  set (zero := {| RentCollector.totalTokenAccountsClosed := 0 |}).
  destruct (processAllLoop_counts h c progressCallback (Z.of_nat (length wallets)) Hquiet
              wallets 0 zero s) as (acc & Hloop & Hsum & Hs & Hf).
  destruct (respects_processAllLoop h c progressCallback (Z.of_nat (length wallets))
              0 wallets zero s) as (Hstore & _).
  destruct (RentCollector.processAllLoop h c progressCallback _ 0 wallets zero s) as [r s1].
  simpl in Hloop, Hstore. subst r.
  eexists _, s1. split; [reflexivity|]. simpl in *. repeat split; try lia. exact Hstore.
Qed.

Lemma processAllWallets_counts_every_wallet_witness :
  exists summary s',
    RentCollector.processAllWallets demoHost (scripted sweepFailsForB) None
      (collectorDemo (loadWallets demoHost ["a.txt"] WalletManager.new)) = (Ok summary, s') /\
    successfulCollections summary + failedCollections summary = 2.
Proof.
  destruct (processAllWallets_counts_every_wallet demoHost (scripted sweepFailsForB) None
              (collectorDemo (loadWallets demoHost ["a.txt"] WalletManager.new))
              feePayerDemo eq_refl I)
    as (summary & s' & Hrun & Hsum & Htotal & _).
  exists summary, s'. split; [exact Hrun|]. rewrite Hsum, Htotal. reflexivity.
Defined.

(** A callback that throws is another matter: thrown when it is told of a
    success, the wallet has been counted as a success and is counted as a
    failure as well. *)
Example touchy_callback_counts_twice :
  (RentCollector.processAllWallets demoHost (scripted emptyScript) (Some touchyCallback)
     (collectorDemo (loadWallets demoHost ["a.txt"] WalletManager.new))).1
  = Ok {| totalWallets := 2; successfulCollections := 2; totalRentCollected := 0;
          failedCollections := 2; results := [] |}.
Proof. vm_compute. reflexivity. Qed.

(** ** A sweep that fails *)

Section SweepFacts.
Context {W : Type} (h : Host) (c : Connection W).
Import RentCollector.


(** A remote call that answers is made once. *)
Lemma retry_first_answer {A} call (f : W -> Result A * W) maxRetries baseDelay s v w' :
  0 <= maxRetries ->
  f (world s) = (Ok v, w') ->
  retryWithBackoff c (remote call f) maxRetries baseDelay s
  = (Ok v, {| world := w'; walletManager := walletManager s;
              feePayerKeypair := feePayerKeypair s;
              trace := trace s ++ [Called call] |}).
Proof.
  intros Hmax Hf. unfold retryWithBackoff.
  destruct (Z.to_nat (maxRetries + 1)) as [|n] eqn:Hn; [lia|].
  cbn [retryLoop]. unfold try_catch, remote. rewrite Hf. reflexivity.
Qed.


(** The state a method leaves has the fee payer it found. *)
Lemma respects_feePayer P {A} (m : M (t W) A) s :
  respects P m -> feePayerKeypair (m s).2 = feePayerKeypair s.
Proof. intros Hm. apply (Hm s). Qed.

Lemma respects_retry_getBalance pk :
  respects noSubmission (retryWithBackoff_default c (remote (GetBalance pk) (getBalance c pk))).
Proof. repeat respects_step. Qed.
End SweepFacts.

Example sweep_of_B_is_rejected :
  submit sweepFailsForB sweepOfB 1%nat
  = Throw (Error "Transaction simulation failed: Attempt to debit an account").
Proof. reflexivity. Qed.




(** ** Eligibility *)

Lemma eligibleRent_app tokenAccounts1 tokenAccounts2 :
  eligibleRent (tokenAccounts1 ++ tokenAccounts2)
  = eligibleRent tokenAccounts1 + eligibleRent tokenAccounts2.
Proof.
  unfold eligibleRent. induction tokenAccounts1 as [|ta tas IH]; simpl; [reflexivity|].
  rewrite IH. destruct (0 <? lamports (account ta)); lia.
Qed.

Lemma eligibleRent_cons tokenAccount tokenAccounts :
  eligibleRent (tokenAccount :: tokenAccounts)
  = (if 0 <? lamports (account tokenAccount) then lamports (account tokenAccount) else 0)
    + eligibleRent tokenAccounts.
Proof. unfold eligibleRent. simpl. destruct (0 <? _); lia. Qed.

Lemma submitted_elem transaction tr :
  transaction ∈ submitted tr
  <-> exists signers, Called (SendAndConfirmTransaction transaction signers) ∈ tr.
Proof.
  unfold submitted. rewrite list_elem_of_omap. split.
  - intros (e & He & Hsome). destruct e as [[]| |]; try discriminate.
    injection Hsome as ->. eauto.
  - intros (signers & He). eexists. split; [exact He | reflexivity].
Qed.

Section EligibilityFacts.
Context {W : Type} (h : Host) (c : Connection W).
Import RentCollector.

Lemma canCloseAccount_iff b r : canCloseAccount b r = true <-> 0 < b.
Proof. unfold canCloseAccount. lia. Qed.

Lemma scanStep_run acc tokenAccount s :
  match (scanStep c acc tokenAccount s).1 with
  | Ok acc' =>
      acc'.1 = acc.1 + (if 0 <? lamports (account tokenAccount)
                        then lamports (account tokenAccount) else 0)
  | Throw _ => True
  end.
Proof.
  unfold scanStep, truthyBuffer, canCloseAccount, calculateRentAmount, bind.
  destruct (calculateRentExemptBalance c (account tokenAccount) s) as [[r|e] s']; simpl;
    [|exact I].
  destruct (0 <? lamports (account tokenAccount)); simpl; lia.
Qed.

Lemma scan_run tokenAccounts acc s :
  match (foldM (scanStep c) tokenAccounts acc s).1 with
  | Ok acc' => acc'.1 = acc.1 + eligibleRent tokenAccounts
  | Throw _ => True
  end.
Proof.
  revert acc s. induction tokenAccounts as [|ta tas IH]; intros acc s.
  - simpl. unfold eligibleRent. simpl. lia.
  - cbn [foldM]. unfold bind. rewrite eligibleRent_cons.
    pose proof (scanStep_run acc ta s) as Hstep.
    destruct (scanStep c acc ta s) as [[acc1|e] s1]; cbn [fst snd] in *; [|exact I].
    specialize (IH acc1 s1). destruct (foldM (scanStep c) tas acc1 s1).1; [|exact I].
    lia.
Qed.

Lemma scan_returns tokenAccounts acc :
  (forall n w, isOk (getMinimumBalanceForRentExemption c n w).1 = true) ->
  returns (foldM (scanStep c) tokenAccounts acc).
Proof.
  intros Hrpc. apply returns_foldM. intros acc' ta s.
  unfold scanStep, truthyBuffer, bind, calculateRentExemptBalance, remote.
  specialize (Hrpc (Z.of_nat (length (data (account ta)))) (world s)).
  destruct (getMinimumBalanceForRentExemption c _ (world s)) as [[r|e] w1];
    [|discriminate Hrpc].
  destruct (canCloseAccount _ _); reflexivity.
Qed.

(** The discovery of a wallet that goes through: the record and the store
    get the refreshed balance and the rent of the token accounts found. *)
Lemma processSingleWallet_writes_rent wallet walletIndex s pub walletBalance s1
      tokenAccounts s2 totals s3 :
  fromSecretKey h (privateKey wallet) = Ok pub ->
  retryWithBackoff_default c (remote (GetBalance pub) (getBalance c pub)) (sleep c 250 s).2
  = (Ok walletBalance, s1) ->
  getTokenAccounts c pub s1 = (Ok tokenAccounts, s2) ->
  foldM (scanStep c) tokenAccounts (0, 0) s2 = (Ok totals, s3) ->
  processSingleWallet h c wallet walletIndex s
  = (Ok {| privateKey := privateKey wallet; publicKey := publicKey wallet;
           balance := walletBalance; rentExemptBalance := 0;
           rentAmount := eligibleRent tokenAccounts;
           canClose := 0 <? eligibleRent tokenAccounts |},
     {| world := world s3;
        walletManager :=
          WalletManager.updateWalletInfo walletIndex walletBalance 0
            (eligibleRent tokenAccounts) (0 <? eligibleRent tokenAccounts) (walletManager s3);
        feePayerKeypair := feePayerKeypair s3; trace := trace s3 |}).
Proof.
  intros Hkey Hbal Htas Hscan.
  pose proof (scan_run tokenAccounts (0, 0) s2) as Hsum. rewrite Hscan in Hsum.
  cbn [fst snd] in Hsum. rewrite Z.add_0_l in Hsum.
  unfold processSingleWallet, keypairFromSecretKey. rewrite Hkey.
  unfold bind at 1. cbn [ret]. unfold bind at 1.
  destruct (sleep c 250 s) as [r s0] eqn:Hsleep.
  assert (r = Ok tt) as -> by (unfold sleep in Hsleep; congruence).
  cbn [fst snd kp_publicKey] in *.
  unfold try_catch, bind, updateWalletInfo. rewrite Hbal, Htas, Hscan, Hsum. reflexivity.
Qed.

(** An account without lamports: the rent-exemption query, and nothing
    else. *)
Lemma closeStep_skips keypair acc tokenAccount s :
  lamports (account tokenAccount) <= 0 ->
  trace (closeStep c keypair acc tokenAccount s).2
  = trace s ++ [Called (GetMinimumBalanceForRentExemption
                          (Z.of_nat (length (data (account tokenAccount)))))] /\
  forall acc', (closeStep c keypair acc tokenAccount s).1 = Ok acc' -> acc' = acc.
Proof.
  intros Hzero.
  unfold closeStep, truthyBuffer, canCloseAccount, bind, calculateRentExemptBalance, remote.
  replace (0 <? lamports (account tokenAccount)) with false by lia.
  destruct (getMinimumBalanceForRentExemption c _ (world s)) as [[r|e] w1]; simpl.
  - split; [reflexivity | congruence].
  - split; [reflexivity | discriminate].
Qed.

Lemma closeTokenAccount_looks_up tokenAccountPubkey ownerKeypair destinationPubkey s
      feePayer' :
  feePayerKeypair s = Some feePayer' ->
  Called (GetAccountInfo tokenAccountPubkey)
    ∈ trace (closeTokenAccount c tokenAccountPubkey ownerKeypair destinationPubkey s).2.
Proof.
  intros Hfp.
  unfold closeTokenAccount, try_catch, bind at 1, gets. cbn. rewrite Hfp.
  unfold bind at 1. unfold remote at 1.
  destruct (getAccountInfo c tokenAccountPubkey (world s)) as [[info|e] w2]; cbn.
  2:{ apply elem_of_app. right. left. }
  match goal with
  | |- _ ∈ trace (match ?m ?s2 with _ => _ end).2 =>
      assert (Hrest : respects (fun _ => True) m) by (repeat respects_step);
      destruct (Hrest s2) as (_ & _ & tr & Htr & _);
      destruct (m s2) as [[a|e] s3]; cbn in *; rewrite Htr
  end; apply elem_of_app; left; apply elem_of_app; right; left.
Qed.

(** An account with lamports, whatever the rent-exemption threshold the
    ledger answers: [closeTokenAccount] is entered. *)
Lemma closeStep_attempts keypair acc tokenAccount s feePayer' r w1 :
  0 < lamports (account tokenAccount) ->
  feePayerKeypair s = Some feePayer' ->
  getMinimumBalanceForRentExemption c (Z.of_nat (length (data (account tokenAccount))))
    (world s) = (Ok r, w1) ->
  Called (GetAccountInfo (pubkey tokenAccount))
    ∈ trace (closeStep c keypair acc tokenAccount s).2.
Proof.
  intros Hpos Hfp Hrent.
  unfold closeStep, truthyBuffer, canCloseAccount, calculateRentExemptBalance.
  replace (0 <? lamports (account tokenAccount)) with true by lia.
  unfold bind at 1. unfold remote at 1. rewrite Hrent.
  unfold feePayerPublicKey, bind at 1 2, gets. cbn. rewrite Hfp. cbn.
  unfold bind at 1.
  match goal with
  | |- _ ∈ trace (match closeTokenAccount c ?pk ?kp ?dest ?s1 with _ => _ end).2 =>
      pose proof (closeTokenAccount_looks_up pk kp dest s1 feePayer' eq_refl) as Hin;
      destruct (closeTokenAccount c pk kp dest s1) as [[closeResult|e] s2]; cbn in *
  end.
  - apply elem_of_app. left. exact Hin.
  - exact Hin.
Qed.
End EligibilityFacts.

(** C4. Whether a token account is closed, and what it adds to the rent of
    its wallet, depends on its lamports alone: with none it adds nothing
    and nothing is done about it beyond the rent-exemption query; with some
    it adds all of them and [closeTokenAccount] is entered, whatever the
    rent-exemption threshold. *)
Theorem eligibility_is_positive_balance {W : Type} (h : Host) (c : Connection W) :
  (forall b r, RentCollector.canCloseAccount b r = true <-> 0 < b) /\
  (forall b r r',
      RentCollector.canCloseAccount b r = RentCollector.canCloseAccount b r' /\
      RentCollector.calculateRentAmount b r = b) /\
  (forall tokenAccounts acc s,
      match (foldM (RentCollector.scanStep c) tokenAccounts acc s).1 with
      | Ok acc' => acc'.1 = acc.1 + eligibleRent tokenAccounts
      | Throw _ => True
      end) /\
  ((forall n w, isOk (getMinimumBalanceForRentExemption c n w).1 = true) ->
   forall tokenAccounts acc, returns (foldM (RentCollector.scanStep c) tokenAccounts acc)) /\
  (forall before tokenAccount after,
      eligibleRent (before ++ tokenAccount :: after)
      = (if 0 <? lamports (account tokenAccount) then lamports (account tokenAccount) else 0)
        + eligibleRent (before ++ after)) /\
  (forall wallet walletIndex s pub walletBalance s1 tokenAccounts s2 totals s3,
      fromSecretKey h (privateKey wallet) = Ok pub ->
      RentCollector.retryWithBackoff_default c
        (RentCollector.remote (GetBalance pub) (getBalance c pub)) (RentCollector.sleep c 250 s).2
      = (Ok walletBalance, s1) ->
      RentCollector.getTokenAccounts c pub s1 = (Ok tokenAccounts, s2) ->
      foldM (RentCollector.scanStep c) tokenAccounts (0, 0) s2 = (Ok totals, s3) ->
      RentCollector.processSingleWallet h c wallet walletIndex s
      = (Ok {| privateKey := privateKey wallet; publicKey := publicKey wallet;
               balance := walletBalance; rentExemptBalance := 0;
               rentAmount := eligibleRent tokenAccounts;
               canClose := 0 <? eligibleRent tokenAccounts |},
         {| RentCollector.world := RentCollector.world s3;
            RentCollector.walletManager :=
              WalletManager.updateWalletInfo walletIndex walletBalance 0
                (eligibleRent tokenAccounts) (0 <? eligibleRent tokenAccounts)
                (RentCollector.walletManager s3);
            RentCollector.feePayerKeypair := RentCollector.feePayerKeypair s3;
            RentCollector.trace := RentCollector.trace s3 |})) /\
  (forall keypair acc tokenAccount s,
      lamports (account tokenAccount) = 0 ->
      RentCollector.trace (RentCollector.closeStep c keypair acc tokenAccount s).2
      = RentCollector.trace s ++
        [Called (GetMinimumBalanceForRentExemption
                   (Z.of_nat (length (data (account tokenAccount)))))] /\
      forall acc', (RentCollector.closeStep c keypair acc tokenAccount s).1 = Ok acc' ->
                   acc' = acc) /\
  (forall keypair acc tokenAccount s feePayer' r w1,
      0 < lamports (account tokenAccount) ->
      RentCollector.feePayerKeypair s = Some feePayer' ->
      getMinimumBalanceForRentExemption c (Z.of_nat (length (data (account tokenAccount))))
        (RentCollector.world s) = (Ok r, w1) ->
      Called (GetAccountInfo (pubkey tokenAccount))
        ∈ RentCollector.trace (RentCollector.closeStep c keypair acc tokenAccount s).2).
Proof.
  repeat split.
  - apply canCloseAccount_iff.
  - apply canCloseAccount_iff.
  - apply scan_run.
  - intros Hrpc tokenAccounts acc. apply scan_returns. exact Hrpc.
  - intros before tokenAccount after.
    rewrite !eligibleRent_app, eligibleRent_cons. lia.
  - apply processSingleWallet_writes_rent.
  - apply closeStep_skips. lia.
  - apply closeStep_skips. lia.
  - intros keypair acc tokenAccount s feePayer' r w1. apply closeStep_attempts.
Qed.

Lemma eligibility_is_positive_balance_witness :
  (foldM (RentCollector.scanStep (scripted dust))
         [tokenAccountOf "Empty" 0 noUnits; tokenAccountOf "TokenAccountD" 5000 noUnits]
         (0, 0) (collectorDemo [])).1 = Ok (5000, 1) /\
  Called (GetAccountInfo "TokenAccountD")
    ∈ RentCollector.trace
        (RentCollector.closeStep (scripted dust) feePayerDemo (0, 0)
           (tokenAccountOf "TokenAccountD" 5000 noUnits) (collectorDemo [])).2.
Proof.
  destruct (eligibility_is_positive_balance demoHost (scripted dust))
    as (_ & _ & _ & Hreturns & _ & _ & _ & Hattempt).
  split.
  - vm_compute. reflexivity.
  - apply (Hattempt feePayerDemo (0, 0) (tokenAccountOf "TokenAccountD" 5000 noUnits)
             (collectorDemo []) feePayerDemo 2039280 0%nat);
      [vm_compute; reflexivity | reflexivity | reflexivity].
Defined.

(** ** The floor *)



Section FloorFacts.
Context {W : Type} (h : Host) (c : Connection W).
Import RentCollector.

(** The first thing a retried remote call does is the call. *)
Lemma retryLoop_calls_first {A} call (f : W -> Result A * W) maxRetries baseDelay n attempt s :
  exists tr,
    trace (retryLoop c (remote call f) maxRetries baseDelay (S n) attempt s).2
    = trace s ++ Called call :: tr.
Proof.
  cbn [retryLoop]. unfold try_catch. unfold remote at 1.
  destruct (f (world s)) as [[v|e] w1]; cbn.
  - exists []. reflexivity.
  - destruct (attempt =? maxRetries); [exists []; reflexivity|].
    destruct (isRateLimit e); [|exists []; reflexivity].
    match goal with
    | |- exists tr, trace (?m ?s1).2 = _ =>
        assert (Hrest : respects (fun _ => True) m)
          by (apply respects_bind;
              [apply respects_sleep; exact I
              |intros _; apply respects_retryLoop;
               [apply respects_remote; exact I | intros ms; exact I]]);
        destruct (Hrest s1) as (_ & _ & tr & Htr & _)
    end.
    exists tr. rewrite Htr. cbn. rewrite <- app_assoc. reflexivity.
Qed.

Lemma retry_calls_first {A} call (f : W -> Result A * W) s :
  exists tr,
    trace (retryWithBackoff_default c (remote call f) s).2 = trace s ++ Called call :: tr.
Proof. apply retryLoop_calls_first. Qed.




(** A close whose lookups answer submits its transaction. *)
Lemma closeTokenAccount_submits tokenAccountPubkey ownerKeypair destinationPubkey s
      feePayer' accountInfo w1 blockhash w2 :
  feePayerKeypair s = Some feePayer' ->
  getAccountInfo c tokenAccountPubkey (world s) = (Ok accountInfo, w1) ->
  getLatestBlockhash c w1 = (Ok blockhash, w2) ->
  {| instructions := closeInstructions tokenAccountPubkey ownerKeypair destinationPubkey
                       accountInfo;
     feePayer := kp_publicKey feePayer'; recentBlockhash := blockhash |}
    ∈ submitted (trace (closeTokenAccount c tokenAccountPubkey ownerKeypair
                          destinationPubkey s).2).
Proof.
  intros Hfp Hinfo Hbh. apply submitted_elem. exists [ownerKeypair; feePayer'].
  unfold closeTokenAccount. cbv [try_catch bind gets]. rewrite Hfp.
  unfold remote at 1. rewrite Hinfo. unfold remote at 1. cbn [world]. rewrite Hbh.
  match goal with
  | |- context [retryWithBackoff_default c (remote ?call ?f) ?s1] =>
      destruct (retry_calls_first call f s1) as (tr & Htr);
      destruct (retryWithBackoff_default c (remote call f) s1) as [[sig|e] s2]
  end; cbn [snd fst trace ret] in *; unfold ret; cbn [snd]; rewrite Htr;
    apply elem_of_app; right; left.
Qed.

(** A token account that holds lamports has its close submitted, when the
    queries before the submission answer. *)
Lemma closeStep_submits keypair acc tokenAccount s feePayer' r w1 accountInfo w2
      blockhash w3 :
  0 < lamports (account tokenAccount) ->
  feePayerKeypair s = Some feePayer' ->
  getMinimumBalanceForRentExemption c (Z.of_nat (length (data (account tokenAccount))))
    (world s) = (Ok r, w1) ->
  getAccountInfo c (pubkey tokenAccount) w1 = (Ok accountInfo, w2) ->
  getLatestBlockhash c w2 = (Ok blockhash, w3) ->
  {| instructions := closeInstructions (pubkey tokenAccount) keypair
                       (kp_publicKey feePayer') accountInfo;
     feePayer := kp_publicKey feePayer'; recentBlockhash := blockhash |}
    ∈ submitted (trace (closeStep c keypair acc tokenAccount s).2).
Proof.
  intros Hpos Hfp Hrent Hinfo Hbh.
  unfold closeStep, calculateRentExemptBalance, feePayerPublicKey, canCloseAccount.
  cbn [truthyBuffer]. cbv zeta. replace (0 <? lamports (account tokenAccount)) with true by lia.
  unfold bind at 1. unfold remote at 1. rewrite Hrent.
  unfold bind at 1. unfold bind at 1. unfold gets at 1. cbn [feePayerKeypair]. rewrite Hfp.
  unfold ret at 1. unfold bind at 1.
  match goal with
  | |- context [closeTokenAccount c ?pk ?kp ?dest ?s1] =>
      pose proof (closeTokenAccount_submits pk kp dest s1 feePayer' accountInfo w2
                    blockhash w3 eq_refl Hinfo Hbh) as Hsub;
      destruct (respects_closeTokenAccount c pk kp dest s1) as (_ & _ & tr1 & Ht1 & _);
      destruct (closeTokenAccount c pk kp dest s1) as [[closeResult|e] s2]
  end; cbn [fst snd] in *.
  - unfold bind, sleep, ret. cbn [snd trace].
    unfold submitted. rewrite omap_app. apply elem_of_app. left. exact Hsub.
  - exact Hsub.
Qed.

(** What was submitted stays submitted. *)
Lemma respects_keeps P {A} (m : M (t W) A) s transaction :
  respects P m ->
  transaction ∈ submitted (trace s) -> transaction ∈ submitted (trace (m s).2).
Proof.
  intros Hm Hin. destruct (Hm s) as (_ & _ & tr & -> & _).
  unfold submitted. rewrite omap_app. apply elem_of_app. left. exact Hin.
Qed.

Lemma foldM_app {S A B} (f : B -> A -> M S B) xs ys acc s :
  foldM f (xs ++ ys) acc s
  = match foldM f xs acc s with
    | (Ok acc', s') => foldM f ys acc' s'
    | (Throw e, s') => (Throw e, s')
    end.
Proof.
  revert acc s. induction xs as [|x xs IH]; intros acc s; cbn [foldM app]; [reflexivity|].
  unfold bind. destruct (f acc x s) as [[acc1|e] s1]; [apply IH | reflexivity].
Qed.

(** In the loop over the token accounts of a wallet: an account that holds
    lamports has its close submitted when the loop gets to it and the
    queries before the submission answer. *)
Lemma closeLoop_submits keypair before tokenAccount after acc s acc0 s0 feePayer' r w1
      accountInfo w2 blockhash w3 :
  foldM (closeStep c keypair) before acc s = (Ok acc0, s0) ->
  0 < lamports (account tokenAccount) ->
  feePayerKeypair s0 = Some feePayer' ->
  getMinimumBalanceForRentExemption c (Z.of_nat (length (data (account tokenAccount))))
    (world s0) = (Ok r, w1) ->
  getAccountInfo c (pubkey tokenAccount) w1 = (Ok accountInfo, w2) ->
  getLatestBlockhash c w2 = (Ok blockhash, w3) ->
  {| instructions := closeInstructions (pubkey tokenAccount) keypair
                       (kp_publicKey feePayer') accountInfo;
     feePayer := kp_publicKey feePayer'; recentBlockhash := blockhash |}
    ∈ submitted (trace (foldM (closeStep c keypair) (before ++ tokenAccount :: after)
                          acc s).2).
Proof.
  intros Hbefore Hpos Hfp Hrent Hinfo Hbh.
  rewrite foldM_app, Hbefore. cbn [foldM]. unfold bind.
  pose proof (closeStep_submits keypair acc0 tokenAccount s0 feePayer' r w1 accountInfo w2
                blockhash w3 Hpos Hfp Hrent Hinfo Hbh) as Hsub.
  destruct (closeStep c keypair acc0 tokenAccount s0) as [[acc1|e] s1]; cbn [snd] in Hsub.
  - apply (respects_keeps (inPhase CloseTx)); [|exact Hsub].
    apply respects_foldM. intros acc' tokenAccount'. apply respects_closeStep.
  - exact Hsub.
Qed.

(** The same in [processWalletCompletely]. *)
Lemma pipeline_submits_close walletIndex s feePayer' stored pub before tokenAccount after
      s0 acc0 s1 r w1 accountInfo w2 blockhash w3 :
  feePayerKeypair s = Some feePayer' ->
  walletAt walletIndex (walletManager s) = Some stored ->
  fromSecretKey h (privateKey stored) = Ok pub ->
  let keypair := {| secretKey := privateKey stored; kp_publicKey := pub |} in
  getTokenAccounts c pub s = (Ok (before ++ tokenAccount :: after), s0) ->
  foldM (closeStep c keypair) before (0, 0) s0 = (Ok acc0, s1) ->
  0 < lamports (account tokenAccount) ->
  getMinimumBalanceForRentExemption c (Z.of_nat (length (data (account tokenAccount))))
    (world s1) = (Ok r, w1) ->
  getAccountInfo c (pubkey tokenAccount) w1 = (Ok accountInfo, w2) ->
  getLatestBlockhash c w2 = (Ok blockhash, w3) ->
  {| instructions := closeInstructions (pubkey tokenAccount) keypair
                       (kp_publicKey feePayer') accountInfo;
     feePayer := kp_publicKey feePayer'; recentBlockhash := blockhash |}
    ∈ submitted (trace (processWalletCompletely h c walletIndex s).2).
Proof.
  intros Hfp Hwallet Hkey keypair Hfound Hbefore Hpos Hrent Hinfo Hbh.
  assert (Hfp1 : feePayerKeypair s1 = Some feePayer').
  { pose proof (respects_feePayer (inPhase CloseTx)
                  (foldM (closeStep c keypair) before (0, 0)) s0
                  ltac:(apply respects_foldM; intros ? ?; apply respects_closeStep)) as H1.
    pose proof (respects_feePayer noSubmission (getTokenAccounts c pub) s
                  (respects_getTokenAccounts c pub)) as H0.
    rewrite Hbefore in H1. rewrite Hfound in H0. cbn [snd] in H0, H1. congruence. }
  assert (Hclosed :
            {| instructions := closeInstructions (pubkey tokenAccount) keypair
                                 (kp_publicKey feePayer') accountInfo;
               feePayer := kp_publicKey feePayer'; recentBlockhash := blockhash |}
              ∈ submitted (trace (closePhase c keypair s).2)).
  { unfold closePhase, bind. cbn [kp_publicKey keypair]. rewrite Hfound.
    replace (0 <? Z.of_nat (length (before ++ tokenAccount :: after))) with true
      by (symmetry; apply Z.ltb_lt; rewrite length_app; cbn [length]; lia).
    eapply closeLoop_submits; eassumption. }
  unfold processWalletCompletely. cbv [bind gets]. rewrite Hfp.
  unfold WalletManager.getWallets. rewrite Hwallet.
  unfold keypairFromSecretKey. rewrite Hkey. cbv [ret]. fold keypair.
  destruct (closePhase c keypair s) as [[closed|e] s2]; cbn [snd] in Hclosed; [|exact Hclosed].
  apply (respects_keeps (inPhase BurnTx) (burnAllTokens c keypair) s2) in Hclosed;
    [|apply respects_burnAllTokens].
  destruct (burnAllTokens c keypair s2) as [[burned|e] s3]; cbn [snd] in Hclosed;
    [|exact Hclosed].
  apply (respects_keeps (inPhase TransferTx) (sweepPhase c keypair) s3) in Hclosed;
    [|apply respects_sweepPhase].
  destruct (sweepPhase c keypair s3) as [[sol|e] s4]; exact Hclosed.
Qed.
End FloorFacts.



(** ** Discovery *)

Example threeStrategies_run :
  match (RentCollector.getTokenAccounts (scripted threeStrategies) walletA
           (collectorDemo [])).1 with
  | Ok accounts => Some (pubkey <$> accounts)
  | Throw _ => None
  end = Some ["A"; "B"; "C"].
Proof. vm_compute. reflexivity. Qed.

Example secondQueryFails_run :
  (RentCollector.getTokenAccounts (scripted secondQueryFails) walletA (collectorDemo [])).1
  = Ok [tokenAccountOf "A" 2039280 noUnits].
Proof. vm_compute. reflexivity. Qed.

Example tokenQueriesFail_run :
  (RentCollector.getTokenAccounts (scripted tokenQueriesFail) walletA (collectorDemo [])).1
  = Ok [].
Proof. vm_compute. reflexivity. Qed.

(** C3, as stated, fails, whether a strategy is one of the three methods or
    one query of a method. The first method gets A from the Token program,
    then fails on the Token-2022 program, and A stays in what it has
    pushed. When the queries on the Token program fail, those on the
    Token-2022 program are not made, and the account X they would answer
    is not found. *)
Lemma failed_strategy_counterexample :
  ~ failed_strategy_contributes_nothing /\ ~ failed_query_hides_nothing.
Proof.
  split.
  - intros Hclaim.
    specialize (Hclaim nat (scripted secondQueryFails) walletA [] (collectorDemo []) eq_refl).
    vm_compute in Hclaim. discriminate Hclaim.
  - intros Hclaim.
    specialize (Hclaim nat (scripted tokenQueriesFail) walletA (collectorDemo [])
                  [tokenAccountOf "X" 2039280 noUnits] []
                  (tokenAccountOf "X" 2039280 noUnits)).
    assert (H : "X" ∈ pubkey <$> @nil TokenAccount).
    { apply Hclaim; [vm_compute; reflexivity | left | apply tokenQueriesFail_run]. }
    inversion H.
Qed.

Section RemoveDuplicates.
Import RentCollector.

Lemma removeDuplicates_pubkeys allTokenAccounts :
  pubkey <$> removeDuplicates allTokenAccounts
  = Js.map_keys (foldl (fun m a => Js.map_set (pubkey a) a m) [] allTokenAccounts).
Proof.
  unfold removeDuplicates, Js.map_values, Js.map_keys.
  assert (Hinv : Forall (fun kv : string * TokenAccount => kv.1 = pubkey kv.2)
                        (foldl (fun m a => Js.map_set (pubkey a) a m) [] allTokenAccounts)).
  { apply (filled_Forall pubkey (fun a => a)); [|constructor].
    apply Forall_forall. intros a _. reflexivity. }
  induction Hinv as [|[k a] m Hk Hm IH]; [reflexivity|].
  rewrite !fmap_cons, IH. cbn [fst snd] in *. subst k. reflexivity.
Qed.

Lemma removeDuplicates_NoDup allTokenAccounts :
  NoDup (pubkey <$> removeDuplicates allTokenAccounts).
Proof.
  rewrite removeDuplicates_pubkeys.
  apply (filled_NoDup pubkey (fun a => a)). constructor.
Qed.

Lemma removeDuplicates_same_accounts allTokenAccounts x :
  x ∈ pubkey <$> removeDuplicates allTokenAccounts <-> x ∈ pubkey <$> allTokenAccounts.
Proof.
  rewrite removeDuplicates_pubkeys, (filled_keys pubkey (fun a => a)).
  split; [|right; assumption].
  intros [H | H]; [inversion H | assumption].
Qed.

Lemma removeDuplicates_sub allTokenAccounts a :
  a ∈ removeDuplicates allTokenAccounts -> a ∈ allTokenAccounts.
Proof.
  unfold removeDuplicates, Js.map_values. intros Ha.
  apply list_elem_of_fmap in Ha as ([k a'] & -> & Hkv).
  assert (Hinv : Forall (fun kv : string * TokenAccount => kv.2 ∈ allTokenAccounts)
                        (foldl (fun m a => Js.map_set (pubkey a) a m) [] allTokenAccounts)).
  { apply (filled_Forall pubkey (fun a => a)); [|constructor].
    apply Forall_forall. intros b Hb. exact Hb. }
  rewrite Forall_forall in Hinv. apply (Hinv _ Hkv).
Qed.
End RemoveDuplicates.

Section DiscoveryFacts.
Context {W : Type} (c : Connection W) (walletPublicKey : PublicKey).
Import RentCollector.

Lemma method1_run allTokenAccounts s :
  (method1 c walletPublicKey allTokenAccounts s).1
  = Ok match (queryByOwner c walletPublicKey TOKEN_PROGRAM_ID s).1 with
       | Throw _ => allTokenAccounts
       | Ok standard =>
           match (queryByOwner c walletPublicKey TOKEN_2022_PROGRAM_ID
                    (queryByOwner c walletPublicKey TOKEN_PROGRAM_ID s).2).1 with
           | Throw _ => allTokenAccounts ++ standard
           | Ok extended => (allTokenAccounts ++ standard) ++ extended
           end
       end.
Proof.
  unfold method1, queryByOwner, bind, attempt.
  destruct (retryWithBackoff_default c _ s) as [[standard|e] s1]; [|reflexivity].
  cbn [fst snd].
  destruct (retryWithBackoff_default c _ s1) as [[extended|e] s2]; reflexivity.
Qed.

Lemma method2_run allTokenAccounts s :
  (method2 c walletPublicKey allTokenAccounts s).1
  = Ok match (queryProgramAccounts c walletPublicKey s).1 with
       | Throw _ => allTokenAccounts
       | Ok parsedAccounts => allTokenAccounts ++ kept c walletPublicKey parsedAccounts
       end.
Proof.
  unfold method2, queryProgramAccounts, bind, attempt.
  destruct (retryWithBackoff_default c _ s) as [[parsedAccounts|e] s1]; reflexivity.
Qed.

Lemma method3_run allTokenAccounts s :
  (method3 c walletPublicKey allTokenAccounts s).1
  = Ok match (queryParsedByOwner c walletPublicKey TOKEN_PROGRAM_ID s).1 with
       | Throw _ => allTokenAccounts
       | Ok standard =>
           match (queryParsedByOwner c walletPublicKey TOKEN_2022_PROGRAM_ID
                    (queryParsedByOwner c walletPublicKey TOKEN_PROGRAM_ID s).2).1 with
           | Throw _ => allTokenAccounts ++ kept c walletPublicKey standard
           | Ok extended =>
               (allTokenAccounts ++ kept c walletPublicKey standard)
                 ++ kept c walletPublicKey extended
           end
       end.
Proof.
  unfold method3, queryParsedByOwner, bind, attempt.
  destruct (retryWithBackoff_default c _ s) as [[standard|e] s1]; [|reflexivity].
  cbn [fst snd].
  destruct (retryWithBackoff_default c _ s1) as [[extended|e] s2]; reflexivity.
Qed.

(** A strategy adds to what was pushed before it and takes nothing away,
    whatever happens to it. *)
Lemma methods_append allTokenAccounts s :
  (exists added, (method1 c walletPublicKey allTokenAccounts s).1
                 = Ok (allTokenAccounts ++ added)) /\
  (exists added, (method2 c walletPublicKey allTokenAccounts s).1
                 = Ok (allTokenAccounts ++ added)) /\
  (exists added, (method3 c walletPublicKey allTokenAccounts s).1
                 = Ok (allTokenAccounts ++ added)).
Proof.
  rewrite method1_run, method2_run, method3_run. repeat split.
  - destruct (queryByOwner c walletPublicKey TOKEN_PROGRAM_ID s).1 as [l1|e];
      [|exists []; rewrite app_nil_r; reflexivity].
    destruct (queryByOwner c walletPublicKey TOKEN_2022_PROGRAM_ID _).1 as [l2|e];
      [exists (l1 ++ l2); rewrite app_assoc | exists l1]; reflexivity.
  - destruct (queryProgramAccounts c walletPublicKey s).1 as [l|e];
      [eexists; reflexivity | exists []; rewrite app_nil_r; reflexivity].
  - destruct (queryParsedByOwner c walletPublicKey TOKEN_PROGRAM_ID s).1 as [l1|e];
      [|exists []; rewrite app_nil_r; reflexivity].
    destruct (queryParsedByOwner c walletPublicKey TOKEN_2022_PROGRAM_ID _).1 as [l2|e];
      [eexists; rewrite <- app_assoc | eexists]; reflexivity.
Qed.

Lemma returns_pushed : returns (pushed c walletPublicKey).
Proof.
  unfold pushed.
  apply returns_bind; [intros s; rewrite method1_run; reflexivity|]. intros all1.
  apply returns_bind; [intros s; rewrite method2_run; reflexivity|]. intros all2.
  intros s. rewrite method3_run. reflexivity.
Qed.

Lemma getTokenAccounts_run s allTokenAccounts :
  (pushed c walletPublicKey s).1 = Ok allTokenAccounts ->
  (getTokenAccounts c walletPublicKey s).1 = Ok (removeDuplicates allTokenAccounts).
Proof.
  unfold getTokenAccounts, pushed, try_catch, bind.
  destruct (method1 c walletPublicKey [] s) as [[all1|e] s1]; [|discriminate].
  destruct (method2 c walletPublicKey all1 s1) as [[all2|e] s2]; [|discriminate].
  destruct (method3 c walletPublicKey all2 s2) as [[all3|e] s3]; [|discriminate].
  intros [= <-]. reflexivity.
Qed.
End DiscoveryFacts.

(** C3, amended. For every owner and every ledger, [getTokenAccounts]
    returns, without throwing, what the three strategies have pushed, with
    one record per account identity; a strategy adds to what was pushed
    before it whatever happens to it; a strategy whose first query fails
    adds nothing, and one whose Token-2022 query fails still adds the
    records of its Token query. *)
Theorem discovery_merges_what_was_pushed
        {W : Type} (c : Connection W) (walletPublicKey : PublicKey) (s : RentCollector.t W) :
  (exists allTokenAccounts,
      (pushed c walletPublicKey s).1 = Ok allTokenAccounts /\
      (RentCollector.getTokenAccounts c walletPublicKey s).1
      = Ok (RentCollector.removeDuplicates allTokenAccounts) /\
      NoDup (pubkey <$> RentCollector.removeDuplicates allTokenAccounts) /\
      (forall x, x ∈ pubkey <$> RentCollector.removeDuplicates allTokenAccounts
                 <-> x ∈ pubkey <$> allTokenAccounts) /\
      (forall a, a ∈ RentCollector.removeDuplicates allTokenAccounts ->
                 a ∈ allTokenAccounts)) /\
  (forall allTokenAccounts s',
      (exists added, (RentCollector.method1 c walletPublicKey allTokenAccounts s').1
                     = Ok (allTokenAccounts ++ added)) /\
      (exists added, (RentCollector.method2 c walletPublicKey allTokenAccounts s').1
                     = Ok (allTokenAccounts ++ added)) /\
      (exists added, (RentCollector.method3 c walletPublicKey allTokenAccounts s').1
                     = Ok (allTokenAccounts ++ added))) /\
  (forall allTokenAccounts s',
      (RentCollector.method1 c walletPublicKey allTokenAccounts s').1
      = Ok match (queryByOwner c walletPublicKey TOKEN_PROGRAM_ID s').1 with
           | Throw _ => allTokenAccounts
           | Ok standard =>
               match (queryByOwner c walletPublicKey TOKEN_2022_PROGRAM_ID
                        (queryByOwner c walletPublicKey TOKEN_PROGRAM_ID s').2).1 with
               | Throw _ => allTokenAccounts ++ standard
               | Ok extended => (allTokenAccounts ++ standard) ++ extended
               end
           end) /\
  (forall allTokenAccounts s',
      (RentCollector.method2 c walletPublicKey allTokenAccounts s').1
      = Ok match (queryProgramAccounts c walletPublicKey s').1 with
           | Throw _ => allTokenAccounts
           | Ok parsedAccounts => allTokenAccounts ++ kept c walletPublicKey parsedAccounts
           end) /\
  (forall allTokenAccounts s',
      (RentCollector.method3 c walletPublicKey allTokenAccounts s').1
      = Ok match (queryParsedByOwner c walletPublicKey TOKEN_PROGRAM_ID s').1 with
           | Throw _ => allTokenAccounts
           | Ok standard =>
               match (queryParsedByOwner c walletPublicKey TOKEN_2022_PROGRAM_ID
                        (queryParsedByOwner c walletPublicKey TOKEN_PROGRAM_ID s').2).1 with
               | Throw _ => allTokenAccounts ++ kept c walletPublicKey standard
               | Ok extended =>
                   (allTokenAccounts ++ kept c walletPublicKey standard)
                     ++ kept c walletPublicKey extended
               end
           end).
Proof.
  split; [|split; [|split; [|split]]].
  - destruct (returns_value (pushed c walletPublicKey) s (returns_pushed c walletPublicKey))
      as [allTokenAccounts Hpushed].
    exists allTokenAccounts. split; [exact Hpushed|].
    split; [apply getTokenAccounts_run, Hpushed|].
    split; [apply removeDuplicates_NoDup|].
    split; [apply removeDuplicates_same_accounts | apply removeDuplicates_sub].
  - apply methods_append.
  - apply method1_run.
  - apply method2_run.
  - apply method3_run.
Qed.

Lemma discovery_merges_what_was_pushed_witness :
  exists allTokenAccounts,
    (RentCollector.getTokenAccounts (scripted threeStrategies) walletA (collectorDemo [])).1
    = Ok (RentCollector.removeDuplicates allTokenAccounts) /\
    pubkey <$> allTokenAccounts = ["A"; "B"; "B"; "C"] /\
    pubkey <$> RentCollector.removeDuplicates allTokenAccounts = ["A"; "B"; "C"].
Proof.
  destruct (discovery_merges_what_was_pushed (scripted threeStrategies) walletA
              (collectorDemo []))
    as [(allTokenAccounts & Hpushed & Hrun & _) _].
  exists allTokenAccounts. split; [exact Hrun|].
  vm_compute in Hpushed. injection Hpushed as <-. split; vm_compute; reflexivity.
Defined.

(** ** Numbers read from account data *)

Example readBigUInt64LE_thousand : readBigUInt64LE 64 (tokenData thousandUnits) = 1000.
Proof. reflexivity. Qed.

Example tokenData_length : length (tokenData thousandUnits) = 165%nat.
Proof. reflexivity. Qed.

Example Number_of_bigint_exact : Number_of_bigint (2 ^ 53 - 1) = 2 ^ 53 - 1.
Proof. reflexivity. Qed.

Example Number_of_bigint_tie_to_even :
  Number_of_bigint (2 ^ 53 + 1) = 2 ^ 53 /\ Number_of_bigint (2 ^ 53 + 3) = 2 ^ 53 + 4.
Proof. split; reflexivity. Qed.

Example Number_of_bigint_max : Number_of_bigint (2 ^ 64 - 1) = 2 ^ 64.
Proof. reflexivity. Qed.

(** ** Amounts as the progress events announce them *)

Example solText_dust : solText 10000 = "0.0000".
Proof. vm_compute. reflexivity. Qed.

Example solText_sweep : solText 700000 = "0.0007".
Proof. vm_compute. reflexivity. Qed.

Example solText_below_a_tie : solText 150000 = "0.0001".
Proof. vm_compute. reflexivity. Qed.

Example solText_above_a_tie : solText 250000 = "0.0003".
Proof. vm_compute. reflexivity. Qed.

Example solText_exact_tie : solText 31250000 = "0.0313".
Proof. vm_compute. reflexivity. Qed.

Example solText_one_sol : solText 1000000000 = "1.0000".
Proof. vm_compute. reflexivity. Qed.

Example solText_rent_exempt : solText 2039280 = "0.0020".
Proof. vm_compute. reflexivity. Qed.

Example solText_negative : solText (-5000) = "-0.0000".
Proof. vm_compute. reflexivity. Qed.

Example solText_total : solText 1200000 = "0.0012".
Proof. vm_compute. reflexivity. Qed.

Example solText_large : solText 12345678912345 = "12345.6789".
Proof. vm_compute. reflexivity. Qed.

(** ** What the closes and the burn pass burn *)

Lemma Number_of_bigint_pos n : 0 < n -> 0 < Number_of_bigint n.
Proof.
  intros Hn. unfold Number_of_bigint.
  destruct (Z.ltb_spec n (2 ^ 53)) as [Hsmall|Hbig]; [exact Hn|].
  assert (Hlog : 53 <= Z.log2 n) by (apply Z.log2_le_pow2; lia).
  remember (Z.log2 n - 52) as e eqn:He.
  assert (Hpow : 0 < 2 ^ e) by (apply Z.pow_pos_nonneg; lia).
  assert (Hle : 2 ^ e <= n).
  { transitivity (2 ^ Z.log2 n); [apply Z.pow_le_mono_r; lia|].
    apply Z.log2_spec. lia. }
  assert (Hq : 0 < n / 2 ^ e) by (apply Z.div_str_pos; lia).
  cbv zeta.
  repeat match goal with |- context [if ?b then _ else _] => destruct b end; nia.
Qed.

Lemma Number_of_bigint_small n : n < 2 ^ 53 -> Number_of_bigint n = n.
Proof.
  intros Hn. unfold Number_of_bigint.
  destruct (Z.ltb_spec n (2 ^ 53)) as [_|Hbig]; [reflexivity | lia].
Qed.

Section BurnPass.
Context {W : Type} (h : Host) (c : Connection W).
Import RentCollector.

Lemma closeInstructions_burns tokenAccountPubkey ownerKeypair destinationPubkey info :
  165 <= Z.of_nat (length (data info)) ->
  0 < readBigUInt64LE 64 (data info) ->
  let programId := if String.eqb (owner info) TOKEN_2022_PROGRAM_ID
                   then TOKEN_2022_PROGRAM_ID else TOKEN_PROGRAM_ID in
  closeInstructions tokenAccountPubkey ownerKeypair destinationPubkey (Some info)
  = [Burn tokenAccountPubkey (take 32 (data info)) (kp_publicKey ownerKeypair)
          (Number_of_bigint (readBigUInt64LE 64 (data info))) programId;
     CloseAccount tokenAccountPubkey destinationPubkey (kp_publicKey ownerKeypair)
                  programId] /\
  0 < Number_of_bigint (readBigUInt64LE 64 (data info)) /\
  (readBigUInt64LE 64 (data info) < 2 ^ 53 ->
   Number_of_bigint (readBigUInt64LE 64 (data info)) = readBigUInt64LE 64 (data info)).
Proof.
  intros Hlen Hamount programId.
  pose proof (Number_of_bigint_pos _ Hamount) as Hpos.
  split; [|split; [exact Hpos | apply Number_of_bigint_small]].
  unfold closeInstructions. cbv zeta.
  replace (165 <=? Z.of_nat (length (data info))) with true by lia.
  replace (0 <? Number_of_bigint (readBigUInt64LE 64 (data info))) with true by lia.
  reflexivity.
Qed.

Lemma closeInstructions_closes_only tokenAccountPubkey ownerKeypair destinationPubkey
      accountInfo :
  match accountInfo with
  | None => True
  | Some info => Z.of_nat (length (data info)) < 165 \/ readBigUInt64LE 64 (data info) <= 0
  end ->
  exists programId,
    closeInstructions tokenAccountPubkey ownerKeypair destinationPubkey accountInfo
    = [CloseAccount tokenAccountPubkey destinationPubkey (kp_publicKey ownerKeypair)
                    programId].
Proof.
  unfold closeInstructions. cbv zeta. destruct accountInfo as [info|]; [|eexists; reflexivity].
  intros [Hshort|Hzero].
  - replace (165 <=? Z.of_nat (length (data info))) with false by lia.
    eexists. reflexivity.
  - destruct (165 <=? Z.of_nat (length (data info))); [|eexists; reflexivity].
    assert (Hnone : (0 <? Number_of_bigint (readBigUInt64LE 64 (data info))) = false).
    { rewrite Number_of_bigint_small by lia. lia. }
    rewrite Hnone. eexists. reflexivity.
Qed.

Lemma burnStep_submits walletKeypair feePayer' acc tokenAccount s info w1 blockhash w2 :
  getAccountInfo c (pubkey tokenAccount) (world s) = (Ok (Some info), w1) ->
  165 <= Z.of_nat (length (data info)) ->
  0 < readBigUInt64LE 64 (data info) ->
  getLatestBlockhash c w1 = (Ok blockhash, w2) ->
  {| instructions :=
       [Burn (pubkey tokenAccount) (take 32 (data info)) (kp_publicKey walletKeypair)
             (readBigUInt64LE 64 (data info))
             (if String.eqb (owner (account tokenAccount)) TOKEN_2022_PROGRAM_ID
              then TOKEN_2022_PROGRAM_ID else TOKEN_PROGRAM_ID)];
     feePayer := kp_publicKey feePayer'; recentBlockhash := blockhash |}
    ∈ submitted (trace (burnStep c walletKeypair feePayer' acc tokenAccount s).2).
Proof.
  intros Hinfo Hlen Hamount Hbh. apply submitted_elem. exists [walletKeypair; feePayer'].
  unfold burnStep. cbv zeta. cbv [try_catch bind]. unfold remote at 1. rewrite Hinfo.
  replace (Z.of_nat (length (data info)) <? 165) with false by lia.
  replace (0 <? readBigUInt64LE 64 (data info)) with true by lia.
  unfold remote at 1. cbn [world]. rewrite Hbh.
  match goal with
  | |- context [retryWithBackoff_default c (remote ?call ?f) ?s1] =>
      destruct (retry_calls_first c call f s1) as (tr & Htr);
      destruct (retryWithBackoff_default c (remote call f) s1) as [[sig|e] s2]
  end; cbn [snd fst trace] in *; cbv [sleep ret]; cbn [snd trace]; rewrite Htr.
  - apply elem_of_app. left. apply elem_of_app. right. left.
  - apply elem_of_app. right. left.
Qed.

Lemma burnStep_skips walletKeypair feePayer' acc tokenAccount s accountInfo w1 :
  getAccountInfo c (pubkey tokenAccount) (world s) = (Ok accountInfo, w1) ->
  match accountInfo with
  | None => True
  | Some info => Z.of_nat (length (data info)) < 165 \/ readBigUInt64LE 64 (data info) <= 0
  end ->
  burnStep c walletKeypair feePayer' acc tokenAccount s
  = (Ok acc,
     {| world := w1; walletManager := walletManager s; feePayerKeypair := feePayerKeypair s;
        trace := trace s ++ [Called (GetAccountInfo (pubkey tokenAccount))] |}).
Proof.
  intros Hinfo Hskip.
  unfold burnStep. cbv zeta. cbv [try_catch bind]. unfold remote at 1. rewrite Hinfo.
  destruct accountInfo as [info|]; [|reflexivity].
  destruct (Z.ltb_spec (Z.of_nat (length (data info))) 165) as [_|Hlen]; [reflexivity|].
  destruct Hskip as [Hshort|Hzero]; [lia|].
  replace (0 <? readBigUInt64LE 64 (data info)) with false by lia. reflexivity.
Qed.

(** In the loop of [burnAllTokens]: an account that is still found with a
    balance has its burn submitted when the loop gets to it. *)
Lemma burnLoop_submits walletKeypair feePayer' before tokenAccount after acc s acc0 s0
      info w1 blockhash w2 :
  foldM (burnStep c walletKeypair feePayer') before acc s = (Ok acc0, s0) ->
  getAccountInfo c (pubkey tokenAccount) (world s0) = (Ok (Some info), w1) ->
  165 <= Z.of_nat (length (data info)) ->
  0 < readBigUInt64LE 64 (data info) ->
  getLatestBlockhash c w1 = (Ok blockhash, w2) ->
  {| instructions :=
       [Burn (pubkey tokenAccount) (take 32 (data info)) (kp_publicKey walletKeypair)
             (readBigUInt64LE 64 (data info))
             (if String.eqb (owner (account tokenAccount)) TOKEN_2022_PROGRAM_ID
              then TOKEN_2022_PROGRAM_ID else TOKEN_PROGRAM_ID)];
     feePayer := kp_publicKey feePayer'; recentBlockhash := blockhash |}
    ∈ submitted (trace (foldM (burnStep c walletKeypair feePayer')
                          (before ++ tokenAccount :: after) acc s).2).
Proof.
  intros Hbefore Hinfo Hlen Hamount Hbh.
  rewrite foldM_app, Hbefore. cbn [foldM]. unfold bind.
  pose proof (burnStep_submits walletKeypair feePayer' acc0 tokenAccount s0 info w1
                blockhash w2 Hinfo Hlen Hamount Hbh) as Hsub.
  destruct (burnStep c walletKeypair feePayer' acc0 tokenAccount s0) as [[acc1|e] s1];
    cbn [snd] in Hsub.
  - apply (respects_keeps (inPhase BurnTx)); [|exact Hsub].
    apply respects_foldM. intros acc' tokenAccount'. apply respects_burnStep.
  - exact Hsub.
Qed.

(** The same in [processWalletCompletely]: after the closes, the token
    accounts are listed again, and the burn of an account of that list is
    submitted when it is still found with a balance. *)
Lemma pipeline_submits_burn walletIndex s feePayer' stored pub closed s1 before tokenAccount
      after s2 acc0 s3 info w1 blockhash w2 :
  feePayerKeypair s = Some feePayer' ->
  walletAt walletIndex (walletManager s) = Some stored ->
  fromSecretKey h (privateKey stored) = Ok pub ->
  let keypair := {| secretKey := privateKey stored; kp_publicKey := pub |} in
  closePhase c keypair s = (Ok closed, s1) ->
  getTokenAccounts c pub s1 = (Ok (before ++ tokenAccount :: after), s2) ->
  foldM (burnStep c keypair feePayer') before
        {| tokensBurned := 0; totalTokensBurned := 0 |} s2 = (Ok acc0, s3) ->
  getAccountInfo c (pubkey tokenAccount) (world s3) = (Ok (Some info), w1) ->
  165 <= Z.of_nat (length (data info)) ->
  0 < readBigUInt64LE 64 (data info) ->
  getLatestBlockhash c w1 = (Ok blockhash, w2) ->
  {| instructions :=
       [Burn (pubkey tokenAccount) (take 32 (data info)) pub
             (readBigUInt64LE 64 (data info))
             (if String.eqb (owner (account tokenAccount)) TOKEN_2022_PROGRAM_ID
              then TOKEN_2022_PROGRAM_ID else TOKEN_PROGRAM_ID)];
     feePayer := kp_publicKey feePayer'; recentBlockhash := blockhash |}
    ∈ submitted (trace (processWalletCompletely h c walletIndex s).2).
Proof.
  intros Hfp Hwallet Hkey keypair Hclose Hfound Hbefore Hinfo Hlen Hamount Hbh.
  assert (Hfp1 : feePayerKeypair s1 = Some feePayer').
  { pose proof (respects_feePayer (inPhase CloseTx) (closePhase c keypair) s
                  (respects_closePhase c keypair)) as H1.
    rewrite Hclose in H1. cbn [snd] in H1. congruence. }
  assert (Hburned :
            {| instructions :=
                 [Burn (pubkey tokenAccount) (take 32 (data info)) pub
                       (readBigUInt64LE 64 (data info))
                       (if String.eqb (owner (account tokenAccount)) TOKEN_2022_PROGRAM_ID
                        then TOKEN_2022_PROGRAM_ID else TOKEN_PROGRAM_ID)];
               feePayer := kp_publicKey feePayer'; recentBlockhash := blockhash |}
              ∈ submitted (trace (burnAllTokens c keypair s1).2)).
  { pose proof (burnLoop_submits keypair feePayer' before tokenAccount after _ s2 acc0 s3
                  info w1 blockhash w2 Hbefore Hinfo Hlen Hamount Hbh) as Hloop.
    cbn [kp_publicKey keypair] in Hloop.
    unfold burnAllTokens. cbv [bind gets try_catch]. rewrite Hfp1.
    cbn [kp_publicKey keypair]. rewrite Hfound.
    match goal with
    | |- context [foldM ?f ?xs ?acc s2] => destruct (foldM f xs acc s2) as [[burned|e] s4]
    end; exact Hloop. }
  unfold processWalletCompletely. cbv [bind gets]. rewrite Hfp.
  unfold WalletManager.getWallets. rewrite Hwallet.
  unfold keypairFromSecretKey. rewrite Hkey. cbv [ret]. fold keypair. rewrite Hclose.
  destruct (burnAllTokens c keypair s1) as [[burned|e] s4]; cbn [snd] in Hburned;
    [|exact Hburned].
  apply (respects_keeps (inPhase TransferTx) (sweepPhase c keypair) s4) in Hburned;
    [|apply respects_sweepPhase].
  destruct (sweepPhase c keypair s4) as [[sol|e] s5]; exact Hburned.
Qed.
End BurnPass.

Example frozenAccount_run :
  submitted (RentCollector.trace
               (RentCollector.processWalletCompletely demoHost (scripted frozenAccount) 0
                  (collectorDemo (loadWallets demoHost ["a.txt"] WalletManager.new))).2)
  = [ {| instructions :=
           [Burn "TokenAccountT" (replicate 32 x00) walletA 1000 TOKEN_PROGRAM_ID;
            CloseAccount "TokenAccountT" (kp_publicKey feePayerDemo) walletA TOKEN_PROGRAM_ID];
         feePayer := kp_publicKey feePayerDemo; recentBlockhash := "blockhash" |};
      {| instructions :=
           [Burn "TokenAccountT" (replicate 32 x00) walletA 1000 TOKEN_PROGRAM_ID];
         feePayer := kp_publicKey feePayerDemo; recentBlockhash := "blockhash" |} ].
Proof. vm_compute. reflexivity. Qed.

(** The two transactions of that run are the ones the lemmas on the
    pipeline give: the close of the account, with its burn, ... *)
Example frozenAccount_close_is_submitted :
  {| instructions :=
       [Burn "TokenAccountT" (replicate 32 x00) walletA 1000 TOKEN_PROGRAM_ID;
        CloseAccount "TokenAccountT" (kp_publicKey feePayerDemo) walletA TOKEN_PROGRAM_ID];
     feePayer := kp_publicKey feePayerDemo; recentBlockhash := "blockhash" |}
    ∈ submitted (RentCollector.trace
                   (RentCollector.processWalletCompletely demoHost (scripted frozenAccount) 0
                      (collectorDemo (loadWallets demoHost ["a.txt"] WalletManager.new))).2).
Proof.
  pose (s := collectorDemo (loadWallets demoHost ["a.txt"] WalletManager.new)).
  pose (tokenAccount := tokenAccountOf "TokenAccountT" 2039280 thousandUnits).
  let stored := eval vm_compute in (RentCollector.walletAt 0 (RentCollector.walletManager s)) in
  let found := eval vm_compute in
                 (RentCollector.getTokenAccounts (scripted frozenAccount) walletA s).2 in
  match stored with
  | Some ?w =>
      apply (pipeline_submits_close demoHost (scripted frozenAccount) 0 s feePayerDemo w
               walletA [] tokenAccount [] found (0, 0) found 2039280 0%nat
               (Some (account tokenAccount)) 0%nat "blockhash" 0%nat)
  end; vm_compute; reflexivity.
Qed.

(** ... and, the close having been turned down, the burn of the pass over
    the remaining tokens. *)
Example frozenAccount_burn_is_submitted :
  {| instructions :=
       [Burn "TokenAccountT" (replicate 32 x00) walletA 1000 TOKEN_PROGRAM_ID];
     feePayer := kp_publicKey feePayerDemo; recentBlockhash := "blockhash" |}
    ∈ submitted (RentCollector.trace
                   (RentCollector.processWalletCompletely demoHost (scripted frozenAccount) 0
                      (collectorDemo (loadWallets demoHost ["a.txt"] WalletManager.new))).2).
Proof.
  pose (s := collectorDemo (loadWallets demoHost ["a.txt"] WalletManager.new)).
  pose (tokenAccount := tokenAccountOf "TokenAccountT" 2039280 thousandUnits).
  pose (keypair := {| secretKey := demoKey "A"; kp_publicKey := walletA |}).
  let stored := eval vm_compute in (RentCollector.walletAt 0 (RentCollector.walletManager s)) in
  let closed := eval vm_compute in (RentCollector.closePhase (scripted frozenAccount) keypair s) in
  match constr:((stored, closed)) with
  | (Some ?w, (Ok ?r, ?s1)) =>
      let found := eval vm_compute in
                     (RentCollector.getTokenAccounts (scripted frozenAccount) walletA s1).2 in
      apply (pipeline_submits_burn demoHost (scripted frozenAccount) 0 s feePayerDemo w
               walletA r s1 [] tokenAccount [] found
               {| RentCollector.tokensBurned := 0; RentCollector.totalTokensBurned := 0 |}
               found (account tokenAccount) 1%nat "blockhash" 1%nat)
  end; vm_compute; first [reflexivity | discriminate].
Qed.

(** C6, as stated, fails: for a token account with 1000 units whose close
    is turned down, the pipeline submits the close (with its burn) and
    then, in the pass over the remaining tokens, a burn on its own. *)
Lemma burn_after_close_counterexample : ~ no_burn_after_close.
Proof.
  intros Hclaim.
  apply (Hclaim nat demoHost (scripted frozenAccount) 0
           (collectorDemo (loadWallets demoHost ["a.txt"] WalletManager.new))
           [] [BurnTx]).
  - vm_compute. reflexivity.
  - left.
Qed.

(** C6, amended. In [processWalletCompletely] the transactions are
    submitted in the order: the closes (discovery and closing), then the
    burns of the pass over the remaining tokens, then the transfer of the
    remaining balance. A close transaction is the close of the account,
    preceded, exactly when the account as looked up has a data of at
    least 165 bytes and holds tokens, by the burn of [Number(balance)]:
    the balance itself below 2 ^ 53, the nearest double above. A close
    whose lookups answer submits that transaction. In the pass over the
    remaining tokens, an account that is looked up with at least 165
    bytes and a positive balance has a burn of exactly that balance
    submitted, once the blockhash query has answered; an account that is
    not found, is shorter or holds nothing is looked up and left alone.
    Both hold of the pipeline as a whole: among what
    [processWalletCompletely] has submitted are the close transaction of
    every listed token account that holds lamports, once the loop has got
    to it and its lookups have answered, and, of every token account
    listed again after the closes and still found with a balance, the
    burn of exactly that balance. *)
Theorem pipeline_submits_closes_then_burns_then_sweep
        {W : Type} (h : Host) (c : Connection W) (walletIndex : Z) (s : RentCollector.t W) :
  (exists closes burns transfers : nat,
      submissions (RentCollector.trace (RentCollector.processWalletCompletely h c walletIndex s).2)
      = submissions (RentCollector.trace s) ++
        replicate closes CloseTx ++ replicate burns BurnTx ++ replicate transfers TransferTx) /\
  (forall tokenAccountPubkey ownerKeypair destinationPubkey accountInfo,
      exists programId,
        RentCollector.closeInstructions tokenAccountPubkey ownerKeypair destinationPubkey
          accountInfo
        = [CloseAccount tokenAccountPubkey destinationPubkey (kp_publicKey ownerKeypair)
                        programId]
        \/ exists mint amount,
            0 < amount /\
            RentCollector.closeInstructions tokenAccountPubkey ownerKeypair destinationPubkey
              accountInfo
            = [Burn tokenAccountPubkey mint (kp_publicKey ownerKeypair) amount programId;
               CloseAccount tokenAccountPubkey destinationPubkey (kp_publicKey ownerKeypair)
                            programId]) /\
  (forall tokenAccountPubkey ownerKeypair destinationPubkey info,
      165 <= Z.of_nat (length (data info)) ->
      0 < readBigUInt64LE 64 (data info) ->
      let programId := if String.eqb (owner info) TOKEN_2022_PROGRAM_ID
                       then TOKEN_2022_PROGRAM_ID else TOKEN_PROGRAM_ID in
      RentCollector.closeInstructions tokenAccountPubkey ownerKeypair destinationPubkey
        (Some info)
      = [Burn tokenAccountPubkey (take 32 (data info)) (kp_publicKey ownerKeypair)
              (Number_of_bigint (readBigUInt64LE 64 (data info))) programId;
         CloseAccount tokenAccountPubkey destinationPubkey (kp_publicKey ownerKeypair)
                      programId] /\
      0 < Number_of_bigint (readBigUInt64LE 64 (data info)) /\
      (readBigUInt64LE 64 (data info) < 2 ^ 53 ->
       Number_of_bigint (readBigUInt64LE 64 (data info))
       = readBigUInt64LE 64 (data info))) /\
  (forall tokenAccountPubkey ownerKeypair destinationPubkey accountInfo,
      match accountInfo with
      | None => True
      | Some info => Z.of_nat (length (data info)) < 165 \/
                     readBigUInt64LE 64 (data info) <= 0
      end ->
      exists programId,
        RentCollector.closeInstructions tokenAccountPubkey ownerKeypair destinationPubkey
          accountInfo
        = [CloseAccount tokenAccountPubkey destinationPubkey (kp_publicKey ownerKeypair)
                        programId]) /\
  (forall tokenAccountPubkey ownerKeypair destinationPubkey s1 feePayer' accountInfo w1
          blockhash w2,
      RentCollector.feePayerKeypair s1 = Some feePayer' ->
      getAccountInfo c tokenAccountPubkey (RentCollector.world s1) = (Ok accountInfo, w1) ->
      getLatestBlockhash c w1 = (Ok blockhash, w2) ->
      {| instructions :=
           RentCollector.closeInstructions tokenAccountPubkey ownerKeypair
             destinationPubkey accountInfo;
         feePayer := kp_publicKey feePayer'; recentBlockhash := blockhash |}
        ∈ submitted (RentCollector.trace
                       (RentCollector.closeTokenAccount c tokenAccountPubkey ownerKeypair
                          destinationPubkey s1).2)) /\
  (forall walletKeypair feePayer' acc tokenAccount s1 info w1 blockhash w2,
      getAccountInfo c (pubkey tokenAccount) (RentCollector.world s1) = (Ok (Some info), w1) ->
      165 <= Z.of_nat (length (data info)) ->
      0 < readBigUInt64LE 64 (data info) ->
      getLatestBlockhash c w1 = (Ok blockhash, w2) ->
      {| instructions :=
           [Burn (pubkey tokenAccount) (take 32 (data info)) (kp_publicKey walletKeypair)
                 (readBigUInt64LE 64 (data info))
                 (if String.eqb (owner (account tokenAccount)) TOKEN_2022_PROGRAM_ID
                  then TOKEN_2022_PROGRAM_ID else TOKEN_PROGRAM_ID)];
         feePayer := kp_publicKey feePayer'; recentBlockhash := blockhash |}
        ∈ submitted (RentCollector.trace
                       (RentCollector.burnStep c walletKeypair feePayer' acc tokenAccount
                          s1).2)) /\
  (forall walletKeypair feePayer' acc tokenAccount s1 accountInfo w1,
      getAccountInfo c (pubkey tokenAccount) (RentCollector.world s1) = (Ok accountInfo, w1) ->
      match accountInfo with
      | None => True
      | Some info => Z.of_nat (length (data info)) < 165 \/
                     readBigUInt64LE 64 (data info) <= 0
      end ->
      RentCollector.burnStep c walletKeypair feePayer' acc tokenAccount s1
      = (Ok acc,
         {| RentCollector.world := w1;
            RentCollector.walletManager := RentCollector.walletManager s1;
            RentCollector.feePayerKeypair := RentCollector.feePayerKeypair s1;
            RentCollector.trace :=
              RentCollector.trace s1 ++ [Called (GetAccountInfo (pubkey tokenAccount))] |})) /\
  (forall feePayer' stored pub before tokenAccount after s0 acc0 s1 r w1 accountInfo w2
          blockhash w3,
      RentCollector.feePayerKeypair s = Some feePayer' ->
      RentCollector.walletAt walletIndex (RentCollector.walletManager s) = Some stored ->
      fromSecretKey h (privateKey stored) = Ok pub ->
      let keypair := {| secretKey := privateKey stored; kp_publicKey := pub |} in
      RentCollector.getTokenAccounts c pub s = (Ok (before ++ tokenAccount :: after), s0) ->
      foldM (RentCollector.closeStep c keypair) before (0, 0) s0 = (Ok acc0, s1) ->
      0 < lamports (account tokenAccount) ->
      getMinimumBalanceForRentExemption c (Z.of_nat (length (data (account tokenAccount))))
        (RentCollector.world s1) = (Ok r, w1) ->
      getAccountInfo c (pubkey tokenAccount) w1 = (Ok accountInfo, w2) ->
      getLatestBlockhash c w2 = (Ok blockhash, w3) ->
      {| instructions :=
           RentCollector.closeInstructions (pubkey tokenAccount) keypair
             (kp_publicKey feePayer') accountInfo;
         feePayer := kp_publicKey feePayer'; recentBlockhash := blockhash |}
        ∈ submitted (RentCollector.trace
                       (RentCollector.processWalletCompletely h c walletIndex s).2)) /\
  (forall feePayer' stored pub closed s1 before tokenAccount after s2 acc0 s3 info w1
          blockhash w2,
      RentCollector.feePayerKeypair s = Some feePayer' ->
      RentCollector.walletAt walletIndex (RentCollector.walletManager s) = Some stored ->
      fromSecretKey h (privateKey stored) = Ok pub ->
      let keypair := {| secretKey := privateKey stored; kp_publicKey := pub |} in
      RentCollector.closePhase c keypair s = (Ok closed, s1) ->
      RentCollector.getTokenAccounts c pub s1 = (Ok (before ++ tokenAccount :: after), s2) ->
      foldM (RentCollector.burnStep c keypair feePayer') before
            {| RentCollector.tokensBurned := 0; RentCollector.totalTokensBurned := 0 |} s2
      = (Ok acc0, s3) ->
      getAccountInfo c (pubkey tokenAccount) (RentCollector.world s3) = (Ok (Some info), w1) ->
      165 <= Z.of_nat (length (data info)) ->
      0 < readBigUInt64LE 64 (data info) ->
      getLatestBlockhash c w1 = (Ok blockhash, w2) ->
      {| instructions :=
           [Burn (pubkey tokenAccount) (take 32 (data info)) pub
                 (readBigUInt64LE 64 (data info))
                 (if String.eqb (owner (account tokenAccount)) TOKEN_2022_PROGRAM_ID
                  then TOKEN_2022_PROGRAM_ID else TOKEN_PROGRAM_ID)];
         feePayer := kp_publicKey feePayer'; recentBlockhash := blockhash |}
        ∈ submitted (RentCollector.trace
                       (RentCollector.processWalletCompletely h c walletIndex s).2)).
Proof.
  split; [|split; [apply closeInstructions_shape
                  |split; [apply closeInstructions_burns
                          |split; [apply closeInstructions_closes_only
                                  |split; [apply closeTokenAccount_submits
                                          |split; [apply burnStep_submits
                                                  |split; [apply burnStep_skips|]]]]]]].
  2:{ split; [apply pipeline_submits_close | apply pipeline_submits_burn]. }
  assert (Hnone : forall tr : list Event,
             exists closes burns transfers : nat,
               submissions tr
               = submissions tr ++ replicate closes CloseTx ++ replicate burns BurnTx ++
                 replicate transfers TransferTx).
  { intros tr. exists 0%nat, 0%nat, 0%nat. simpl. rewrite app_nil_r. reflexivity. }
  unfold RentCollector.processWalletCompletely, bind, gets. simpl.
  destruct (RentCollector.feePayerKeypair s) as [fp|]; [|apply Hnone].
  destruct (RentCollector.walletAt walletIndex _) as [wallet|]; [|apply Hnone].
  unfold RentCollector.keypairFromSecretKey.
  destruct (fromSecretKey h (privateKey wallet)) as [pub|e]; [|apply Hnone].
  simpl. set (keypair := {| secretKey := privateKey wallet; kp_publicKey := pub |}).
  destruct (respects_closePhase c keypair s) as (_ & _ & tr1 & Ht1 & HP1).
  apply inPhase_submissions in HP1.
  destruct (RentCollector.closePhase c keypair s) as [[closed|e] s1]; simpl in *.
  2:{ exists (length (submitted tr1)), 0%nat, 0%nat.
      rewrite Ht1, submissions_app, HP1. simpl. rewrite app_nil_r. reflexivity. }
  destruct (respects_burnAllTokens c keypair s1) as (_ & _ & tr2 & Ht2 & HP2).
  apply inPhase_submissions in HP2.
  destruct (RentCollector.burnAllTokens c keypair s1) as [[burned|e] s2]; simpl in *.
  2:{ exists (length (submitted tr1)), (length (submitted tr2)), 0%nat.
      rewrite Ht2, Ht1, !submissions_app, HP1, HP2. simpl.
      rewrite app_nil_r, <- app_assoc. reflexivity. }
  destruct (respects_sweepPhase c keypair s2) as (_ & _ & tr3 & Ht3 & HP3).
  apply inPhase_submissions in HP3.
  exists (length (submitted tr1)), (length (submitted tr2)), (length (submitted tr3)).
  destruct (RentCollector.sweepPhase c keypair s2) as [[sol|e] s3]; simpl in *;
    rewrite Ht3, Ht2, Ht1, !submissions_app, HP1, HP2, HP3, <- !app_assoc; reflexivity.
Qed.

(** * Further properties of the code *)

(** ** Parsing a wallet file *)

Section ParseFacts.
Import WalletManager.

Lemma looksLikePrivateKey_length line :
  looksLikePrivateKey line = true <-> 80 <= Js.length line <= 90.
Proof. unfold looksLikePrivateKey. lia. Qed.

Lemma looksLikeAddress_length line :
  looksLikeAddress line = true <-> 40 <= Js.length line <= 50.
Proof. unfold looksLikeAddress. lia. Qed.

Lemma parseLine_keeps (lines : list string) st line :
  line ∈ lines ->
  Forall (fun k => looksLikePrivateKey k = true /\ k ∈ lines) (privateKeys st) ->
  Forall (fun a => looksLikeAddress a = true /\ a ∈ lines) (walletAddresses st) ->
  Forall (fun k => looksLikePrivateKey k = true /\ k ∈ lines) (privateKeys (parseLine st line)) /\
  Forall (fun a => looksLikeAddress a = true /\ a ∈ lines)
         (walletAddresses (parseLine st line)).
Proof.
  intros Hline Hk Ha. unfold parseLine.
  destruct (isSectionHeader line); [split; assumption|].
  destruct (String.eqb (currentSection st) "PRIVATE KEYS:").
  { destruct (looksLikePrivateKey line) eqn:Hl; [|split; assumption].
    simpl. split; [|assumption]. apply Forall_app. split; [assumption|].
    repeat constructor; assumption. }
  destruct (String.eqb (currentSection st) "WALLET ADDRESSES:").
  { destruct (looksLikeAddress line) eqn:Hl; [|split; assumption].
    simpl. split; [assumption|]. apply Forall_app. split; [assumption|].
    repeat constructor; assumption. }
  destruct (String.eqb (currentSection st) "PRIVATE KEYS / ADDRESS:"); [|split; assumption].
  destruct (looksLikePrivateKey line) eqn:Hl.
  { simpl. split; [|assumption]. apply Forall_app. split; [assumption|].
    repeat constructor; assumption. }
  destruct (looksLikeAddress line) eqn:Hl'; simpl; [|split; assumption].
  destruct (0 <? _); simpl; [|split; assumption].
  split; [assumption|]. apply Forall_app. split; [assumption|].
  repeat constructor; assumption.
Qed.

Lemma parse_fold_keeps (lines seen : list string) st :
  seen ⊆ lines ->
  Forall (fun k => looksLikePrivateKey k = true /\ k ∈ lines) (privateKeys st) ->
  Forall (fun a => looksLikeAddress a = true /\ a ∈ lines) (walletAddresses st) ->
  Forall (fun k => looksLikePrivateKey k = true /\ k ∈ lines)
         (privateKeys (foldl parseLine st seen)) /\
  Forall (fun a => looksLikeAddress a = true /\ a ∈ lines)
         (walletAddresses (foldl parseLine st seen)).
Proof.
  revert st. induction seen as [|line seen IH]; intros st Hsub Hk Ha; simpl.
  - split; assumption.
  - destruct (parseLine_keeps lines st line) as [Hk' Ha']; try assumption.
    + apply Hsub. left.
    + apply IH; try assumption. intros x Hx. apply Hsub. right. exact Hx.
Qed.
End ParseFacts.

(** X1. Whatever the content of a wallet file and whichever of the two
    formats it is read in, every candidate secret is one of its lines with
    the white space around it removed and is 80 to 90 characters long, and
    every address kept with the secrets is such a line of 40 to 50
    characters. *)
Theorem parsed_candidates_are_trimmed_lines (content : string) :
  (forall key, key ∈ (WalletManager.parseContent content).1 ->
               80 <= Js.length key <= 90 /\
               key ∈ Js.trim <$> Js.split "010"%char content) /\
  (forall address, address ∈ (WalletManager.parseContent content).2 ->
                   40 <= Js.length address <= 50 /\
                   address ∈ Js.trim <$> Js.split "010"%char content).
Proof.
  unfold WalletManager.parseContent.
  set (lines := filter (fun line => 0 < Js.length line)
                       (Js.trim <$> Js.split "010"%char content)).
  assert (Hlines : forall x, x ∈ lines -> x ∈ Js.trim <$> Js.split "010"%char content).
  { intros x Hx. apply list_elem_of_filter in Hx. apply Hx. }
  destruct (_ || _).
  - destruct (parse_fold_keeps lines lines
                {| WalletManager.currentSection := ""; WalletManager.privateKeys := [];
                   WalletManager.walletAddresses := [] |})
      as [Hk Ha]; [intros x Hx; exact Hx | constructor | constructor |].
    simpl. rewrite Forall_forall in Hk, Ha. split.
    + intros key Hkey. destruct (Hk key Hkey) as [Hlen Hin].
      split; [apply looksLikePrivateKey_length, Hlen | apply Hlines, Hin].
    + intros address Haddr. destruct (Ha address Haddr) as [Hlen Hin].
      split; [apply looksLikeAddress_length, Hlen | apply Hlines, Hin].
  - simpl. split.
    + intros key Hkey. apply list_elem_of_filter in Hkey as [Hlen Hin].
      split; [apply looksLikePrivateKey_length, Hlen | apply Hlines, Hin].
    + intros address Haddr. inversion Haddr.
Qed.

Lemma parsed_candidates_are_trimmed_lines_witness :
  80 <= Js.length (demoKey "C") <= 90 /\
  demoKey "C" ∈ Js.trim <$> Js.split "010"%char
                  ("PRIVATE KEYS:" +:+ newline +:+ demoKey "B" +:+ newline +:+
                   "  " +:+ demoKey "C" +:+ newline).
Proof.
  apply (parsed_candidates_are_trimmed_lines
           ("PRIVATE KEYS:" +:+ newline +:+ demoKey "B" +:+ newline +:+
            "  " +:+ demoKey "C" +:+ newline)).
  vm_compute. right. left.
Defined.

(** ** Loads that fail, loads that bring nothing new, loads of new secrets *)

(** X2. A load throws either before the store is looked at (file missing,
    unreadable or without a candidate secret), and the store is as it was,
    or because a candidate secret does not decode; in that case a load
    with [clearExisting] has already emptied the store, and leaves it
    empty. *)
Theorem failed_load_leaves_or_empties_store
        (h : Host) (filePath : string) (clearExisting : bool) (wallets : WalletManager.t)
        (e : JsError) :
  (WalletManager.loadWalletsFromFile h filePath clearExisting wallets).1 = Throw e ->
  (WalletManager.readPrivateKeys h filePath = Throw e /\
   (WalletManager.loadWalletsFromFile h filePath clearExisting wallets).2 = wallets) \/
  (exists keys,
      WalletManager.readPrivateKeys h filePath = Ok keys /\
      derived h keys = Throw e /\
      (WalletManager.loadWalletsFromFile h filePath clearExisting wallets).2
      = if clearExisting then [] else wallets).
Proof.
  unfold WalletManager.loadWalletsFromFile.
  destruct (WalletManager.readPrivateKeys h filePath) as [keys|e'].
  - pose proof (dedupKeys_outcome h keys
                  (WalletManager.seedUnique (if clearExisting then [] else wallets))) as Hout.
    destruct (derived h keys) as [pubs|e'] eqn:Hderived.
    + destruct Hout as [m ->]. cbn. intros [=].
    + rewrite Hout. simpl. intros [= ->]. right. exists keys. auto.
  - simpl. intros [= ->]. left. auto.
Qed.

Lemma failed_load_leaves_or_empties_store_witness :
  (WalletManager.loadWalletsFromFile pickyHost "b.txt" true demoStore).2 = [] /\
  (WalletManager.loadWalletsFromFile pickyHost "b.txt" false demoStore).2 = demoStore /\
  (WalletManager.loadWalletsFromFile pickyHost "missing.txt" true demoStore).2 = demoStore.
Proof.
  pose proof (failed_load_leaves_or_empties_store pickyHost "b.txt" true demoStore
                (Error "Invalid private key: Error: bad secret key size")
                ltac:(vm_compute; reflexivity)) as H.
  split; [|split; vm_compute; reflexivity].
  destruct H as [[Hread _] | (keys & _ & _ & Hstore)]; [|exact Hstore].
  vm_compute in Hread. discriminate Hread.
Defined.

Section LoadShape.
Context (h : Host).

Lemma load_shape filePath (wallets ws : WalletManager.t) :
  NoDup (identities wallets) ->
  (WalletManager.loadWalletsFromFile h filePath false wallets).1 = Ok ws ->
  exists added, ws = (refiled <$> wallets) ++ added.
Proof.
  intros Hnd Hload. apply load_success in Hload as (keys & m & _ & Hrun & -> & _).
  apply dedupKeys_prefix in Hrun as [extra ->].
  unfold WalletManager.seedUnique. rewrite (seed_from_NoDup_store wallets []) by exact Hnd.
  unfold Js.map_values. rewrite app_nil_l, !fmap_app, <- !list_fmap_compose.
  eexists. reflexivity.
Qed.

Lemma seedUnique_NoDup_store (wallets : WalletManager.t) :
  NoDup (identities wallets) ->
  WalletManager.seedUnique wallets
  = (fun w => (publicKey w, {| WalletManager.kp_privateKey := privateKey w;
                               WalletManager.kp_publicKey := publicKey w |})) <$> wallets.
Proof.
  intros Hnd. unfold WalletManager.seedUnique.
  rewrite (seed_from_NoDup_store wallets []) by exact Hnd. reflexivity.
Qed.

Lemma dedupKeys_fresh keys : forall pubs (m : Js.Map WalletManager.KeyPairStrings),
  Forall (entryDerived h) m ->
  derived h keys = Ok pubs -> NoDup pubs ->
  (forall x, x ∈ pubs -> x ∉ Js.map_keys m) ->
  WalletManager.dedupKeys h keys m
  = Ok (m ++ ((fun kp => (kp.2, {| WalletManager.kp_privateKey := kp.1;
                                   WalletManager.kp_publicKey := kp.2 |})) <$> zip keys pubs)).
Proof.
  induction keys as [|key keys IH]; intros pubs m Hm; cbn [derived WalletManager.dedupKeys].
  - intros [= <-] _ _. rewrite app_nil_r. reflexivity.
  - destruct (fromSecretKey h key) as [pub|e] eqn:Hkey; [|discriminate].
    destruct (derived h keys) as [pubs'|e] eqn:Hrest; [|discriminate].
    intros [= <-] Hnd Hfresh. apply NoDup_cons in Hnd as [Hpub Hnd].
    assert (Habsent : pub ∉ Js.map_keys m) by (apply Hfresh; left).
    rewrite (proj2 (map_has_not_elem pub m) Habsent).
    assert (Hsecret : existsb (fun w => String.eqb (WalletManager.kp_privateKey w) key)
                              (Js.map_values m) = false).
    { apply not_true_is_false. intros Hex. apply existsb_exists in Hex as (v & Hv & Heq).
      apply String.eqb_eq in Heq. unfold Js.map_values in Hv.
      apply list_elem_of_In, list_elem_of_fmap in Hv as ([k v'] & -> & Hkv).
      rewrite Forall_forall in Hm. specialize (Hm _ Hkv). unfold entryDerived in Hm.
      simpl in Hm, Heq. rewrite Heq, Hkey in Hm. injection Hm as <-.
      apply Habsent. unfold Js.map_keys. apply list_elem_of_fmap.
      exists (pub, v'). split; [reflexivity | exact Hkv]. }
    rewrite Hsecret, (map_set_absent _ _ _ Habsent).
    rewrite (IH pubs').
    + cbn [zip zip_with]. rewrite fmap_cons, <- app_assoc. reflexivity.
    + apply Forall_app. split; [exact Hm|]. constructor; [exact Hkey | constructor].
    + reflexivity.
    + exact Hnd.
    + intros x Hx. unfold Js.map_keys. rewrite fmap_app. intros Hin.
      apply elem_of_app in Hin as [Hin | Hin].
      * apply (Hfresh x); [right; exact Hx | exact Hin].
      * apply list_elem_of_singleton in Hin. simpl in Hin. subst x. contradiction.
Qed.
End LoadShape.

(** X3. Loading a file whose secrets all belong to wallets already in a
    store without duplicates adds nothing and moves nothing: the store
    holds the same secrets and identities in the same order, every
    record with its discovery fields put back to zero. *)
Theorem load_of_known_secrets_only_resets
        (h : Host) (filePath : string) (wallets ws : WalletManager.t) :
  storeDerived h wallets ->
  NoDup (identities wallets) ->
  (forall x, x ∈ identitiesOf h filePath -> x ∈ identities wallets) ->
  (WalletManager.loadWalletsFromFile h filePath false wallets).1 = Ok ws ->
  ws = refiled <$> wallets.
Proof.
  intros Hst Hnd Hknown Hload.
  destruct (load_shape h filePath wallets ws Hnd Hload) as [added Hws].
  assert (Hlen : (length ws <= length wallets)%nat).
  { rewrite <- (length_fmap publicKey ws), <- (length_fmap publicKey wallets).
    apply submseteq_length, NoDup_submseteq.
    - apply (load_success_NoDup h filePath false wallets ws Hload).
    - intros x Hx.
      destruct (load_identities h filePath wallets Hst) as [_ Hids].
      apply load_success in Hload as (_ & _ & _ & _ & _ & Hstore).
      rewrite Hstore in Hids. apply Hids in Hx as [Hx | Hx]; [exact Hx | auto]. }
  rewrite Hws, length_app, length_fmap in Hlen.
  destruct added; [rewrite Hws, app_nil_r; reflexivity | simpl in Hlen; lia].
Qed.

Lemma load_of_known_secrets_only_resets_witness :
  (WalletManager.loadWalletsFromFile demoHost "a.txt" false demoStore).2 = refiled <$> demoStore.
Proof.
  apply (load_of_known_secrets_only_resets demoHost "a.txt" demoStore);
    [| | |vm_compute; reflexivity].
  - repeat constructor.
  - apply (bool_decide_unpack _). vm_compute. reflexivity.
  - apply (proj1 (Forall_forall (fun x => x ∈ identities demoStore) _)).
    apply (bool_decide_unpack _). vm_compute. reflexivity.
Defined.

(** X4. Loading a file whose secrets decode to distinct identities, none of
    them in the store, succeeds and appends one record per secret, in the
    order of the file, after the records of the store. *)
Theorem load_of_new_secrets_appends_in_file_order
        (h : Host) (filePath : string) (wallets : WalletManager.t) (keys pubs : list string) :
  storeDerived h wallets ->
  NoDup (identities wallets) ->
  WalletManager.readPrivateKeys h filePath = Ok keys ->
  derived h keys = Ok pubs ->
  NoDup pubs ->
  (forall x, x ∈ pubs -> x ∉ identities wallets) ->
  WalletManager.loadWalletsFromFile h filePath false wallets
  = (Ok ((refiled <$> wallets) ++ ((fun kp => filed kp.1 kp.2) <$> zip keys pubs)),
     (refiled <$> wallets) ++ ((fun kp => filed kp.1 kp.2) <$> zip keys pubs)).
Proof.
  intros Hst Hnd Hread Hderived Hdistinct Hnew.
  unfold WalletManager.loadWalletsFromFile. rewrite Hread.
  rewrite (dedupKeys_fresh h keys pubs).
  - rewrite seedUnique_NoDup_store by exact Hnd.
    unfold Js.map_values. cbn zeta.
    rewrite !fmap_app, <- !list_fmap_compose. reflexivity.
  - apply seedUnique_entryDerived. exact Hst.
  - exact Hderived.
  - exact Hdistinct.
  - intros x Hx Hin. apply seedUnique_keys in Hin. exact (Hnew x Hx Hin).
Qed.

Lemma load_of_new_secrets_appends_in_file_order_witness :
  WalletManager.getWalletCount
    (WalletManager.loadWalletsFromFile widerHost "c.txt" false demoStore).2 = 4 /\
  identities (WalletManager.loadWalletsFromFile widerHost "c.txt" false demoStore).2
  = identities demoStore ++ [String.substring 0 44 (demoKey "C");
                             String.substring 0 44 (demoKey "D")].
Proof.
  rewrite (load_of_new_secrets_appends_in_file_order widerHost "c.txt" demoStore
             [demoKey "C"; demoKey "D"]
             [String.substring 0 44 (demoKey "C"); String.substring 0 44 (demoKey "D")]).
  - split; vm_compute; reflexivity.
  - repeat constructor.
  - apply (bool_decide_unpack _). vm_compute. reflexivity.
  - vm_compute. reflexivity.
  - vm_compute. reflexivity.
  - apply (bool_decide_unpack _). vm_compute. reflexivity.
  - apply (proj1 (Forall_forall (fun x => x ∉ identities demoStore) _)).
    apply (bool_decide_unpack _). vm_compute. reflexivity.
Defined.

(** ** Retrying *)

Section RetryFacts.
Context {W : Type} (c : Connection W).
Import RentCollector.


Lemma retryLoop_rethrows {A} (fn : M (t W) A) (P : JsError -> Prop) maxRetries baseDelay :
  (forall s e s', fn s = (Throw e, s') -> P e) ->
  forall n attempt s e s',
    attempt + Z.of_nat n = maxRetries + 1 -> (0 < n)%nat ->
    retryLoop c fn maxRetries baseDelay n attempt s = (Throw e, s') -> P e.
Proof.
  intros Hfn. induction n as [|n IH]; intros attempt s e s' Hsum Hpos; [lia|].
  cbn [retryLoop]. unfold try_catch.
  destruct (fn s) as [[v|e0] s0] eqn:Hrun; [discriminate|].
  destruct (Z.eqb_spec attempt maxRetries) as [Hlast|Hmore].
  - intros [= <- _]. eapply Hfn, Hrun.
  - destruct (isRateLimit e0); [|intros [= <- _]; eapply Hfn, Hrun].
    unfold bind, sleep. apply IH; lia.
Qed.

End RetryFacts.

(** X5. With a non-negative [maxRetries], an error thrown by
    [retryWithBackoff] is an error the retried function threw: the
    throw of [Max retries exceeded] after the loop is never reached. With
    a negative [maxRetries] the function is not called at all and that
    error is what is thrown. *)
Theorem retry_throws_what_the_call_threw
        {W A : Type} (c : Connection W) (fn : M (RentCollector.t W) A)
        (maxRetries baseDelay : Z) (P : JsError -> Prop) :
  (forall s e s', fn s = (Throw e, s') -> P e) ->
  (0 <= maxRetries ->
   forall s e s', RentCollector.retryWithBackoff c fn maxRetries baseDelay s = (Throw e, s') ->
                  P e) /\
  (maxRetries < 0 ->
   forall s, RentCollector.retryWithBackoff c fn maxRetries baseDelay s
             = (Throw (Error "Max retries exceeded"), s)).
Proof.
  intros Hfn. unfold RentCollector.retryWithBackoff. split.
  - intros Hmax s e s'.
    apply (retryLoop_rethrows c fn P maxRetries baseDelay Hfn); lia.
  - intros Hneg s. replace (Z.to_nat (maxRetries + 1)) with 0%nat by lia. reflexivity.
Qed.

Lemma retry_throws_what_the_call_threw_witness :
  RentCollector.isRateLimit (Error "Transaction simulation failed") = false /\
  forall e s',
    RentCollector.retryWithBackoff (scripted rejecting)
      (RentCollector.remote (SendAndConfirmTransaction demoTransfer [feePayerDemo])
         (sendAndConfirmTransaction (scripted rejecting) demoTransfer [feePayerDemo]))
      3 1000 (collectorDemo []) = (Throw e, s') ->
    e = Error "Transaction simulation failed".
Proof.
  split; [reflexivity|].
  intros e s'.
  refine (proj1 (retry_throws_what_the_call_threw (scripted rejecting) _ 3 1000
                   (fun e => e = Error "Transaction simulation failed") _)
                ltac:(lia) (collectorDemo []) e s').
  intros s0 e0 s0'. unfold RentCollector.remote. cbn. intros [= <- _]. reflexivity.
Defined.



(** ** What a close and a transfer report *)

Section OutcomeFacts.
Context {W : Type} (c : Connection W).
Import RentCollector.

(** A retried remote call that answers has been made. *)
Lemma retry_answer_called {A} call (f : W -> Result A * W) s v s' :
  retryWithBackoff_default c (remote call f) s = (Ok v, s') ->
  exists tr, trace s' = trace s ++ Called call :: tr.
Proof.
  intros Hrun. destruct (retry_calls_first c call f s) as [tr Htr].
  rewrite Hrun in Htr. exists tr. exact Htr.
Qed.

Lemma closeTokenAccount_outcome tokenAccountPubkey ownerKeypair destinationPubkey s :
  exists r s',
    closeTokenAccount c tokenAccountPubkey ownerKeypair destinationPubkey s = (Ok r, s') /\
    (feePayerKeypair s = None ->
     s' = s /\ r = {| cr_success := false; cr_rentRecovered := 0;
                      cr_error := Some "Fee payer not set" |}) /\
    (cr_success r = false -> cr_rentRecovered r = 0 /\ cr_error r <> None) /\
    (cr_success r = true ->
     cr_error r = None /\
     exists accountInfo w1 feePayer' blockhash signers before after,
       getAccountInfo c tokenAccountPubkey (world s) = (Ok accountInfo, w1) /\
       feePayerKeypair s = Some feePayer' /\
       cr_rentRecovered r = match accountInfo with Some info => lamports info | None => 0 end /\
       trace s'
       = trace s ++ before ++
         Called (SendAndConfirmTransaction
                   {| instructions := closeInstructions tokenAccountPubkey ownerKeypair
                                        destinationPubkey accountInfo;
                      feePayer := kp_publicKey feePayer'; recentBlockhash := blockhash |}
                   signers) :: after).
Proof.
  unfold closeTokenAccount, try_catch, bind at 1, gets.
  destruct (feePayerKeypair s) as [feePayer'|] eqn:Hfp; cbn beta iota.
  2:{ eexists _, _. split; [reflexivity|]. cbn.
      repeat split; try discriminate; auto. }
  unfold bind at 1. unfold remote at 1.
  destruct (getAccountInfo c tokenAccountPubkey (world s)) as [[accountInfo|e] w1] eqn:Hinfo;
    cbn beta iota.
  2:{ eexists _, _. split; [reflexivity|]. cbn. repeat split; try discriminate. }
  unfold bind at 1. unfold remote at 1. cbn [world].
  destruct (getLatestBlockhash c w1) as [[blockhash|e] w2] eqn:Hbh; cbn beta iota.
  2:{ eexists _, _. split; [reflexivity|]. cbn. repeat split; try discriminate. }
  unfold bind at 1.
  match goal with
  | |- context [retryWithBackoff_default c (remote ?call ?f) ?s1] =>
      pose proof (retry_answer_called call f s1) as Hcalled;
      destruct (retryWithBackoff_default c (remote call f) s1) as [[sig|e] s2]
  end.
  - eexists _, _. split; [reflexivity|]. cbn.
    split; [discriminate|]. split; [discriminate|]. intros _. split; [reflexivity|].
    destruct (Hcalled sig s2 eq_refl) as [tr Htr].
    exists accountInfo, w1, feePayer', blockhash, [ownerKeypair; feePayer'].
    eexists [_; _], tr. repeat split. cbn in Htr. rewrite Htr, <- !app_assoc. reflexivity.
  - eexists _, _. split; [reflexivity|]. cbn. repeat split; try discriminate.
Qed.

Lemma transferSolToFeePayer_outcome fromKeypair amount s :
  exists r s',
    transferSolToFeePayer c fromKeypair amount s = (Ok r, s') /\
    (feePayerKeypair s = None \/ amount <= 0 -> s' = s /\ tr_success r = false) /\
    tr_amountTransferred r = (if tr_success r then amount else 0) /\
    (tr_success r = false -> tr_error r <> None) /\
    (tr_success r = true ->
     0 < amount /\ tr_error r = None /\
     exists feePayer' blockhash signers before after,
       feePayerKeypair s = Some feePayer' /\
       trace s'
       = trace s ++ before ++
         Called (SendAndConfirmTransaction
                   {| instructions :=
                        [Transfer (kp_publicKey fromKeypair) (kp_publicKey feePayer') amount];
                      feePayer := kp_publicKey feePayer'; recentBlockhash := blockhash |}
                   signers) :: after).
Proof.
  unfold transferSolToFeePayer, try_catch, bind at 1, gets.
  destruct (feePayerKeypair s) as [feePayer'|] eqn:Hfp; cbn beta iota zeta.
  2:{ eexists _, _. split; [reflexivity|]. cbn. repeat split; try discriminate. }
  destruct (Z.leb_spec amount 0) as [Hle|Hpos].
  { eexists _, _. split; [reflexivity|]. cbn. repeat split; try discriminate. }
  unfold bind at 1. unfold remote at 1.
  destruct (getLatestBlockhash c (world s)) as [[blockhash|e] w1] eqn:Hbh; cbn beta iota.
  2:{ eexists _, _. split; [reflexivity|]. cbn.
      repeat split; try discriminate;
      try (intros [?|?]; [discriminate | lia]);
      try match goal with H : _ \/ _ |- _ => destruct H; [discriminate | lia] end. }
  unfold bind at 1.
  match goal with
  | |- context [retryWithBackoff_default c (remote ?call ?f) ?s1] =>
      pose proof (retry_answer_called call f s1) as Hcalled;
      destruct (retryWithBackoff_default c (remote call f) s1) as [[sig|e] s2]
  end.
  - eexists _, _. split; [reflexivity|]. cbn.
    split; [intros [?|?]; [discriminate | lia]|].
    split; [reflexivity|]. split; [discriminate|]. intros _.
    split; [exact Hpos|]. split; [reflexivity|].
    destruct (Hcalled sig s2 eq_refl) as [tr Htr].
    exists feePayer', blockhash, [fromKeypair; feePayer'].
    eexists [_], tr. split; [reflexivity|]. cbn in Htr. rewrite Htr, <- !app_assoc. reflexivity.
  - eexists _, _. split; [reflexivity|]. cbn.
    repeat split; try discriminate;
      try (intros [?|?]; [discriminate | lia]);
      try match goal with H : _ \/ _ |- _ => destruct H; [discriminate | lia] end.
Qed.
End OutcomeFacts.

(** X7. [closeTokenAccount] never throws and leaves the store and the
    fee payer as they are. Without a fee payer it calls nothing. When it reports a failure the rent recovered is 0 and an
    error text is given. When it reports a success, a transaction with
    the close instructions was submitted, and the rent recovered is the
    lamports the account held when it was looked up before the
    submission (0 when the ledger did not know the account), not an
    amount read after the close. *)
Theorem close_reports_balance_read_before_submission
        {W : Type} (c : Connection W)
        (tokenAccountPubkey : PublicKey) (ownerKeypair : Keypair)
        (destinationPubkey : PublicKey) (s : RentCollector.t W) :
  exists r s',
    RentCollector.closeTokenAccount c tokenAccountPubkey ownerKeypair destinationPubkey s
    = (Ok r, s') /\
    RentCollector.walletManager s' = RentCollector.walletManager s /\
    RentCollector.feePayerKeypair s' = RentCollector.feePayerKeypair s /\
    (RentCollector.feePayerKeypair s = None ->
     s' = s /\ r = {| RentCollector.cr_success := false; RentCollector.cr_rentRecovered := 0;
                      RentCollector.cr_error := Some "Fee payer not set" |}) /\
    (RentCollector.cr_success r = false ->
     RentCollector.cr_rentRecovered r = 0 /\ RentCollector.cr_error r <> None) /\
    (RentCollector.cr_success r = true ->
     RentCollector.cr_error r = None /\
     exists accountInfo w1 feePayer' blockhash signers before after,
       getAccountInfo c tokenAccountPubkey (RentCollector.world s) = (Ok accountInfo, w1) /\
       RentCollector.feePayerKeypair s = Some feePayer' /\
       RentCollector.cr_rentRecovered r
       = match accountInfo with Some info => lamports info | None => 0 end /\
       RentCollector.trace s'
       = RentCollector.trace s ++ before ++
         Called (SendAndConfirmTransaction
                   {| instructions :=
                        RentCollector.closeInstructions tokenAccountPubkey ownerKeypair
                          destinationPubkey accountInfo;
                      feePayer := kp_publicKey feePayer'; recentBlockhash := blockhash |}
                   signers) :: after).
Proof.
  destruct (closeTokenAccount_outcome c tokenAccountPubkey ownerKeypair destinationPubkey s)
    as (r & s' & Hrun & Hnone & Hfailure & Hsuccess).
  destruct (respects_closeTokenAccount c tokenAccountPubkey ownerKeypair destinationPubkey s)
    as (Hw & Hf & _).
  rewrite Hrun in Hw, Hf. cbn [snd] in Hw, Hf.
  exists r, s'. split; [exact Hrun|]. split; [exact Hw|]. split; [exact Hf|].
  split; [exact Hnone|]. split; [exact Hfailure | exact Hsuccess].
Qed.

(** X8. [transferSolToFeePayer] never throws and leaves the store and the
    fee payer as they are. Without a fee payer, or for an amount that is
    not positive, it calls nothing and reports a
    failure. The amount it reports is the amount asked for when it
    reports a success and 0 when it reports a failure; a success means
    that a transfer of exactly that amount from the wallet to the fee
    payer was submitted. *)
Theorem transfer_reports_all_or_nothing
        {W : Type} (c : Connection W) (fromKeypair : Keypair) (amount : Z)
        (s : RentCollector.t W) :
  exists r s',
    RentCollector.transferSolToFeePayer c fromKeypair amount s = (Ok r, s') /\
    RentCollector.walletManager s' = RentCollector.walletManager s /\
    RentCollector.feePayerKeypair s' = RentCollector.feePayerKeypair s /\
    (RentCollector.feePayerKeypair s = None \/ amount <= 0 ->
     s' = s /\ RentCollector.tr_success r = false) /\
    RentCollector.tr_amountTransferred r
    = (if RentCollector.tr_success r then amount else 0) /\
    (RentCollector.tr_success r = false -> RentCollector.tr_error r <> None) /\
    (RentCollector.tr_success r = true ->
     0 < amount /\ RentCollector.tr_error r = None /\
     exists feePayer' blockhash signers before after,
       RentCollector.feePayerKeypair s = Some feePayer' /\
       RentCollector.trace s'
       = RentCollector.trace s ++ before ++
         Called (SendAndConfirmTransaction
                   {| instructions :=
                        [Transfer (kp_publicKey fromKeypair) (kp_publicKey feePayer') amount];
                      feePayer := kp_publicKey feePayer'; recentBlockhash := blockhash |}
                   signers) :: after).
Proof.
  destruct (transferSolToFeePayer_outcome c fromKeypair amount s)
    as (r & s' & Hrun & Hnothing & Hamount & Hfailure & Hsuccess).
  destruct (respects_transferSolToFeePayer c fromKeypair amount s) as (Hw & Hf & _).
  rewrite Hrun in Hw, Hf. cbn [snd] in Hw, Hf.
  exists r, s'. split; [exact Hrun|]. split; [exact Hw|]. split; [exact Hf|].
  split; [exact Hnothing|]. split; [exact Hamount|].
  split; [exact Hfailure | exact Hsuccess].
Qed.

(** ** What the result of the pipeline is backed by *)

Lemma submitted_app tr1 tr2 : submitted (tr1 ++ tr2) = submitted tr1 ++ submitted tr2.
Proof. apply omap_app. Qed.

Lemma noSubmission_submitted tr : Forall noSubmission tr -> submitted tr = [].
Proof.
  induction 1 as [|e tr He _ IH]; [reflexivity|].
  destruct e as [call| |]; [destruct call|..]; try exact IH. destruct He.
Qed.

Lemma submitted_one before transaction signers after :
  (1 <= length (submitted (before ++ Called (SendAndConfirmTransaction transaction signers)
                                  :: after)))%nat.
Proof.
  rewrite submitted_app, length_app. unfold submitted at 2. cbn [omap]. simpl. lia.
Qed.

Section PipelineFacts.
Context {W : Type} (h : Host) (c : Connection W).
Import RentCollector.

Lemma closeStep_counts keypair acc tokenAccount s :
  exists tr,
    trace (closeStep c keypair acc tokenAccount s).2 = trace s ++ tr /\
    Forall (inPhase CloseTx) tr /\
    forall acc', (closeStep c keypair acc tokenAccount s).1 = Ok acc' ->
                 acc.1 <= acc'.1 <= acc.1 + Z.of_nat (length (submitted tr)).
Proof.
  destruct (respects_closeStep c keypair acc tokenAccount s) as (_ & _ & tr & Htr & HP).
  exists tr. split; [exact Htr|]. split; [exact HP|].
  revert Htr. unfold closeStep, calculateRentExemptBalance, feePayerPublicKey.
  cbn [truthyBuffer]. cbv zeta. unfold bind, remote, gets, sleep, ret, throw.
  destruct (getMinimumBalanceForRentExemption c _ (world s)) as [[r|e] w1]; cbn beta iota;
    [|discriminate].
  destruct (canCloseAccount _ _); [|intros _ acc' [= <-]; lia].
  cbn [feePayerKeypair].
  destruct (feePayerKeypair s) as [feePayer'|] eqn:Hfp; cbn beta iota; [|discriminate].
  match goal with
  | |- context [closeTokenAccount c ?pk ?kp ?dest ?s1] =>
      destruct (closeTokenAccount_outcome c pk kp dest s1)
        as (cr & s2 & -> & _ & _ & Hsuccess)
  end.
  cbn beta iota. cbn [trace].
  destruct (cr_success cr) eqn:Hcr.
  - destruct (Hsuccess eq_refl)
      as (_ & info & w1' & fp & blockhash & signers & before & after & _ & _ & _ & ->).
    cbn [trace]. rewrite <- !app_assoc. intros Htr acc' [= <-].
    apply app_inv_head in Htr. subst tr. cbn [fst].
    match goal with
    | |- context [Called (SendAndConfirmTransaction ?transaction ?sg) :: after] =>
        pose proof (submitted_one
                      ([Called (GetMinimumBalanceForRentExemption
                                  (Z.of_nat (length (data (account tokenAccount)))))]
                       ++ before)
                      transaction sg (after ++ [Slept 1000])) as Hone
    end.
    rewrite <- !app_assoc in Hone. cbn [app] in Hone |- *. lia.
  - intros _ acc' [= <-]. lia.
Qed.

Lemma closeLoop_counts keypair tokenAccounts : forall acc s,
  exists tr,
    trace (foldM (closeStep c keypair) tokenAccounts acc s).2 = trace s ++ tr /\
    Forall (inPhase CloseTx) tr /\
    forall acc', (foldM (closeStep c keypair) tokenAccounts acc s).1 = Ok acc' ->
                 acc.1 <= acc'.1 <= acc.1 + Z.of_nat (length (submitted tr)).
Proof.
  induction tokenAccounts as [|tokenAccount rest IH]; intros acc s; cbn [foldM].
  - exists []. rewrite app_nil_r. repeat split; [constructor | |]; injection H as <-; simpl; lia.
  - unfold bind.
    destruct (closeStep_counts keypair acc tokenAccount s) as (tr1 & Ht1 & HP1 & Hn1).
    destruct (closeStep c keypair acc tokenAccount s) as [[acc1|e] s1]; cbn [fst snd] in *.
    + destruct (IH acc1 s1) as (tr2 & Ht2 & HP2 & Hn2).
      exists (tr1 ++ tr2). rewrite Ht2, Ht1, <- app_assoc.
      split; [reflexivity|]. split; [apply Forall_app; auto|].
      intros acc' Hrun. specialize (Hn2 acc' Hrun). specialize (Hn1 acc1 eq_refl).
      rewrite submitted_app, length_app. lia.
    + exists tr1. repeat split; [exact Ht1 | exact HP1 | |]; discriminate.
Qed.

Lemma closePhase_counts keypair s :
  exists tr,
    trace (closePhase c keypair s).2 = trace s ++ tr /\
    Forall (inPhase CloseTx) tr /\
    forall closed, (closePhase c keypair s).1 = Ok closed ->
                   0 <= closed.1 <= Z.of_nat (length (submitted tr)).
Proof.
  unfold closePhase, bind.
  destruct (respects_getTokenAccounts c (kp_publicKey keypair) s) as (_ & _ & tr0 & Ht0 & HP0).
  destruct (getTokenAccounts c (kp_publicKey keypair) s) as [[tokenAccounts|e] s0];
    cbn [fst snd] in *.
  2:{ exists tr0. split; [exact Ht0|]. split; [|discriminate].
      eapply Forall_impl; [exact HP0 | apply noSubmission_inPhase]. }
  assert (HP0' : Forall (inPhase CloseTx) tr0)
    by (eapply Forall_impl; [exact HP0 | apply noSubmission_inPhase]).
  destruct (0 <? Z.of_nat (length tokenAccounts)).
  - destruct (closeLoop_counts keypair tokenAccounts (0, 0) s0) as (tr & Htr & HP & Hn).
    exists (tr0 ++ tr). rewrite Htr, Ht0, <- app_assoc.
    split; [reflexivity|]. split; [apply Forall_app; auto|].
    intros closed Hrun. specialize (Hn closed Hrun). cbn [fst] in Hn.
    rewrite submitted_app, length_app. lia.
  - exists tr0. split; [exact Ht0|]. split; [exact HP0'|].
    unfold ret. intros closed [= <-]. cbn [fst]. lia.
Qed.

Lemma sweepPhase_counts keypair s :
  exists tr,
    trace (sweepPhase c keypair s).2 = trace s ++ tr /\
    Forall (inPhase TransferTx) tr /\
    match (sweepPhase c keypair s).1 with
    | Ok solTransferred' =>
        0 <= solTransferred' /\ (0 < solTransferred' -> (1 <= length (submitted tr))%nat)
    | Throw _ => submitted tr = []
    end.
Proof.
  unfold sweepPhase. unfold bind at 1 3.
  destruct (respects_retry_getBalance c (kp_publicKey keypair) s) as (_ & _ & tr0 & Ht0 & HP0).
  destruct (retryWithBackoff_default c _ s) as [[updatedBalance|e] s0]; cbn [fst snd] in *.
  2:{ exists tr0. split; [exact Ht0|]. split; [|apply noSubmission_submitted, HP0].
      eapply Forall_impl; [exact HP0 | apply noSubmission_inPhase]. }
  assert (HP0' : Forall (inPhase TransferTx) tr0)
    by (eapply Forall_impl; [exact HP0 | apply noSubmission_inPhase]).
  destruct (Z.ltb_spec 0 updatedBalance) as [Hpos|Hle].
  2:{ exists tr0. split; [exact Ht0|]. split; [exact HP0'|]. cbn. lia. }
  unfold bind.
  destruct (respects_transferSolToFeePayer c keypair updatedBalance s0)
    as (_ & _ & tr1 & Ht1 & HP1).
  destruct (transferSolToFeePayer_outcome c keypair updatedBalance s0)
    as (r & s1 & Hrun & _ & Hamount & _ & Hsuccess).
  rewrite Hrun in Ht1 |- *. cbn [fst snd] in *.
  exists (tr0 ++ tr1).
  destruct (tr_success r) eqn:Hr; unfold ret; cbn [fst snd];
    (split; [rewrite Ht1, Ht0, <- app_assoc; reflexivity|]);
    (split; [apply Forall_app; auto|]).
  - rewrite Hamount. split; [lia|]. intros _.
    destruct (Hsuccess eq_refl) as (_ & _ & fp & bh & sg & before & after & _ & Hsent).
    rewrite Ht1 in Hsent. apply app_inv_head in Hsent. subst tr1.
    rewrite submitted_app, length_app.
    pose proof (submitted_one before
                  {| instructions :=
                       [Transfer (kp_publicKey keypair) (kp_publicKey fp) updatedBalance];
                     feePayer := kp_publicKey fp; recentBlockhash := bh |} sg after).
    lia.
  - split; lia.
Qed.
End PipelineFacts.

(** X9. The result of [processWalletCompletely] is backed by what was
    submitted: the number of token accounts it reports as closed is at
    most the number of close transactions submitted, a positive amount
    of SOL transferred means that a transfer was submitted, and the total
    is the rent recovered plus the SOL transferred. When it throws, no
    transfer was submitted: a wallet whose processing fails has not been
    swept. *)
Theorem pipeline_result_is_backed_by_submissions
        {W : Type} (h : Host) (c : Connection W) (walletIndex : Z) (s : RentCollector.t W) :
  exists closes burns transfers : nat,
    submissions (RentCollector.trace (RentCollector.processWalletCompletely h c walletIndex s).2)
    = submissions (RentCollector.trace s) ++
      replicate closes CloseTx ++ replicate burns BurnTx ++ replicate transfers TransferTx /\
    match (RentCollector.processWalletCompletely h c walletIndex s).1 with
    | Ok r =>
        RentCollector.totalRecovered r
        = RentCollector.rentRecovered r + RentCollector.solTransferred r /\
        0 <= RentCollector.tokenAccountsClosed r <= Z.of_nat closes /\
        0 <= RentCollector.solTransferred r /\
        (0 < RentCollector.solTransferred r -> (1 <= transfers)%nat)
    | Throw _ => transfers = 0%nat
    end.
Proof.
  assert (Hnone : forall tr : list Event,
             exists closes burns transfers : nat,
               submissions tr
               = submissions tr ++ replicate closes CloseTx ++ replicate burns BurnTx ++
                 replicate transfers TransferTx /\
               transfers = 0%nat).
  { intros tr. exists 0%nat, 0%nat, 0%nat. simpl. rewrite app_nil_r. auto. }
  unfold RentCollector.processWalletCompletely, bind, gets. simpl.
  destruct (RentCollector.feePayerKeypair s) as [fp|]; [|apply Hnone].
  destruct (RentCollector.walletAt walletIndex _) as [wallet|]; [|apply Hnone].
  unfold RentCollector.keypairFromSecretKey.
  destruct (fromSecretKey h (privateKey wallet)) as [pub|e]; [|apply Hnone].
  simpl. set (keypair := {| secretKey := privateKey wallet; kp_publicKey := pub |}).
  destruct (closePhase_counts c keypair s) as (tr1 & Ht1 & HP1 & Hn1).
  apply inPhase_submissions in HP1.
  destruct (RentCollector.closePhase c keypair s) as [[closed|e] s1]; cbn [fst snd] in *.
  2:{ exists (length (submitted tr1)), 0%nat, 0%nat.
      rewrite Ht1, submissions_app, HP1. simpl. rewrite app_nil_r. auto. }
  specialize (Hn1 closed eq_refl).
  destruct (respects_burnAllTokens c keypair s1) as (_ & _ & tr2 & Ht2 & HP2).
  apply inPhase_submissions in HP2.
  destruct (RentCollector.burnAllTokens c keypair s1) as [[burned|e] s2]; cbn [fst snd] in *.
  2:{ exists (length (submitted tr1)), (length (submitted tr2)), 0%nat.
      rewrite Ht2, Ht1, !submissions_app, HP1, HP2. simpl.
      rewrite app_nil_r, <- app_assoc. auto. }
  destruct (sweepPhase_counts c keypair s2) as (tr3 & Ht3 & HP3 & Hn3).
  apply inPhase_submissions in HP3.
  exists (length (submitted tr1)), (length (submitted tr2)), (length (submitted tr3)).
  destruct (RentCollector.sweepPhase c keypair s2) as [[sol|e] s3];
    unfold ret; cbn [fst snd] in *;
    (split; [rewrite Ht3, Ht2, Ht1, !submissions_app, HP1, HP2, HP3, <- !app_assoc;
             reflexivity|]).
  - cbn. repeat split; lia.
  - rewrite Hn3. reflexivity.
Qed.

(** ** The progress events of a batch *)



Section WorkerFacts.
Context {W : Type} (h : Host) (c : Connection W).
Context (P : Event -> Prop).
Hypothesis Hcall : forall call, P (Called call).
Hypothesis Hsleep : forall ms, P (Slept ms).
Import RentCollector.









End WorkerFacts.


Section ProgressFacts.
Context {W : Type} (h : Host) (c : Connection W).
Variable callback : Progress -> W -> Result unit * W.
Variable walletCount : Z.
Hypothesis Hquiet : quiet (Some callback).
Import RentCollector.




End ProgressFacts.



(** What the window is told of the wallets of [dust]: wallet A ends with
    10000 lamports, announced as 0.0000 SOL. *)
Example dust_reports :
  status <$> reports (RentCollector.trace
                        (RentCollector.processAllWallets demoHost (scripted dust)
                           (Some idleCallback)
                           (collectorDemo
                              (loadWallets demoHost ["a.txt"] WalletManager.new))).2)
  = [ProcessingWallet; Collected "0.0000"; ProcessingWallet; Collected "0.0000"].
Proof. vm_compute. reflexivity. Qed.

(** ** The two passes over the discovered store *)

Section PassFacts.
Context {W : Type} (h : Host) (c : Connection W).
Import RentCollector.

Lemma transferStep_counts acc wallet s pub :
  fromSecretKey h (privateKey wallet) = Ok pub ->
  exists acc' s' tr,
    transferStep h c acc wallet s = (Ok acc', s') /\
    walletManager s' = walletManager s /\ feePayerKeypair s' = feePayerKeypair s /\
    trace s' = trace s ++ tr /\ Forall (inPhase TransferTx) tr /\
    acc'.1.2 + acc'.2 = acc.1.2 + acc.2 + (if hasSolAndNoRent wallet then 1 else 0) /\
    acc.1.2 <= acc'.1.2 /\ acc.2 <= acc'.2 /\
    acc.1.1 <= acc'.1.1 <= acc.1.1 + (if hasSolAndNoRent wallet then balance wallet else 0) /\
    (hasSolAndNoRent wallet = false -> s' = s).
Proof.
  intros Hkey. unfold transferStep. fold (hasSolAndNoRent wallet).
  destruct (hasSolAndNoRent wallet) eqn:Hsweep.
  2:{ exists acc, s, []. rewrite app_nil_r. unfold ret.
      repeat split; auto; lia. }
  assert (Hbal : 0 < balance wallet).
  { unfold hasSolAndNoRent, MIN_TRANSFER_LAMPORTS in Hsweep.
    apply andb_true_iff in Hsweep as [Hb _]. lia. }
  unfold keypairFromSecretKey. rewrite Hkey. unfold bind at 1. unfold ret at 1.
  unfold bind at 1.
  set (keypair := {| secretKey := privateKey wallet; kp_publicKey := pub |}).
  destruct (respects_transferSolToFeePayer c keypair (balance wallet) s)
    as (Hw & Hf & tr & Htr & HP).
  destruct (transferSolToFeePayer_outcome c keypair (balance wallet) s)
    as (r & s1 & Hrun & _ & Hamount & _ & _).
  rewrite Hrun in Hw, Hf, Htr |- *. cbn [fst snd] in *.
  unfold bind, sleep, ret. cbn beta iota.
  eexists _, _, (tr ++ [Slept 1000]). split; [reflexivity|].
  cbn [walletManager feePayerKeypair trace].
  split; [exact Hw|]. split; [exact Hf|].
  split; [rewrite Htr, <- app_assoc; reflexivity|].
  split; [apply Forall_app; split; [exact HP | repeat constructor]|].
  rewrite Hamount. destruct (tr_success r); cbn [fst snd]; repeat split; try lia; discriminate.
Qed.

Lemma transferLoop_counts wallets : forall acc s,
  storeDerived h wallets ->
  exists acc' s' tr,
    foldM (transferStep h c) wallets acc s = (Ok acc', s') /\
    walletManager s' = walletManager s /\ feePayerKeypair s' = feePayerKeypair s /\
    trace s' = trace s ++ tr /\ Forall (inPhase TransferTx) tr /\
    acc'.1.2 + acc'.2
    = acc.1.2 + acc.2
      + Z.of_nat (length (filter (fun w => hasSolAndNoRent w = true) wallets)) /\
    acc.1.2 <= acc'.1.2 /\ acc.2 <= acc'.2 /\
    acc.1.1 <= acc'.1.1
    <= acc.1.1
       + foldr Z.add 0 (balance <$> filter (fun w => hasSolAndNoRent w = true) wallets) /\
    (Forall (fun w => hasSolAndNoRent w = false) wallets -> acc' = acc /\ s' = s).
Proof.
  induction wallets as [|wallet rest IH]; intros acc s Hst; cbn [foldM].
  - exists acc, s, []. rewrite app_nil_r. unfold ret. cbn. repeat split; auto; lia.
  - apply Forall_cons in Hst as [Hkey Hst].
    destruct (transferStep_counts acc wallet s (publicKey wallet) Hkey)
      as (acc1 & s1 & tr1 & Hrun1 & Hw1 & Hf1 & Ht1 & HP1 & Hn1 & Hok1 & Hfail1 & Hsum1
          & Hskip1).
    destruct (IH acc1 s1 Hst)
      as (acc2 & s2 & tr2 & Hrun2 & Hw2 & Hf2 & Ht2 & HP2 & Hn2 & Hok2 & Hfail2 & Hsum2
          & Hskip2).
    exists acc2, s2, (tr1 ++ tr2). unfold bind. rewrite Hrun1, Hrun2.
    split; [reflexivity|]. split; [congruence|]. split; [congruence|].
    split; [rewrite Ht2, Ht1, <- app_assoc; reflexivity|].
    split; [apply Forall_app; auto|].
    rewrite filter_cons.
    destruct (hasSolAndNoRent wallet) eqn:Hsweep.
    + destruct (decide (true = true)) as [_|Hne]; [|congruence].
      rewrite fmap_cons. cbn [length foldr].
      assert (Hbal : 0 < balance wallet).
      { unfold hasSolAndNoRent, MIN_TRANSFER_LAMPORTS in Hsweep.
        apply andb_true_iff in Hsweep as [Hb _]. lia. }
      do 4 (split; [lia|]). intros Hall. apply Forall_cons in Hall as [Hx _]. congruence.
    + destruct (decide (false = true)) as [Hne|_]; [discriminate|].
      do 4 (split; [lia|]). intros Hall. apply Forall_cons in Hall as [_ Hall].
      destruct (Hskip2 Hall) as [-> ->]. specialize (Hskip1 eq_refl). subst s1.
      split; [|reflexivity].
      destruct acc as [[a b] d], acc1 as [[a1 b1] d1]. cbn in *. repeat f_equal; lia.
Qed.

Lemma transferLoop_skips wallets acc s :
  Forall (fun w => hasSolAndNoRent w = false) wallets ->
  foldM (transferStep h c) wallets acc s = (Ok acc, s).
Proof.
  induction 1 as [|wallet rest Hx _ IH]; cbn [foldM]; [reflexivity|].
  unfold bind, transferStep. fold (hasSolAndNoRent wallet). rewrite Hx. exact IH.
Qed.

Lemma closeAllStep_counts keypair acc tokenAccount s :
  exists tr,
    walletManager (closeAllStep c keypair acc tokenAccount s).2 = walletManager s /\
    feePayerKeypair (closeAllStep c keypair acc tokenAccount s).2 = feePayerKeypair s /\
    trace (closeAllStep c keypair acc tokenAccount s).2 = trace s ++ tr /\
    Forall (inPhase CloseTx) tr /\
    forall acc', (closeAllStep c keypair acc tokenAccount s).1 = Ok acc' ->
                 acc.1.2 <= acc'.1.2 <= acc.1.2 + Z.of_nat (length (submitted tr)) /\
                 acc.2 <= acc'.2.
Proof.
  assert (Hresp : respects (inPhase CloseTx) (closeAllStep c keypair acc tokenAccount)).
  { unfold closeAllStep. repeat respects_step.
    - apply (respects_mono noSubmission); [apply noSubmission_inPhase|].
      apply respects_calculateRentExemptBalance.
    - apply respects_feePayerPublicKey.
    - apply respects_closeTokenAccount. }
  destruct (Hresp s) as (Hw & Hf & tr & Htr & HP).
  exists tr. split; [exact Hw|]. split; [exact Hf|]. split; [exact Htr|]. split; [exact HP|].
  clear Hw Hf Hresp.
  revert Htr. unfold closeAllStep, calculateRentExemptBalance, feePayerPublicKey.
  cbn [truthyBuffer]. cbv zeta. unfold bind, remote, gets, sleep, ret, throw.
  destruct (getMinimumBalanceForRentExemption c _ (world s)) as [[r|e] w1]; cbn beta iota;
    [|discriminate].
  destruct (canCloseAccount _ _); [|intros _ acc' [= <-]; lia].
  cbn [feePayerKeypair].
  destruct (feePayerKeypair s) as [feePayer'|] eqn:Hfp; cbn beta iota; [|discriminate].
  match goal with
  | |- context [closeTokenAccount c ?pk ?kp ?dest ?s1] =>
      destruct (closeTokenAccount_outcome c pk kp dest s1)
        as (cr & s2 & -> & _ & _ & Hsuccess)
  end.
  cbn beta iota. cbn [trace].
  destruct (cr_success cr) eqn:Hcr.
  - destruct (Hsuccess eq_refl)
      as (_ & info & w1' & fp & blockhash & signers & before & after & _ & _ & _ & ->).
    cbn [trace]. rewrite <- !app_assoc. intros Htr acc' [= <-].
    apply app_inv_head in Htr. subst tr. cbn [fst snd].
    match goal with
    | |- context [Called (SendAndConfirmTransaction ?transaction ?sg) :: after] =>
        pose proof (submitted_one
                      ([Called (GetMinimumBalanceForRentExemption
                                  (Z.of_nat (length (data (account tokenAccount)))))]
                       ++ before)
                      transaction sg (after ++ [Slept 2000])) as Hone
    end.
    rewrite <- !app_assoc in Hone. cbn [app] in Hone |- *. lia.
  - intros _ acc' [= <-]. cbn [fst snd]. lia.
Qed.

Lemma closeAllLoop_counts keypair tokenAccounts : forall acc s,
  exists tr,
    walletManager (foldM (closeAllStep c keypair) tokenAccounts acc s).2 = walletManager s /\
    feePayerKeypair (foldM (closeAllStep c keypair) tokenAccounts acc s).2
    = feePayerKeypair s /\
    trace (foldM (closeAllStep c keypair) tokenAccounts acc s).2 = trace s ++ tr /\
    Forall (inPhase CloseTx) tr /\
    forall acc', (foldM (closeAllStep c keypair) tokenAccounts acc s).1 = Ok acc' ->
                 acc.1.2 <= acc'.1.2 <= acc.1.2 + Z.of_nat (length (submitted tr)) /\
                 acc.2 <= acc'.2.
Proof.
  induction tokenAccounts as [|tokenAccount rest IH]; intros acc s; cbn [foldM].
  - exists []. rewrite app_nil_r. unfold ret. cbn [fst snd].
    repeat split; try constructor; injection H as <-; simpl; lia.
  - unfold bind.
    destruct (closeAllStep_counts keypair acc tokenAccount s)
      as (tr1 & Hw1 & Hf1 & Ht1 & HP1 & Hn1).
    destruct (closeAllStep c keypair acc tokenAccount s) as [[acc1|e] s1]; cbn [fst snd] in *.
    + destruct (IH acc1 s1) as (tr2 & Hw2 & Hf2 & Ht2 & HP2 & Hn2).
      exists (tr1 ++ tr2). rewrite Ht2, Ht1, <- app_assoc.
      split; [congruence|]. split; [congruence|].
      split; [reflexivity|]. split; [apply Forall_app; auto|].
      intros acc' Hrun. specialize (Hn2 acc' Hrun). specialize (Hn1 acc1 eq_refl).
      rewrite submitted_app, length_app. lia.
    + exists tr1. repeat split; auto; discriminate.
Qed.

Lemma closeAllWallet_counts acc wallet s :
  exists tr,
    walletManager (closeAllWallet h c acc wallet s).2 = walletManager s /\
    feePayerKeypair (closeAllWallet h c acc wallet s).2 = feePayerKeypair s /\
    trace (closeAllWallet h c acc wallet s).2 = trace s ++ tr /\
    Forall (inPhase CloseTx) tr /\
    (hasRent wallet = false -> closeAllWallet h c acc wallet s = (Ok acc, s)) /\
    forall acc', (closeAllWallet h c acc wallet s).1 = Ok acc' ->
                 acc.1.2 <= acc'.1.2 <= acc.1.2 + Z.of_nat (length (submitted tr)) /\
                 acc.2 <= acc'.2.
Proof.
  unfold closeAllWallet. fold (hasRent wallet).
  destruct (hasRent wallet).
  2:{ exists []. rewrite app_nil_r. unfold ret. cbn [fst snd].
      repeat split; try constructor; injection H as <-; lia. }
  unfold keypairFromSecretKey.
  destruct (fromSecretKey h (privateKey wallet)) as [pub|e].
  2:{ exists []. rewrite app_nil_r. unfold bind, throw. cbn [fst snd].
      repeat split; try constructor; discriminate. }
  cbv [bind ret].
  set (keypair := {| secretKey := privateKey wallet; kp_publicKey := pub |}).
  destruct (respects_getTokenAccounts c (kp_publicKey keypair) s) as (Hw0 & Hf0 & tr0 & Ht0 & HP0).
  assert (HP0' : Forall (inPhase CloseTx) tr0)
    by (eapply Forall_impl; [exact HP0 | apply noSubmission_inPhase]).
  destruct (getTokenAccounts c (kp_publicKey keypair) s) as [[tokenAccounts|e] s0];
    cbn [fst snd] in *.
  2:{ exists tr0. repeat split; auto; intros; try congruence; discriminate. }
  destruct (closeAllLoop_counts keypair tokenAccounts acc s0) as (tr & Hw & Hf & Htr & HP & Hn).
  exists (tr0 ++ tr). rewrite Htr, Ht0, <- app_assoc.
  split; [congruence|]. split; [congruence|]. split; [reflexivity|].
  split; [apply Forall_app; auto|]. split; [discriminate|].
  intros acc' Hrun. specialize (Hn acc' Hrun). rewrite submitted_app, length_app. lia.
Qed.

Lemma closeAllWallets_counts wallets : forall acc s,
  exists tr,
    walletManager (foldM (closeAllWallet h c) wallets acc s).2 = walletManager s /\
    feePayerKeypair (foldM (closeAllWallet h c) wallets acc s).2 = feePayerKeypair s /\
    trace (foldM (closeAllWallet h c) wallets acc s).2 = trace s ++ tr /\
    Forall (inPhase CloseTx) tr /\
    (Forall (fun w => hasRent w = false) wallets ->
     foldM (closeAllWallet h c) wallets acc s = (Ok acc, s)) /\
    forall acc', (foldM (closeAllWallet h c) wallets acc s).1 = Ok acc' ->
                 acc.1.2 <= acc'.1.2 <= acc.1.2 + Z.of_nat (length (submitted tr)) /\
                 acc.2 <= acc'.2.
Proof.
  induction wallets as [|wallet rest IH]; intros acc s; cbn [foldM].
  - exists []. rewrite app_nil_r. unfold ret. cbn [fst snd].
    repeat split; try constructor; injection H as <-; lia.
  - unfold bind.
    destruct (closeAllWallet_counts acc wallet s) as (tr1 & Hw1 & Hf1 & Ht1 & HP1 & Hskip1 & Hn1).
    destruct (closeAllWallet h c acc wallet s) as [[acc1|e] s1] eqn:Hrun1; cbn [fst snd] in *.
    + destruct (IH acc1 s1) as (tr2 & Hw2 & Hf2 & Ht2 & HP2 & Hskip2 & Hn2).
      exists (tr1 ++ tr2). rewrite Ht2, Ht1, <- app_assoc.
      split; [congruence|]. split; [congruence|].
      split; [reflexivity|]. split; [apply Forall_app; auto|].
      split.
      * intros Hall. apply Forall_cons in Hall as [Hx Hall].
        specialize (Hskip1 Hx). injection Hskip1 as -> ->. apply Hskip2, Hall.
      * intros acc' Hrun. specialize (Hn2 acc' Hrun). specialize (Hn1 acc1 eq_refl).
        rewrite submitted_app, length_app. lia.
    + exists tr1. do 4 (split; [assumption|]). split; [|discriminate].
      intros Hall. apply Forall_cons in Hall as [Hx _]. specialize (Hskip1 Hx). discriminate.
Qed.
End PassFacts.

(** X11. With a fee payer set and a store whose secrets decode,
    [transferSolBalances] does not throw and leaves the store as it is;
    every wallet with more than 10000 lamports and no rent found is
    counted once, as a successful or as a failed transfer, and no other
    wallet is counted; the total transferred lies between 0 and the sum
    of the balances of those wallets; every transaction submitted is a
    transfer. *)
Theorem transfer_pass_counts_each_eligible_wallet
        {W : Type} (h : Host) (c : Connection W) (s : RentCollector.t W) (feePayer' : Keypair) :
  RentCollector.feePayerKeypair s = Some feePayer' ->
  storeDerived h (RentCollector.walletManager s) ->
  exists summary s' tr,
    RentCollector.transferSolBalances h c s = (Ok summary, s') /\
    RentCollector.walletManager s' = RentCollector.walletManager s /\
    RentCollector.trace s' = RentCollector.trace s ++ tr /\
    Forall (inPhase TransferTx) tr /\
    totalWallets summary = WalletManager.getWalletCount (RentCollector.walletManager s) /\
    successfulCollections summary + failedCollections summary
    = Z.of_nat (length (filter (fun w => hasSolAndNoRent w = true)
                               (RentCollector.walletManager s))) /\
    0 <= successfulCollections summary /\ 0 <= failedCollections summary /\
    0 <= totalRentCollected summary
    <= foldr Z.add 0 (balance <$> filter (fun w => hasSolAndNoRent w = true)
                                         (RentCollector.walletManager s)).
Proof.
  intros Hfp Hst.
  unfold RentCollector.transferSolBalances, bind, gets. rewrite Hfp. cbn beta iota.
  unfold WalletManager.getWallets, WalletManager.getWalletCount.
  destruct (transferLoop_counts h c (RentCollector.walletManager s) (0, 0, 0) s Hst)
    as (acc & s' & tr & -> & Hw & _ & Htr & HP & Hn & Hok & Hfail & Hsum & _).
  unfold ret. eexists _, s', tr. split; [reflexivity|].
  cbn in *. repeat split; auto; lia.
Qed.

Lemma transfer_pass_counts_each_eligible_wallet_witness :
  exists summary s',
    RentCollector.transferSolBalances demoHost (scripted sweepFailsForB)
      (collectorDemo analysedStore) = (Ok summary, s') /\
    successfulCollections summary + failedCollections summary = 2 /\
    totalRentCollected summary <= 1200000.
Proof.
  destruct (transfer_pass_counts_each_eligible_wallet demoHost (scripted sweepFailsForB)
              (collectorDemo analysedStore) feePayerDemo eq_refl)
    as (summary & s' & tr & Hrun & _ & _ & _ & _ & Hn & _ & _ & Hsum).
  - repeat constructor.
  - exists summary, s'. split; [exact Hrun|]. split; [exact Hn | apply Hsum].
Defined.

(** X12. [closeAllTokenAccounts] leaves the store and the fee payer as
    they are, and every transaction it submits is a close. Without a fee
    payer it throws before doing anything. The closures it reports as
    successful are at most the close transactions it submitted. *)
Theorem close_pass_only_closes
        {W : Type} (h : Host) (c : Connection W) (s : RentCollector.t W) :
  exists tr,
    RentCollector.walletManager (RentCollector.closeAllTokenAccounts h c s).2
    = RentCollector.walletManager s /\
    RentCollector.feePayerKeypair (RentCollector.closeAllTokenAccounts h c s).2
    = RentCollector.feePayerKeypair s /\
    RentCollector.trace (RentCollector.closeAllTokenAccounts h c s).2
    = RentCollector.trace s ++ tr /\
    Forall (inPhase CloseTx) tr /\
    (RentCollector.feePayerKeypair s = None ->
     RentCollector.closeAllTokenAccounts h c s
     = (Throw (Error "Fee payer not set. Call setFeePayer() first."), s)) /\
    forall summary,
      (RentCollector.closeAllTokenAccounts h c s).1 = Ok summary ->
      totalWallets summary = WalletManager.getWalletCount (RentCollector.walletManager s) /\
      0 <= successfulCollections summary <= Z.of_nat (length (submitted tr)) /\
      0 <= failedCollections summary.
Proof.
  unfold RentCollector.closeAllTokenAccounts. cbv [bind gets].
  destruct (RentCollector.feePayerKeypair s) as [fp|] eqn:Hfp.
  2:{ exists []. rewrite app_nil_r. unfold throw. cbn [fst snd].
      repeat split; auto; discriminate. }
  unfold WalletManager.getWallets, WalletManager.getWalletCount.
  destruct (closeAllWallets_counts h c (RentCollector.walletManager s) (0, 0, 0) s)
    as (tr & Hw & Hf & Htr & HP & _ & Hn).
  exists tr.
  destruct (foldM _ _ _ s) as [[acc|e] s']; cbn [fst snd ret] in *; unfold ret; cbn [fst snd].
  - do 4 (split; [congruence || assumption|]). split; [discriminate|].
    intros summary [= <-]. specialize (Hn acc eq_refl). cbn in *. repeat split; lia.
  - do 4 (split; [congruence || assumption|]). split; discriminate.
Qed.

(** X13. Right after a load that succeeds, with a fee payer set, both
    passes over the discovered store do nothing: [transferSolBalances]
    and [closeAllTokenAccounts] make no remote call and report no
    transfer and no closure, because the load has put every balance and
    rent amount back to 0. *)
Theorem nothing_to_collect_right_after_a_load
        {W : Type} (h : Host) (c : Connection W) (filePath : string) (clearExisting : bool)
        (wallets ws : WalletManager.t) (s : RentCollector.t W) (feePayer' : Keypair) :
  (WalletManager.loadWalletsFromFile h filePath clearExisting wallets).1 = Ok ws ->
  RentCollector.walletManager s
  = (WalletManager.loadWalletsFromFile h filePath clearExisting wallets).2 ->
  RentCollector.feePayerKeypair s = Some feePayer' ->
  RentCollector.transferSolBalances h c s
  = (Ok {| totalWallets := Z.of_nat (length ws); successfulCollections := 0;
           totalRentCollected := 0; failedCollections := 0; results := [] |}, s) /\
  RentCollector.closeAllTokenAccounts h c s
  = (Ok {| totalWallets := Z.of_nat (length ws); successfulCollections := 0;
           totalRentCollected := 0; failedCollections := 0; results := [] |}, s).
Proof.
  intros Hload Hstore Hfp.
  pose proof (load_success h _ _ _ _ Hload) as (keys & m & _ & _ & Hws & Hafter).
  rewrite Hafter in Hstore.
  assert (Hfresh : Forall undiscovered ws) by (rewrite Hws; apply fresh_undiscovered).
  split.
  - unfold RentCollector.transferSolBalances. cbv [bind gets]. rewrite Hfp, Hstore.
    unfold WalletManager.getWallets.
    rewrite (transferLoop_skips h c ws (0, 0, 0) s); [reflexivity|].
    eapply Forall_impl; [exact Hfresh|]. intros w (Hb & _ & _ & _).
    unfold hasSolAndNoRent, RentCollector.MIN_TRANSFER_LAMPORTS. rewrite Hb. reflexivity.
  - unfold RentCollector.closeAllTokenAccounts. cbv [bind gets]. rewrite Hfp, Hstore.
    unfold WalletManager.getWallets.
    destruct (closeAllWallets_counts h c ws (0, 0, 0) s)
      as (tr & _ & _ & _ & _ & Hskip & _).
    rewrite Hskip; [reflexivity|].
    eapply Forall_impl; [exact Hfresh|]. intros w (_ & _ & _ & Hc).
    unfold hasRent. rewrite Hc. reflexivity.
Qed.

Lemma nothing_to_collect_right_after_a_load_witness :
  RentCollector.transferSolBalances demoHost (scripted sweepFailsForB)
    (collectorDemo (loadWallets demoHost ["a.txt"] WalletManager.new))
  = (Ok {| totalWallets := 2; successfulCollections := 0; totalRentCollected := 0;
           failedCollections := 0; results := [] |},
     collectorDemo (loadWallets demoHost ["a.txt"] WalletManager.new)).
Proof.
  destruct (nothing_to_collect_right_after_a_load demoHost (scripted sweepFailsForB)
              "a.txt" false WalletManager.new
              (loadWallets demoHost ["a.txt"] WalletManager.new)
              (collectorDemo (loadWallets demoHost ["a.txt"] WalletManager.new))
              feePayerDemo) as [Htransfer _].
  - vm_compute. reflexivity.
  - vm_compute. reflexivity.
  - reflexivity.
  - exact Htransfer.
Defined.

(** ** The analysis *)

Lemma updateWalletInfo_insert (wallets : WalletManager.t) (k : nat) w b r a cc :
  wallets !! k = Some w ->
  WalletManager.updateWalletInfo (Z.of_nat k) b r a cc wallets
  = <[k := {| privateKey := privateKey w; publicKey := publicKey w; balance := b;
              rentExemptBalance := r; rentAmount := a; canClose := cc |}]> wallets.
Proof.
  intros Hk. unfold WalletManager.updateWalletInfo.
  pose proof (lookup_lt_Some _ _ _ Hk) as Hlt.
  replace ((0 <=? Z.of_nat k) && (Z.of_nat k <? Z.of_nat (length wallets))) with true
    by (symmetry; apply andb_true_iff; lia).
  rewrite Nat2Z.id, Hk. reflexivity.
Qed.

Lemma drop_S_drop {A} (l : list A) (k : nat) : drop (S k) l = drop 1 (drop k l).
Proof. rewrite drop_drop. f_equal. lia. Qed.

Section AnalysisFacts.
Context {W : Type} (h : Host) (c : Connection W).
Import RentCollector.

Variable progressCallback : option (AnalysisProgress -> W -> Result unit * W).
Hypothesis Hquiet : quietAnalysis progressCallback.

Lemma reportAnalysis_run p s :
  exists s',
    reportAnalysis progressCallback p s = (Ok tt, s') /\
    walletManager s' = walletManager s /\ feePayerKeypair s' = feePayerKeypair s /\
    trace s' = trace s.
Proof.
  unfold reportAnalysis. destruct progressCallback as [callback|].
  - specialize (Hquiet p (world s)). destruct (callback p (world s)) as [r w'].
    cbn in Hquiet. subst r. eexists. split; [reflexivity|]. auto.
  - exists s. auto.
Qed.

Lemma respects_scan tokenAccounts acc :
  respects noSubmission (foldM (scanStep c) tokenAccounts acc).
Proof.
  apply respects_foldM. intros acc' tokenAccount.
  unfold scanStep, calculateRentExemptBalance. repeat respects_step.
Qed.

Lemma processSingleWallet_outcome wallet (k : nat) s pub :
  walletManager s !! k = Some wallet ->
  fromSecretKey h (privateKey wallet) = Ok pub ->
  exists result s' tr,
    processSingleWallet h c wallet (Z.of_nat k) s = (Ok result, s') /\
    walletManager s' = <[k := result]> (walletManager s) /\
    feePayerKeypair s' = feePayerKeypair s /\
    trace s' = trace s ++ tr /\ Forall noSubmission tr /\
    privateKey result = privateKey wallet /\ publicKey result = publicKey wallet /\
    (result = wallet \/
     (rentExemptBalance result = 0 /\ canClose result = (0 <? rentAmount result))).
Proof.
  intros Hk Hkey. unfold processSingleWallet, keypairFromSecretKey. rewrite Hkey.
  cbv [bind ret try_catch sleep]. cbn [walletManager feePayerKeypair trace world kp_publicKey].
  match goal with
  | |- context [retryWithBackoff_default c ?fn ?s0] =>
      destruct (respects_retry_getBalance c pub s0) as (Hw1 & Hf1 & tr1 & Ht1 & HP1);
      destruct (retryWithBackoff_default c fn s0) as [[walletBalance|e] s1]
  end; cbn [walletManager feePayerKeypair trace fst snd kp_publicKey] in *.
  2:{ exists wallet, s1, (Slept 250 :: tr1).
      split; [reflexivity|]. rewrite Hw1, Hf1, Ht1, <- app_assoc.
      rewrite list_insert_id by exact Hk.
      repeat split; auto. constructor; [exact I | exact HP1]. }
  destruct (respects_getTokenAccounts c pub s1) as (Hw2 & Hf2 & tr2 & Ht2 & HP2).
  destruct (getTokenAccounts c pub s1) as [[tokenAccounts|e] s2];
    cbn [walletManager feePayerKeypair trace fst snd] in *.
  2:{ exists wallet, s2, (Slept 250 :: tr1 ++ tr2).
      split; [reflexivity|]. rewrite Hw2, Hw1, Hf2, Hf1, Ht2, Ht1, <- !app_assoc.
      rewrite list_insert_id by exact Hk.
      repeat split; auto. constructor; [exact I | apply Forall_app; auto]. }
  destruct (respects_scan tokenAccounts (0, 0) s2) as (Hw3 & Hf3 & tr3 & Ht3 & HP3).
  destruct (foldM (scanStep c) tokenAccounts (0, 0) s2) as [[totals|e] s3];
    cbn [walletManager feePayerKeypair trace fst snd] in *.
  2:{ exists wallet, s3, (Slept 250 :: tr1 ++ tr2 ++ tr3).
      split; [reflexivity|].
      rewrite Hw3, Hw2, Hw1, Hf3, Hf2, Hf1, Ht3, Ht2, Ht1, <- !app_assoc.
      rewrite list_insert_id by exact Hk.
      repeat split; auto. constructor; [exact I | rewrite !Forall_app; auto]. }
  unfold updateWalletInfo. cbn [walletManager feePayerKeypair trace fst snd].
  eexists _, _, (Slept 250 :: tr1 ++ tr2 ++ tr3). split; [reflexivity|].
  cbn [walletManager feePayerKeypair trace privateKey publicKey rentExemptBalance
       canClose rentAmount].
  rewrite Hw3, Hw2, Hw1, Hf3, Hf2, Hf1, Ht3, Ht2, Ht1, <- !app_assoc.
  rewrite (updateWalletInfo_insert _ k wallet) by exact Hk.
  repeat split; auto. constructor; [exact I | rewrite !Forall_app; auto].
Qed.

Lemma analysed_refl w : analysed w w.
Proof. repeat split. left. reflexivity. Qed.

Lemma analysed_storeDerived (after before : WalletManager.t) :
  Forall2 analysed after before -> storeDerived h before -> storeDerived h after.
Proof.
  unfold storeDerived. induction 1 as [|w' w after before (Hsk & Hpk & _) _ IH];
    intros Hst; [constructor|].
  apply Forall_cons in Hst as [Hw Hst]. constructor; [|apply IH, Hst].
  rewrite Hsk, Hpk. exact Hw.
Qed.

Lemma analysed_insert (store0 store : WalletManager.t) (k : nat) wallet result :
  Forall2 analysed store store0 ->
  store !! k = Some wallet -> store0 !! k = Some wallet ->
  privateKey result = privateKey wallet -> publicKey result = publicKey wallet ->
  (result = wallet \/
   (rentExemptBalance result = 0 /\ canClose result = (0 <? rentAmount result))) ->
  Forall2 analysed (<[k := result]> store) store0.
Proof.
  intros Hall Hk Hk0 Hsk Hpk Hres.
  rewrite <- (list_insert_id store0 k wallet Hk0).
  apply Forall2_insert; [exact Hall|]. repeat split; assumption.
Qed.

Lemma analyzeBatch_outcome batch : forall (k : nat) (store0 : WalletManager.t) s,
  Forall2 analysed (walletManager s) store0 ->
  storeDerived h store0 ->
  batch `prefix_of` drop k store0 ->
  drop k (walletManager s) = drop k store0 ->
  exists s' tr,
    analyzeBatch h c progressCallback (Z.of_nat k) batch (take k (walletManager s)) s
    = (Ok (take (k + length batch) (walletManager s')), s') /\
    Forall2 analysed (walletManager s') store0 /\
    drop (k + length batch) (walletManager s') = drop (k + length batch) store0 /\
    feePayerKeypair s' = feePayerKeypair s /\
    trace s' = trace s ++ tr /\ Forall noSubmission tr.
Proof.
  induction batch as [|wallet rest IH]; intros k store0 s Hall Hst Hpre Hdrop;
    cbn [analyzeBatch].
  - exists s, []. rewrite Nat.add_0_r, app_nil_r. unfold ret. repeat split; auto.
  - assert (Hk0 : store0 !! k = Some wallet).
    { destruct Hpre as [more Hmore].
      rewrite <- (Nat.add_0_r k), <- lookup_drop, Hmore. reflexivity. }
    assert (Hk : walletManager s !! k = Some wallet).
    { rewrite <- (Nat.add_0_r k), <- lookup_drop, Hdrop, lookup_drop, Nat.add_0_r.
      exact Hk0. }
    assert (Hkey : fromSecretKey h (privateKey wallet) = Ok (publicKey wallet)).
    { unfold storeDerived in Hst. rewrite Forall_forall in Hst.
      apply Hst. eapply list_elem_of_lookup_2, Hk0. }
    cbv [bind gets].
    match goal with
    | |- context [reportAnalysis progressCallback ?p s] =>
        destruct (reportAnalysis_run p s) as (s1 & -> & Hw1 & Hf1 & Ht1)
    end.
    rewrite <- Hw1 in Hk.
    destruct (processSingleWallet_outcome wallet k s1 (publicKey wallet) Hk Hkey)
      as (result & s2 & tr2 & -> & Hw2 & Hf2 & Ht2 & HP2 & Hsk & Hpk & Hres).
    match goal with
    | |- context [reportAnalysis progressCallback ?p s2] =>
        destruct (reportAnalysis_run p s2) as (s3 & -> & Hw3 & Hf3 & Ht3)
    end.
    assert (Hstore3 : walletManager s3 = <[k := result]> (walletManager s))
      by (rewrite Hw3, Hw2, Hw1; reflexivity).
    rewrite Hw1 in Hk.
    assert (Htake : take k (walletManager s) ++ [result] = take (S k) (walletManager s3)).
    { rewrite Hstore3. erewrite take_S_r.
      - rewrite take_insert_ge by lia. reflexivity.
      - rewrite list_lookup_insert_eq; [reflexivity|]. eapply lookup_lt_Some, Hk. }
    replace (Z.of_nat k + 1) with (Z.of_nat (S k)) by lia.
    rewrite Htake.
    destruct (IH (S k) store0 s3) as (s' & tr & -> & Hall' & Hdrop' & Hf' & Ht' & HP').
    + rewrite Hstore3. eapply analysed_insert; eauto.
    + exact Hst.
    + destruct Hpre as [more Hmore]. exists more.
      rewrite drop_S_drop, Hmore. reflexivity.
    + rewrite Hstore3, drop_insert_lt by lia.
      rewrite (drop_S_drop (walletManager s) k), (drop_S_drop store0 k), Hdrop.
      reflexivity.
    + exists s', (tr2 ++ tr). cbn [length].
      replace (k + S (length rest))%nat with (S k + length rest)%nat by lia.
      split; [reflexivity|]. split; [exact Hall'|]. split; [exact Hdrop'|].
      split; [congruence|]. split; [|apply Forall_app; auto].
      rewrite Ht', Ht3, Ht2, Ht1, <- app_assoc. reflexivity.
Qed.

Lemma analyzeLoop_outcome fuel : forall (i : nat) (store0 : WalletManager.t) s,
  Forall2 analysed (walletManager s) store0 ->
  storeDerived h store0 ->
  drop i (walletManager s) = drop i store0 ->
  (length store0 - i < fuel)%nat ->
  exists s' tr,
    analyzeLoop h c progressCallback fuel (Z.of_nat i) (take i (walletManager s)) s
    = (Ok (Some (walletManager s')), s') /\
    Forall2 analysed (walletManager s') store0 /\
    feePayerKeypair s' = feePayerKeypair s /\
    trace s' = trace s ++ tr /\ Forall noSubmission tr.
Proof.
  induction fuel as [|fuel IH]; intros i store0 s Hall Hst Hdrop Hfuel; [lia|].
  cbn [analyzeLoop]. cbv [bind gets]. unfold WalletManager.getWallets.
  pose proof (Forall2_length _ _ _ Hall) as Hlen.
  destruct (Z.ltb_spec (Z.of_nat i) (Z.of_nat (length (walletManager s)))) as [Hlt|Hge].
  2:{ exists s, []. rewrite app_nil_r, take_ge by lia. unfold ret. repeat split; auto. }
  unfold slice, BATCH_SIZE.
  replace (Z.to_nat (Z.of_nat i + 10 - Z.of_nat i)) with 10%nat by lia.
  rewrite Nat2Z.id.
  set (batch := take 10 (drop i (walletManager s))).
  assert (Hbatch : length batch = Nat.min 10 (length store0 - i)).
  { unfold batch. rewrite length_take, length_drop. lia. }
  destruct (analyzeBatch_outcome batch i store0 s Hall Hst)
    as (s1 & tr1 & -> & Hall1 & Hdrop1 & Hf1 & Ht1 & HP1).
  { unfold batch. rewrite Hdrop. apply prefix_take. }
  { exact Hdrop. }
  pose proof (Forall2_length _ _ _ Hall1) as Hlen1.
  assert (Htake : take (i + length batch) (walletManager s1)
                  = take (i + 10) (walletManager s1)).
  { destruct (Nat.le_gt_cases 10 (length store0 - i)) as [Hfull|Hlast].
    - rewrite Hbatch, Nat.min_l by exact Hfull. reflexivity.
    - rewrite !take_ge by lia. reflexivity. }
  assert (Hdrop' : drop (i + 10) (walletManager s1) = drop (i + 10) store0).
  { destruct (Nat.le_gt_cases 10 (length store0 - i)) as [Hfull|Hlast].
    - rewrite Hbatch, Nat.min_l in Hdrop1 by exact Hfull. exact Hdrop1.
    - rewrite !drop_ge by lia. reflexivity. }
  rewrite Htake. replace (Z.of_nat i + 10) with (Z.of_nat (i + 10)) by lia.
  destruct (Z.of_nat (i + 10) <? Z.of_nat (length (walletManager s1))).
  - cbv [sleep].
    match goal with
    | |- context [analyzeLoop h c progressCallback fuel _ _ ?s2] =>
        destruct (IH (i + 10)%nat store0 s2) as (s' & tr & Hrun & Hall' & Hf' & Ht' & HP');
        [exact Hall1 | exact Hst | exact Hdrop' | lia |]
    end.
    cbn [walletManager feePayerKeypair trace] in *.
    exists s', (tr1 ++ Slept 1500 :: tr). rewrite Hrun.
    split; [reflexivity|]. split; [exact Hall'|]. split; [congruence|].
    split; [rewrite Ht', Ht1, <- !app_assoc; reflexivity|].
    apply Forall_app. split; [exact HP1|]. constructor; [exact I | exact HP'].
  - cbv [ret].
    destruct (IH (i + 10)%nat store0 s1) as (s' & tr & Hrun & Hall' & Hf' & Ht' & HP');
      [exact Hall1 | exact Hst | exact Hdrop' | lia |].
    exists s', (tr1 ++ tr). rewrite Hrun.
    split; [reflexivity|]. split; [exact Hall'|]. split; [congruence|].
    split; [rewrite Ht', Ht1, <- !app_assoc; reflexivity|].
    apply Forall_app. split; assumption.
Qed.
End AnalysisFacts.

Lemma analysed_all_refl (wallets : WalletManager.t) : Forall2 analysed wallets wallets.
Proof. induction wallets; constructor; [apply analysed_refl | assumption]. Qed.

Lemma analysed_identities (after before : WalletManager.t) :
  Forall2 analysed after before ->
  (fun w => (privateKey w, publicKey w)) <$> after
  = (fun w => (privateKey w, publicKey w)) <$> before.
Proof.
  induction 1 as [|w' w after before (Hsk & Hpk & _) _ IH]; [reflexivity|].
  rewrite !fmap_cons, IH, Hsk, Hpk. reflexivity.
Qed.

(** X14. The discovery of one wallet. When the secret of the wallet does
    not decode, [processSingleWallet] throws before it has done anything.
    When it decodes, [processSingleWallet] does not throw and submits no
    transaction; run on the record at its own index, it leaves in the
    store, at that index, the very record it returns, which has the
    secret and identity of the wallet and either is the wallet unchanged
    (a query failed) or has [canClose] set exactly when the rent found is
    positive. *)
Theorem discovery_writes_what_it_returns
        {W : Type} (h : Host) (c : Connection W) (wallet : WalletInfo) (k : nat)
        (s : RentCollector.t W) :
  RentCollector.walletManager s !! k = Some wallet ->
  (forall e, fromSecretKey h (privateKey wallet) = Throw e ->
             RentCollector.processSingleWallet h c wallet (Z.of_nat k) s = (Throw e, s)) /\
  (forall pub,
      fromSecretKey h (privateKey wallet) = Ok pub ->
      exists result s' tr,
        RentCollector.processSingleWallet h c wallet (Z.of_nat k) s = (Ok result, s') /\
        RentCollector.walletManager s' = <[k := result]> (RentCollector.walletManager s) /\
        RentCollector.feePayerKeypair s' = RentCollector.feePayerKeypair s /\
        RentCollector.trace s' = RentCollector.trace s ++ tr /\ Forall noSubmission tr /\
        analysed result wallet).
Proof.
  intros Hk. split.
  - intros e Hkey. unfold RentCollector.processSingleWallet, RentCollector.keypairFromSecretKey.
    rewrite Hkey. reflexivity.
  - intros pub Hkey.
    destruct (processSingleWallet_outcome h c wallet k s pub Hk Hkey)
      as (result & s' & tr & Hrun & Hw & Hf & Ht & HP & Hsk & Hpk & Hres).
    exists result, s', tr. unfold analysed. auto 10.
Qed.

Lemma discovery_writes_what_it_returns_witness :
  exists result s',
    RentCollector.processSingleWallet demoHost (scripted dust)
      {| privateKey := demoKey "A"; publicKey := walletA; balance := 0;
         rentExemptBalance := 0; rentAmount := 0; canClose := false |} 0
      (collectorDemo (loadWallets demoHost ["a.txt"] WalletManager.new)) = (Ok result, s') /\
    RentCollector.walletManager s' !! 0%nat = Some result.
Proof.
  destruct (discovery_writes_what_it_returns demoHost (scripted dust)
              {| privateKey := demoKey "A"; publicKey := walletA; balance := 0;
                 rentExemptBalance := 0; rentAmount := 0; canClose := false |} 0%nat
              (collectorDemo (loadWallets demoHost ["a.txt"] WalletManager.new))
              ltac:(vm_compute; reflexivity)) as [_ Hok].
  destruct (Hok walletA ltac:(vm_compute; reflexivity))
    as (result & s' & tr & Hrun & Hw & _).
  exists result, s'. split; [exact Hrun|].
  rewrite Hw. apply list_lookup_insert_eq. vm_compute. lia.
Defined.

(** X15. The analysis of a store whose secrets decode, with a progress
    callback that does not throw: given room for more batches than the
    store has wallets, [analyzeWallets] comes to an end without throwing,
    and the array it returns is the content of the store it leaves
    behind. Every record keeps its secret, its identity and its place,
    and either is unchanged or has [canClose] set exactly when the rent
    found is positive. The fee payer is untouched and no transaction is
    submitted. *)
Theorem analysis_returns_the_store_it_leaves
        {W : Type} (h : Host) (c : Connection W)
        (progressCallback : option (AnalysisProgress -> W -> Result unit * W))
        (fuel : nat) (s : RentCollector.t W) :
  quietAnalysis progressCallback ->
  storeDerived h (RentCollector.walletManager s) ->
  (length (RentCollector.walletManager s) < fuel)%nat ->
  exists s' tr,
    RentCollector.analyzeWalletsWithin h c progressCallback fuel s
    = (Ok (Some (RentCollector.walletManager s')), s') /\
    Forall2 analysed (RentCollector.walletManager s') (RentCollector.walletManager s) /\
    (fun w => (privateKey w, publicKey w)) <$> RentCollector.walletManager s'
    = (fun w => (privateKey w, publicKey w)) <$> RentCollector.walletManager s /\
    RentCollector.feePayerKeypair s' = RentCollector.feePayerKeypair s /\
    RentCollector.trace s' = RentCollector.trace s ++ tr /\ Forall noSubmission tr.
Proof.
  intros Hquiet Hst Hfuel. unfold RentCollector.analyzeWalletsWithin.
  destruct (analyzeLoop_outcome h c progressCallback Hquiet fuel 0
              (RentCollector.walletManager s) s)
    as (s' & tr & Hrun & Hall & Hf & Ht & HP).
  - apply analysed_all_refl.
  - exact Hst.
  - reflexivity.
  - lia.
  - exists s', tr. split; [exact Hrun|]. split; [exact Hall|].
    split; [apply analysed_identities, Hall|]. auto.
Qed.

Lemma analysis_returns_the_store_it_leaves_witness :
  exists s',
    RentCollector.analyzeWalletsWithin demoHost (scripted dust) None 3
      (collectorDemo (loadWallets demoHost ["a.txt"] WalletManager.new))
    = (Ok (Some (RentCollector.walletManager s')), s') /\
    identities (RentCollector.walletManager s') = [walletA; walletB].
Proof.
  destruct (analysis_returns_the_store_it_leaves demoHost (scripted dust) None 3
              (collectorDemo (loadWallets demoHost ["a.txt"] WalletManager.new)) I)
    as (s' & tr & Hrun & _ & Hids & _).
  - repeat constructor.
  - vm_compute. lia.
  - exists s'. split; [exact Hrun|].
    apply (f_equal (fmap snd)) in Hids.
    rewrite <- !list_fmap_compose in Hids. exact Hids.
Defined.

Example analysis_of_dust :
  (RentCollector.analyzeWalletsWithin demoHost (scripted dust) None 3
     (collectorDemo (loadWallets demoHost ["a.txt"] WalletManager.new))).1
  = Ok (Some [ {| privateKey := demoKey "A"; publicKey := walletA; balance := 5000;
                  rentExemptBalance := 0; rentAmount := 5000; canClose := true |};
               {| privateKey := demoKey "B"; publicKey := walletB; balance := 0;
                  rentExemptBalance := 0; rentAmount := 0; canClose := false |} ]).
Proof. vm_compute. reflexivity. Qed.

(** ** Burning *)

Section BurnFacts.
Context {W : Type} (c : Connection W).
Import RentCollector.

Lemma burnStep_counts walletKeypair feePayer' acc tokenAccount s :
  exists acc' s' tr,
    burnStep c walletKeypair feePayer' acc tokenAccount s = (Ok acc', s') /\
    trace s' = trace s ++ tr /\ Forall (inPhase BurnTx) tr /\
    tokensBurned acc <= tokensBurned acc'
    <= tokensBurned acc + Z.of_nat (length (submitted tr)).
Proof.
  destruct (respects_burnStep c walletKeypair feePayer' acc tokenAccount s)
    as (_ & _ & tr & Htr & HP).
  destruct (burnStep c walletKeypair feePayer' acc tokenAccount s) as [r s'] eqn:Hrun.
  cbn [snd] in Htr.
  assert (Hdone : forall s0, (Ok acc, s0) = (r, s') ->
            exists acc' s'' tr',
              (r, s') = (Ok acc', s'') /\ trace s'' = trace s ++ tr' /\
              Forall (inPhase BurnTx) tr' /\
              tokensBurned acc <= tokensBurned acc'
              <= tokensBurned acc + Z.of_nat (length (submitted tr'))).
  { intros s0 [= <- <-]. exists acc, s0, tr. repeat split; auto; lia. }
  revert Hrun. unfold burnStep. cbv zeta. cbv [try_catch bind]. unfold remote at 1.
  destruct (getAccountInfo c (pubkey tokenAccount) (world s)) as [[[info|]|e] w1];
    cbn beta iota; try (unfold ret; apply Hdone).
  destruct (Z.of_nat (length (data info)) <? 165); [unfold ret; apply Hdone|].
  destruct (0 <? readBigUInt64LE 64 (data info)); [|unfold ret; apply Hdone].
  unfold remote at 1. cbn [world].
  destruct (getLatestBlockhash c w1) as [[blockhash|e] w2]; cbn beta iota;
    [|unfold ret; apply Hdone].
  match goal with
  | |- context [retryWithBackoff_default c (remote ?call ?f) ?s1] =>
      pose proof (retry_answer_called c call f s1) as Hcalled;
      destruct (retryWithBackoff_default c (remote call f) s1) as [[sig|e] s2]
  end; cbn beta iota; [|unfold ret; apply Hdone].
  destruct (Hcalled sig s2 eq_refl) as [after Hafter]. cbn [trace] in Hafter.
  cbv [sleep ret]. intros [= <- <-]. cbn [trace] in Htr.
  rewrite Hafter, <- !app_assoc in Htr. apply app_inv_head in Htr. subst tr.
  eexists _, _, _. split; [reflexivity|]. cbn [trace].
  split; [rewrite Hafter, <- !app_assoc; reflexivity|]. split; [exact HP|].
  cbn [tokensBurned].
  match goal with
  | |- context [Called (SendAndConfirmTransaction ?transaction ?sg) :: _] =>
      pose proof (submitted_one [Called (GetAccountInfo (pubkey tokenAccount));
                                 Called GetLatestBlockhash]
                    transaction sg (after ++ [Slept 500])) as Hone
  end.
  cbn [app] in Hone |- *. lia.
Qed.

Lemma burnLoop_counts walletKeypair feePayer' tokenAccounts : forall acc s,
  exists acc' s' tr,
    foldM (burnStep c walletKeypair feePayer') tokenAccounts acc s = (Ok acc', s') /\
    trace s' = trace s ++ tr /\ Forall (inPhase BurnTx) tr /\
    tokensBurned acc <= tokensBurned acc'
    <= tokensBurned acc + Z.of_nat (length (submitted tr)).
Proof.
  induction tokenAccounts as [|tokenAccount rest IH]; intros acc s; cbn [foldM].
  - exists acc, s, []. rewrite app_nil_r. unfold ret. repeat split; [constructor | |];
      simpl; lia.
  - destruct (burnStep_counts walletKeypair feePayer' acc tokenAccount s)
      as (acc1 & s1 & tr1 & Hrun1 & Ht1 & HP1 & Hn1).
    destruct (IH acc1 s1) as (acc2 & s2 & tr2 & Hrun2 & Ht2 & HP2 & Hn2).
    exists acc2, s2, (tr1 ++ tr2). unfold bind. rewrite Hrun1, Hrun2.
    split; [reflexivity|]. split; [rewrite Ht2, Ht1, <- app_assoc; reflexivity|].
    split; [apply Forall_app; auto|].
    rewrite submitted_app, length_app. lia.
Qed.
End BurnFacts.

(** X16. [burnAllTokens] never throws and leaves the store and the fee
    payer as they are. Without a fee payer it calls nothing and counts
    nothing. Every transaction it submits is a burn, and the number of
    token accounts it counts as burned is at most the number of burn
    transactions it submitted. *)
Theorem burn_count_is_backed_by_submissions
        {W : Type} (c : Connection W) (walletKeypair : Keypair) (s : RentCollector.t W) :
  exists burnResult s' tr,
    RentCollector.burnAllTokens c walletKeypair s = (Ok burnResult, s') /\
    RentCollector.walletManager s' = RentCollector.walletManager s /\
    RentCollector.feePayerKeypair s' = RentCollector.feePayerKeypair s /\
    RentCollector.trace s' = RentCollector.trace s ++ tr /\
    Forall (inPhase BurnTx) tr /\
    0 <= RentCollector.tokensBurned burnResult <= Z.of_nat (length (submitted tr)) /\
    (RentCollector.feePayerKeypair s = None ->
     s' = s /\ RentCollector.tokensBurned burnResult = 0 /\
     RentCollector.totalTokensBurned burnResult = 0).
Proof.
  destruct (respects_burnAllTokens c walletKeypair s) as (Hw & Hf & tr & Htr & HP).
  destruct (RentCollector.burnAllTokens c walletKeypair s) as [r s'] eqn:Hrun.
  cbn [snd] in Hw, Hf, Htr.
  revert Hrun. unfold RentCollector.burnAllTokens. cbv [bind gets].
  destruct (RentCollector.feePayerKeypair s) as [feePayer'|] eqn:Hfp.
  2:{ unfold ret. intros [= <- <-].
      exists {| RentCollector.tokensBurned := 0; RentCollector.totalTokensBurned := 0 |}, s, tr.
      cbn [RentCollector.tokensBurned RentCollector.totalTokensBurned].
      repeat split; auto; lia. }
  cbv [try_catch].
  destruct (respects_getTokenAccounts c (kp_publicKey walletKeypair) s)
    as (_ & _ & tr0 & Ht0 & HP0).
  destruct (RentCollector.getTokenAccounts c (kp_publicKey walletKeypair) s)
    as [[tokenAccounts|e] s0]; cbn [fst snd] in *.
  2:{ unfold ret. intros [= <- <-].
      exists {| RentCollector.tokensBurned := 0; RentCollector.totalTokensBurned := 0 |},
             s0, tr.
      cbn [RentCollector.tokensBurned].
      repeat split; auto; try lia; discriminate. }
  destruct (burnLoop_counts c walletKeypair feePayer' tokenAccounts
              {| RentCollector.tokensBurned := 0; RentCollector.totalTokensBurned := 0 |} s0)
    as (acc & s1 & tr1 & -> & Ht1 & HP1 & Hn).
  cbn [RentCollector.tokensBurned] in Hn. intros [= <- <-].
  exists acc, s1, tr. split; [reflexivity|].
  assert (tr = tr0 ++ tr1) as ->.
  { apply (app_inv_head (RentCollector.trace s)). rewrite <- Htr, Ht1, Ht0, app_assoc.
    reflexivity. }
  rewrite submitted_app, length_app.
  repeat split; auto; try lia; discriminate.
Qed.
